(** * The persistence engine of typeorm: SubjectOperationExecutor

    A shallow embedding of [src/persistence/SubjectOperationExecutor.ts] and of
    the closure-table statement of [src/driver/websql/WebsqlQueryRunner.ts].

    JavaScript objects live in a heap of property maps, the Subject objects in
    a store addressed by position, and every call to a collaborator (query
    runner, broadcaster, driver, provider) is appended to a trace. *)

From stdpp Require Import gmap strings list.
From Stdlib Require Import ZArith Lia Ascii.

#[local] Set Warnings "-register-all".
#[local] Open Scope Z_scope.

(** ** JavaScript values *)

Definition loc := nat.

(** Dates and arrays are never mutated nor compared by identity by the
    executor, so they are carried as values; every other object is a heap
    reference. *)
Inductive Value :=
| VUndefined
| VNull
| VNaN
| VBool (b : bool)
| VNum (n : Z)
| VStr (s : string)
| VDate (t : Z)
| VRef (l : loc)
| VArr (items : list Value).

(** [!!v] *)
Definition truthy (v : Value) : bool :=
  match v with
  | VUndefined | VNull | VNaN => false
  | VBool b => b
  | VNum n => negb (n =? 0)
  | VStr s => negb (String.eqb s "")
  | VDate _ | VRef _ | VArr _ => true
  end.

(** [a || b] *)
Definition js_or (a b : Value) : Value := if truthy a then a else b.

(** [a === b]. Two Dates or two arrays are distinct objects. *)
Definition strict_equal (a b : Value) : bool :=
  match a, b with
  | VUndefined, VUndefined => true
  | VNull, VNull => true
  | VBool x, VBool y => Bool.eqb x y
  | VNum x, VNum y => x =? y
  | VStr x, VStr y => String.eqb x y
  | VRef x, VRef y => Nat.eqb x y
  | _, _ => false
  end.

(** [v + 1]. On a Date or an array JavaScript appends to their printed form,
    which the model does not carry; [VNaN] stands for it. *)
Definition plus_one (v : Value) : Value :=
  match v with
  | VNum n => VNum (n + 1)
  | VNull => VNum 1
  | VBool b => VNum (if b then 2 else 1)
  | VStr s => VStr (s +:+ "1")
  | VRef _ => VStr "[object Object]1"
  | VUndefined | VNaN | VDate _ | VArr _ => VNaN
  end.

(** *** Conversion to a number

    The numbers of the model are the integers.  A string is read as a signed
    decimal integer between white space, and the empty string as 0; a string
    that denotes another number (a fraction, an exponent, a radix prefix,
    Infinity) is outside the numbers of the model, and [VNaN] stands for it.
    White space is the white space of ASCII. *)
Definition is_space (a : ascii) : bool :=
  let n := nat_of_ascii a in
  ((9 <=? n)%nat && (n <=? 13)%nat) || (n =? 32)%nat.

Definition digit_of (a : ascii) : option Z :=
  let n := nat_of_ascii a in
  if ((48 <=? n)%nat && (n <=? 57)%nat) then Some (Z.of_nat n - 48) else None.

Fixpoint drop_spaces (s : string) : string :=
  match s with
  | String a s' => if is_space a then drop_spaces s' else s
  | EmptyString => EmptyString
  end.

(** The digits of [s] after the value [acc] of the digits read so far; only
    white space may follow them. *)
Fixpoint read_digits (s : string) (acc : Z) : option Z :=
  match s with
  | EmptyString => Some acc
  | String a s' =>
      match digit_of a with
      | Some d => read_digits s' (10 * acc + d)
      | None => if String.eqb (drop_spaces s) "" then Some acc else None
      end
  end.

Definition unsigned_to_number (s : string) : option Z :=
  match s with
  | String a _ => match digit_of a with Some _ => read_digits s 0 | None => None end
  | EmptyString => None
  end.

(** [Number(s)] *)
Definition string_to_number (s : string) : Value :=
  match drop_spaces s with
  | EmptyString => VNum 0
  | String a rest as trimmed =>
      match (if Ascii.eqb a "-"%char then (λ n, VNum (- n)) <$> unsigned_to_number rest
             else if Ascii.eqb a "+"%char then VNum <$> unsigned_to_number rest
             else VNum <$> unsigned_to_number trimmed) with
      | Some v => v
      | None => VNaN
      end
  end.

(** [Number(v)].  A Date converts to its time; an array converts through its
    printed form, which is empty for no item, the printed form of the item
    for one, and holds a comma for more; an object that defines no conversion
    of its own prints as [[object Object]]. *)
Fixpoint to_number (v : Value) : Value :=
  match v with
  | VUndefined | VNaN | VRef _ => VNaN
  | VNull => VNum 0
  | VBool b => VNum (if b then 1 else 0)
  | VNum n => VNum n
  | VStr s => string_to_number s
  | VDate t => VNum t
  | VArr [] => VNum 0
  | VArr [item] =>
      match item with
      | VUndefined | VNull => VNum 0
      | VNum n => VNum n
      | VStr s => string_to_number s
      | VArr _ => to_number item
      | VNaN | VBool _ | VDate _ | VRef _ => VNaN
      end
  | VArr _ => VNaN
  end.

(** [v++] converts to a number first. *)
Definition increment (v : Value) : Value :=
  match to_number v with
  | VNum n => VNum (n + 1)
  | _ => VNaN
  end.

(** [v === v] fails for NaN only. *)
Definition self_equal (v : Value) : bool :=
  match v with VNaN => false | _ => true end.

Definition is_array (v : Value) : bool :=
  match v with VArr _ => true | _ => false end.

(** ** Errors and results *)

Inductive Error :=
| TypeError
| Thrown (message : string)
| QueryRunnerAlreadyReleasedError
| TransactionAlreadyStartedError
| TransactionNotStartedError
| Rejected (reason : Value).

Inductive Res (A : Type) :=
| Ok (a : A)
| Err (e : Error).
Arguments Ok {A} a.
Arguments Err {A} e.

Definition is_ok {A} (r : Res A) : bool :=
  match r with Ok _ => true | Err _ => false end.

#[global] Instance Res_ret : MRet Res := λ A a, Ok a.

#[global] Instance Res_bind : MBind Res := λ A B f r,
  match r with
  | Ok a => f a
  | Err e => Err e
  end.

(** A member that may be missing: reading through [undefined] throws. *)
Definition required {A} (o : option A) : Res A :=
  match o with Some a => Ok a | None => Err TypeError end.

(** [l.find(p)] with a callback that may throw. *)
Fixpoint findR {A} (p : A → Res bool) (l : list A) : Res (option A) :=
  match l with
  | [] => Ok None
  | a :: l' => p a ≫= λ b : bool, if b then Ok (Some a) else findR p l'
  end.

(** ** The heap of entities *)

Abbreviation Obj := (gmap string Value).
Abbreviation Heap := (gmap loc Obj).

(** [v[p]] *)
Definition property (h : Heap) (v : Value) (p : string) : Res Value :=
  match v with
  | VUndefined | VNull => Err TypeError
  | VRef l => Ok (default VUndefined (h !! l ≫= (λ o : Obj, o !! p)))
  | _ => Ok VUndefined
  end.

(** [l[p] = v] *)
Definition assign (h : Heap) (l : loc) (p : string) (v : Value) : Heap :=
  <[l := <[p := v]> (default ∅ (h !! l))]> h.

(** ** Object literals built by the executor

    Key order is insertion order and is what the query runner turns into the
    column order of a statement. *)
Definition ObjectLiteral := list (string * Value).

Fixpoint obj_set (k : string) (v : Value) (o : ObjectLiteral) : ObjectLiteral :=
  match o with
  | [] => [(k, v)]
  | (k', v') :: o' =>
      if String.eqb k k' then (k, v) :: o' else (k', v') :: obj_set k v o'
  end.

Fixpoint obj_get (k : string) (o : ObjectLiteral) : Value :=
  match o with
  | [] => VUndefined
  | (k', v') :: o' => if String.eqb k k' then v' else obj_get k o'
  end.

(** [values[index]] *)
Definition at_index (values : list Value) (i : nat) : Value :=
  default VUndefined (values !! i).

(** Modelled from the spec: OrmUtils.zipObject is not among the sources.  The
    junction rows and the insert rows of the spec pair column names with
    values position by position. *)
Definition zipObject (keys : list string) (values : list Value) : ObjectLiteral :=
  fold_left (λ object ki, obj_set ki.2 (at_index values ki.1) object)
            (imap (λ i k, (i, k)) keys) [].

(** ** Entity metadata

    The metadata classes are declared outside the files at hand.  The records
    list the members the executor reads; a [hasX] member is the presence of
    the optional member [X]. *)

Inductive ColumnMetadata := {
  column_propertyName : string;
  column_name : string;
  column_fullName : string;
  column_entityTarget : option string;
  column_isGenerated : bool;
  column_isObjectId : bool;
  column_isVirtual : bool;
  column_isParentId : bool;
  column_isDiscriminator : bool;
  column_isCreateDate : bool;
  column_isUpdateDate : bool;
  column_isVersion : bool;
  column_referencedColumn : option ColumnMetadata }.

Inductive EmbeddedMetadata := {
  embedded_propertyName : string;
  embedded_isArray : bool;
  embedded_columns : list ColumnMetadata;
  embedded_embeddeds : list EmbeddedMetadata }.

Record TableMetadata := {
  table_name : string;
  isClassTableChild : bool;
  isClosure : bool }.

Record JoinColumnMetadata := {
  joinColumn_name : string;
  joinColumn_referencedColumn : ColumnMetadata }.

Record JoinTableMetadata := {
  joinTable_referencedColumn : ColumnMetadata;
  joinTable_inverseReferencedColumn : ColumnMetadata }.

Inductive EntityMetadata := {
  target : string;
  table : TableMetadata;
  parentEntityMetadata : option EntityMetadata;
  hasNonNullableColumns : bool;
  columns : list ColumnMetadata;
  columnsWithoutEmbeddeds : list ColumnMetadata;
  embeddeds : list EmbeddedMetadata;
  primaryColumns : list ColumnMetadata;
  parentPrimaryColumns : list ColumnMetadata;
  primaryColumnsWithParentIdColumns : list ColumnMetadata;
  firstPrimaryColumn : option ColumnMetadata;
  generatedColumnIfExist : option ColumnMetadata;
  objectIdColumn : option ColumnMetadata;
  createDateColumn : option ColumnMetadata;
  updateDateColumn : option ColumnMetadata;
  versionColumn : option ColumnMetadata;
  discriminatorColumn : option ColumnMetadata;
  treeLevelColumn : option ColumnMetadata;
  parentIdColumn : option ColumnMetadata;
  discriminatorValue : Value;
  relations : list RelationMetadata;
  relationsWithJoinColumns : list RelationMetadata;
  oneToManyRelations : list RelationMetadata;
  oneToOneRelations : list RelationMetadata;
  treeParentRelation : option RelationMetadata;
  treeChildrenRelation : option RelationMetadata;
  closureJunctionTable : option EntityMetadata }
with RelationMetadata := {
  relation_name : string;
  relation_propertyName : string;
  relation_target : string;
  relation_entityTarget : string;
  isOwning : bool;
  isManyToManyOwner : bool;
  isManyToManyNotOwner : bool;
  joinColumn : option JoinColumnMetadata;
  joinTable : option JoinTableMetadata;
  inverseEntityMetadata : EntityMetadata;
  inverseRelation : option RelationMetadata;
  junctionEntityMetadata : option EntityMetadata }.

Definition present {A} (o : option A) : bool :=
  match o with Some _ => true | None => false end.

Definition hasGeneratedColumn (m : EntityMetadata) := present (generatedColumnIfExist m).
Definition hasObjectIdColumn (m : EntityMetadata) := present (objectIdColumn m).
Definition hasCreateDateColumn (m : EntityMetadata) := present (createDateColumn m).
Definition hasUpdateDateColumn (m : EntityMetadata) := present (updateDateColumn m).
Definition hasVersionColumn (m : EntityMetadata) := present (versionColumn m).
Definition hasDiscriminatorColumn (m : EntityMetadata) := present (discriminatorColumn m).
Definition hasTreeLevelColumn (m : EntityMetadata) := present (treeLevelColumn m).
Definition hasParentIdColumn (m : EntityMetadata) := present (parentIdColumn m).
Definition hasTreeParentRelation (m : EntityMetadata) := present (treeParentRelation m).
Definition hasTreeChildrenRelation (m : EntityMetadata) := present (treeChildrenRelation m).
Definition hasInverseSide (r : RelationMetadata) := present (inverseRelation r).

(** ** Subjects *)

Record JunctionInsert := {
  junctionInsert_relation : RelationMetadata;
  junctionEntities : list Value }.

Record JunctionRemove := {
  junctionRemove_relation : RelationMetadata;
  junctionRelationIds : list Value }.

Record RelationUpdate := {
  relationUpdate_relation : RelationMetadata;
  relationUpdate_value : Value }.

(** Subject.ts is not among the sources; the fields are those of the data
    model of the spec.  [entity] and [databaseEntity] are optional. *)
Record Subject := {
  metadata : EntityMetadata;
  entity : option loc;
  databaseEntity : option loc;
  entityTarget : string;
  date : Value;
  mustBeInserted : bool;
  mustBeUpdated : bool;
  mustBeRemoved : bool;
  hasRelationUpdates : bool;
  diffColumns : list ColumnMetadata;
  diffRelations : list RelationMetadata;
  relationUpdates : list RelationUpdate;
  junctionInserts : list JunctionInsert;
  junctionRemoves : list JunctionRemove;
  newlyGeneratedId : Value;
  generatedObjectId : Value;
  parentGeneratedId : Value;
  treeLevel : Value }.

Definition object_value (o : option loc) : Value :=
  match o with Some l => VRef l | None => VUndefined end.

Definition hasEntity (s : Subject) : bool := present (entity s).

Definition entityOf (s : Subject) : Value := object_value (entity s).

(** [subjects.find(subject => subject.entity === v)] over an array of Subject
    objects, given as positions in the store. *)
Definition findByEntity (store : list Subject) (v : Value) (refs : list nat) : option nat :=
  find (λ i, match store !! i with
             | Some s => strict_equal (entityOf s) v
             | None => false
             end) refs.

Definition with_generated (f : Subject → Value * Value * Value * Value) (s : Subject) : Subject :=
  let '(n, o, p, t) := f s in
  {| metadata := metadata s; entity := entity s; databaseEntity := databaseEntity s;
     entityTarget := entityTarget s; date := date s;
     mustBeInserted := mustBeInserted s; mustBeUpdated := mustBeUpdated s;
     mustBeRemoved := mustBeRemoved s; hasRelationUpdates := hasRelationUpdates s;
     diffColumns := diffColumns s; diffRelations := diffRelations s;
     relationUpdates := relationUpdates s; junctionInserts := junctionInserts s;
     junctionRemoves := junctionRemoves s;
     newlyGeneratedId := n; generatedObjectId := o; parentGeneratedId := p; treeLevel := t |}.

Definition set_newlyGeneratedId (v : Value) : Subject → Subject :=
  with_generated (λ s, (v, generatedObjectId s, parentGeneratedId s, treeLevel s)).
Definition set_generatedObjectId (v : Value) : Subject → Subject :=
  with_generated (λ s, (newlyGeneratedId s, v, parentGeneratedId s, treeLevel s)).
Definition set_parentGeneratedId (v : Value) : Subject → Subject :=
  with_generated (λ s, (newlyGeneratedId s, generatedObjectId s, v, treeLevel s)).
Definition set_treeLevel (v : Value) : Subject → Subject :=
  with_generated (λ s, (newlyGeneratedId s, generatedObjectId s, parentGeneratedId s, v)).

(** ** Collaborators *)

(** Every call the executor makes to a collaborator. *)
Inductive Event :=
| EProvide
| EIsTransactionActive (answer : bool)
| EBeginTransaction
| ECommitTransaction
| ERollbackTransaction
| EInsert (tableName : string) (keyValues : ObjectLiteral) (generatedColumn : option ColumnMetadata)
| EUpdate (tableName : string) (valuesMap conditions : ObjectLiteral)
| EDelete (tableName : string) (conditions : option ObjectLiteral)
| EInsertIntoClosureTable (tableName : string) (newEntityId parentId : Value) (hasLevel : bool)
| EBroadcastBefore (inserted updated removed : list Subject)
| EBroadcastAfter (inserted updated removed : list Subject)
| EPreparePersistentValue (value : Value) (column : ColumnMetadata).

(** The QueryRunner interface, over the state [Q] of an implementation. *)
Class QueryRunner (Q : Type) := {
  isTransactionActive : Q → bool;
  beginTransaction : Q → Res unit * Q;
  commitTransaction : Q → Res unit * Q;
  rollbackTransaction : Q → Res unit * Q;
  runner_insert : string → ObjectLiteral → option ColumnMetadata → Q → Res Value * Q;
  runner_update : string → ObjectLiteral → ObjectLiteral → Q → Res unit * Q;
  runner_delete : string → option ObjectLiteral → Q → Res unit * Q;
  insertIntoClosureTable : string → Value → Value → bool → Q → Res Value * Q }.

(** What the executor reaches through [connection], [queryRunnerProvider] and
    the methods of Subject and of the metadata classes.  None of them is among
    the sources, so they are parameters of the development. *)
Class Collaborators := {
  provide : Res unit;
  broadcastBeforeEventsForAll :
    list Subject → list Subject → list Subject → Heap → Res unit * Heap;
  broadcastAfterEventsForAll :
    list Subject → list Subject → list Subject → Heap → Res unit * Heap;
  preparePersistentValue : Value → ColumnMetadata → Value;
  getMetadata : string → Res EntityMetadata;
  validate : Subject → Res unit;
  recompute : Heap → Subject → Subject;
  column_hasEntityValue : ColumnMetadata → Heap → Value → Res bool;
  column_getEntityValue : ColumnMetadata → Heap → Value → Res Value;
  relation_getEntityValue : RelationMetadata → Heap → Value → Res Value;
  getInverseEntityRelationId : RelationMetadata → Heap → Value → Res Value;
  getOwnEntityRelationId : RelationMetadata → Heap → Value → Res Value;
  getDatabaseEntityIdMap : EntityMetadata → Heap → Value → Res (option ObjectLiteral);
  getEntityIdColumnMap : EntityMetadata → Heap → Value → Res (option ObjectLiteral);
  extractRelationValuesFromEntity :
    EntityMetadata → Heap → Value → list RelationMetadata →
    Res (list (RelationMetadata * Value * EntityMetadata));
  constructorName : Heap → Value → string }.

(** ** The executor's world and its monad *)

Module SubjectOperationExecutor.
Section Executor.
Context {Q : Type} `{!QueryRunner Q} `{!Collaborators}.

(** The heap of entities, the Subject objects handed to [execute], the query
    runner, the clock behind [new Date()], the trace of collaborator calls,
    the fields of the executor object (arrays of Subject objects, held as
    positions in [subjects]) and the local [isTransactionStartedByItself] that
    the try and the catch block of [execute] share. *)
Record World := {
  entities : Heap;
  subjects : list Subject;
  runner : Q;
  clock : Z;
  trace : list Event;
  allSubjects : list nat;
  insertSubjects : list nat;
  updateSubjects : list nat;
  removeSubjects : list nat;
  relationUpdateSubjects : list nat;
  isTransactionStartedByItself : bool }.

Definition set_entities (h : Heap) (w : World) : World :=
  {| entities := h; subjects := subjects w; runner := runner w; clock := clock w;
     trace := trace w; allSubjects := allSubjects w; insertSubjects := insertSubjects w;
     updateSubjects := updateSubjects w; removeSubjects := removeSubjects w;
     relationUpdateSubjects := relationUpdateSubjects w;
     isTransactionStartedByItself := isTransactionStartedByItself w |}.

Definition set_subjects (l : list Subject) (w : World) : World :=
  {| entities := entities w; subjects := l; runner := runner w; clock := clock w;
     trace := trace w; allSubjects := allSubjects w; insertSubjects := insertSubjects w;
     updateSubjects := updateSubjects w; removeSubjects := removeSubjects w;
     relationUpdateSubjects := relationUpdateSubjects w;
     isTransactionStartedByItself := isTransactionStartedByItself w |}.

Definition set_runner (q : Q) (w : World) : World :=
  {| entities := entities w; subjects := subjects w; runner := q; clock := clock w;
     trace := trace w; allSubjects := allSubjects w; insertSubjects := insertSubjects w;
     updateSubjects := updateSubjects w; removeSubjects := removeSubjects w;
     relationUpdateSubjects := relationUpdateSubjects w;
     isTransactionStartedByItself := isTransactionStartedByItself w |}.

Definition add_event (e : Event) (w : World) : World :=
  {| entities := entities w; subjects := subjects w; runner := runner w; clock := clock w;
     trace := trace w ++ [e]; allSubjects := allSubjects w; insertSubjects := insertSubjects w;
     updateSubjects := updateSubjects w; removeSubjects := removeSubjects w;
     relationUpdateSubjects := relationUpdateSubjects w;
     isTransactionStartedByItself := isTransactionStartedByItself w |}.

Definition set_fields (all ins upd rem rel : list nat) (w : World) : World :=
  {| entities := entities w; subjects := subjects w; runner := runner w; clock := clock w;
     trace := trace w; allSubjects := all; insertSubjects := ins;
     updateSubjects := upd; removeSubjects := rem;
     relationUpdateSubjects := rel;
     isTransactionStartedByItself := isTransactionStartedByItself w |}.

Definition set_started (b : bool) (w : World) : World :=
  {| entities := entities w; subjects := subjects w; runner := runner w; clock := clock w;
     trace := trace w; allSubjects := allSubjects w; insertSubjects := insertSubjects w;
     updateSubjects := updateSubjects w; removeSubjects := removeSubjects w;
     relationUpdateSubjects := relationUpdateSubjects w;
     isTransactionStartedByItself := b |}.

(** A computation either returns or throws, and leaves a world in both cases. *)
Definition M (A : Type) : Type := World → Res A * World.

#[global] Instance M_ret : MRet M := λ A a w, (Ok a, w).

#[global] Instance M_bind : MBind M := λ A B f m w,
  match m w with
  | (Ok a, w') => f a w'
  | (Err e, w') => (Err e, w')
  end.

Definition throw {A} (e : Error) : M A := λ w, (Err e, w).

Definition try_catch {A} (body : M A) (handler : Error → M A) : M A := λ w,
  match body w with
  | (Ok a, w') => (Ok a, w')
  | (Err e, w') => handler e w'
  end.

Definition lift {A} (r : Res A) : M A := λ w, (r, w).

(** A member that the metadata may lack: reading through [undefined] throws. *)
Definition some {A} (o : option A) : M A :=
  match o with Some a => mret a | None => throw TypeError end.

Definition world : M World := λ w, (Ok w, w).
Definition modify (f : World → World) : M unit := λ w, (Ok tt, f w).
Definition heap : M Heap := λ w, (Ok (entities w), w).

(** [v[p]] and [l[p] = v] *)
Definition get (v : Value) (p : string) : M Value := λ w, (property (entities w) v p, w).

Definition set (o : option loc) (p : string) (v : Value) : M unit :=
  match o with
  | Some l => modify (λ w, set_entities (assign (entities w) l p v) w)
  | None => throw TypeError
  end.

(** [new Date()] *)
Definition newDate : M Value := λ w, (Ok (VDate (clock w)), w).

(** A Subject object of the store, and an assignment to one of its fields. *)
Definition deref (i : nat) : M Subject := λ w,
  (match subjects w !! i with Some s => Ok s | None => Err TypeError end, w).

Definition modify_subject (i : nat) (f : Subject → Subject) : M unit :=
  modify (λ w, set_subjects (alter f i (subjects w)) w).

(** *** Promises

    Calling an async function starts it: the model runs it on the spot and
    keeps its outcome as the promise.  Tasks handed to [Promise.all] are
    therefore served in array order, each to completion, and a rejection does
    not stop the siblings that [Array.map] has already started.  This is one
    schedule among those of the runtime, which takes each task up to its
    first await and may answer the statements of pending tasks in any order,
    also once [Promise.all] has rejected: the order between the calls of two
    tasks of one [Promise.all] is the model's, not the program's. *)
Definition Promise (A : Type) : Type := Res A.

Definition async {A} (task : M A) : M (Promise A) := λ w,
  let '(r, w') := task w in (Ok r, w').

Fixpoint settle {A} (ps : list (Promise A)) : Res (list A) :=
  match ps with
  | [] => Ok []
  | Ok a :: ps' => match settle ps' with Ok l => Ok (a :: l) | Err e => Err e end
  | Err e :: _ => Err e
  end.

Definition Promise_all {A} (ps : list (Promise A)) : M (list A) := lift (settle ps).

(** *** Array iteration *)

Fixpoint forEach {A} (f : A → M unit) (l : list A) : M unit :=
  match l with
  | [] => mret tt
  | a :: l' => f a;; forEach f l'
  end.

Fixpoint mapM {A B} (f : A → M B) (l : list A) : M (list B) :=
  match l with
  | [] => mret []
  | a :: l' => b ← f a; bs ← mapM f l'; mret (b :: bs)
  end.

Fixpoint foldM {A S} (f : S → A → M S) (l : list A) (s : S) : M S :=
  match l with
  | [] => mret s
  | a :: l' => s' ← f s a; foldM f l' s'
  end.

Fixpoint findM {A} (p : A → M bool) (l : list A) : M (option A) :=
  match l with
  | [] => mret None
  | a :: l' => p a ≫= λ b : bool, if b then mret (Some a) else findM p l'
  end.

(** *** Calls to the collaborators *)

Definition call {A} (e : Event) (f : Q → Res A * Q) : M A := λ w,
  let '(r, q) := f (runner w) in (r, set_runner q (add_event e w)).

Definition queryRunner_insert (tableName : string) (keyValues : ObjectLiteral)
    (generatedColumn : option ColumnMetadata) : M Value :=
  call (EInsert tableName keyValues generatedColumn)
       (runner_insert tableName keyValues generatedColumn).

Definition queryRunner_update (tableName : string) (valuesMap conditions : ObjectLiteral) : M unit :=
  call (EUpdate tableName valuesMap conditions) (runner_update tableName valuesMap conditions).

Definition queryRunner_delete (tableName : string) (conditions : option ObjectLiteral) : M unit :=
  call (EDelete tableName conditions) (runner_delete tableName conditions).

Definition queryRunner_insertIntoClosureTable (tableName : string) (newEntityId parentId : Value)
    (hasLevel : bool) : M Value :=
  call (EInsertIntoClosureTable tableName newEntityId parentId hasLevel)
       (insertIntoClosureTable tableName newEntityId parentId hasLevel).

Definition queryRunner_isTransactionActive : M bool := λ w,
  let b := isTransactionActive (runner w) in (Ok b, add_event (EIsTransactionActive b) w).

Definition queryRunner_beginTransaction : M unit := call EBeginTransaction beginTransaction.
Definition queryRunner_commitTransaction : M unit := call ECommitTransaction commitTransaction.
Definition queryRunner_rollbackTransaction : M unit := call ERollbackTransaction rollbackTransaction.

Definition queryRunnerProvider_provide : M unit := λ w, (provide, add_event EProvide w).

Definition driver_preparePersistentValue (value : Value) (column : ColumnMetadata) : M Value := λ w,
  (Ok (preparePersistentValue value column), add_event (EPreparePersistentValue value column) w).

Definition subjectsOf (refs : list nat) (w : World) : list Subject :=
  omap (λ i, subjects w !! i) refs.

Definition broadcaster_broadcastBeforeEventsForAll : M unit := λ w,
  let ins := subjectsOf (insertSubjects w) w in
  let upd := subjectsOf (updateSubjects w) w in
  let rem := subjectsOf (removeSubjects w) w in
  let '(r, h) := broadcastBeforeEventsForAll ins upd rem (entities w) in
  (r, set_entities h (add_event (EBroadcastBefore ins upd rem) w)).

Definition broadcaster_broadcastAfterEventsForAll : M unit := λ w,
  let ins := subjectsOf (insertSubjects w) w in
  let upd := subjectsOf (updateSubjects w) w in
  let rem := subjectsOf (removeSubjects w) w in
  let '(r, h) := broadcastAfterEventsForAll ins upd rem (entities w) in
  (r, set_entities h (add_event (EBroadcastAfter ins upd rem) w)).

(** ** Removal (lines 823-846) *)

(** [columns.forEach(column => conditions[column.fullName] = object[column.propertyName])] *)
Definition conditionsFrom (object : Value) (columns : list ColumnMetadata) : M ObjectLiteral :=
  foldM (λ conditions column,
           v ← get object (column_propertyName column);
           mret (obj_set (column_fullName column) v conditions))
        columns [].

Definition remove (i : nat) : M unit :=
  subject ← deref i;
  match parentEntityMetadata (metadata subject) with
  | Some parent =>
      parentConditions ←
        conditionsFrom (object_value (databaseEntity subject))
                       (parentPrimaryColumns (metadata subject));
      queryRunner_delete (table_name (table parent)) (Some parentConditions);;
      childConditions ←
        conditionsFrom (object_value (databaseEntity subject))
                       (primaryColumnsWithParentIdColumns (metadata subject));
      queryRunner_delete (table_name (table (metadata subject))) (Some childConditions)
  | None =>
      h ← heap;
      idMap ← lift (getEntityIdColumnMap (metadata subject) h
                      (object_value (databaseEntity subject)));
      queryRunner_delete (table_name (table (metadata subject))) idMap
  end.

(** Modelled from the spec: PromiseUtils.runInSequence is not among the
    sources.  Removes run one at a time in subject order, the next one
    starting once the previous one has completed. *)
Definition runInSequence {A} (l : list A) (f : A → M unit) : M unit := forEach f l.

Definition executeRemoveOperations : M unit :=
  w ← world;
  runInSequence (removeSubjects w) remove.

(** ** Update (lines 688-786) *)

Record ValueMap := {
  valueMap_tableName : string;
  valueMap_metadata : EntityMetadata;
  valueMap_values : ObjectLiteral }.

(** The value map of [tableName] is looked up, pushed with empty values when
    there is none, and [values[key] = value] is stored in it. *)
Fixpoint setValue (tableName : string) (metadata : EntityMetadata) (key : string)
    (value : Value) (valueMaps : list ValueMap) : list ValueMap :=
  match valueMaps with
  | [] => [ {| valueMap_tableName := tableName; valueMap_metadata := metadata;
               valueMap_values := obj_set key value [] |} ]
  | valueMap :: rest =>
      if String.eqb (valueMap_tableName valueMap) tableName
      then {| valueMap_tableName := valueMap_tableName valueMap;
              valueMap_metadata := valueMap_metadata valueMap;
              valueMap_values := obj_set key value (valueMap_values valueMap) |} :: rest
      else valueMap :: setValue tableName metadata key value rest
  end.

(** The two special columns of one metadata (lines 729-747, and 750-776 for
    the parent metadata). *)
Definition updateSpecialColumns (m : EntityMetadata) (entity : Value)
    (valueMaps : list ValueMap) : M (list ValueMap) :=
  valueMaps ←
    match updateDateColumn m with
    | Some column =>
        now ← newDate;
        value ← driver_preparePersistentValue now column;
        mret (setValue (table_name (table m)) m (column_fullName column) value valueMaps)
    | None => mret valueMaps
    end;
  match versionColumn m with
  | Some column =>
      version ← get entity (column_propertyName column);
      value ← driver_preparePersistentValue (plus_one version) column;
      mret (setValue (table_name (table m)) m (column_fullName column) value valueMaps)
  | None => mret valueMaps
  end.

Definition update (i : nat) : M unit :=
  subject ← deref i;
  let entity := object_value (entity subject) in
  valueMaps ←
    foldM (λ valueMaps column,
             match column_entityTarget column with
             | None => mret valueMaps
             | Some entityTarget =>
                 metadata ← lift (getMetadata entityTarget);
                 h ← heap;
                 raw ← lift (column_getEntityValue column h entity);
                 value ← driver_preparePersistentValue raw column;
                 mret (setValue (table_name (table metadata)) metadata
                                (column_fullName column) value valueMaps)
             end)
          (diffColumns subject) [];
  valueMaps ←
    foldM (λ valueMaps relation,
             metadata ← lift (getMetadata (relation_entityTarget relation));
             h ← heap;
             value ← lift (relation_getEntityValue relation h entity);
             id ← match value with
                  | VNull | VUndefined => mret VNull
                  | _ =>
                      column ← some (firstPrimaryColumn (inverseEntityMetadata relation));
                      get value (column_propertyName column)
                  end;
             mret (setValue (table_name (table metadata)) metadata
                            (relation_name relation) id valueMaps))
          (diffRelations subject) valueMaps;
  match valueMaps with
  | [] => mret tt
  | _ =>
      valueMaps ← updateSpecialColumns (metadata subject) entity valueMaps;
      valueMaps ←
        match parentEntityMetadata (metadata subject) with
        | Some parent => updateSpecialColumns parent entity valueMaps
        | None => mret valueMaps
        end;
      promises ←
        mapM (λ valueMap,
                h ← heap;
                idMap ← lift (getDatabaseEntityIdMap (valueMap_metadata valueMap) h entity);
                match idMap with
                | None => throw (Thrown "Internal error. Cannot get id of the updating entity.")
                | Some idMap =>
                    async (queryRunner_update (valueMap_tableName valueMap)
                                              (valueMap_values valueMap) idMap)
                end)
             valueMaps;
      Promise_all promises;;
      mret tt
  end.

Definition executeUpdateOperations : M unit :=
  w ← world;
  promises ← mapM (λ i, async (update i)) (updateSubjects w);
  Promise_all promises;;
  mret tt.

(** ** Relation-only update (lines 795-814) *)

Definition updateRelations (i : nat) : M unit :=
  subject ← deref i;
  values ←
    foldM (λ values setRelation,
             value ←
               (if truthy (relationUpdate_value setRelation)
                then
                  joinColumn ← some (joinColumn (relationUpdate_relation setRelation));
                  get (relationUpdate_value setRelation)
                      (column_propertyName (joinColumn_referencedColumn joinColumn))
                else mret VNull);
             mret (obj_set (relation_name (relationUpdate_relation setRelation)) value values))
          (relationUpdates subject) [];
  h ← heap;
  idMap ← lift (getDatabaseEntityIdMap (metadata subject) h
                  (object_value (databaseEntity subject)));
  match idMap with
  | None => throw (Thrown "Internal error. Cannot get id of the updating entity.")
  | Some idMap => queryRunner_update (table_name (table (metadata subject))) values idMap
  end.

Definition executeUpdateRelations : M unit :=
  w ← world;
  promises ← mapM (λ i, async (updateRelations i)) (relationUpdateSubjects w);
  Promise_all promises;;
  mret tt.

(** ** Junction tables (lines 855-967) *)

(** [(newBindEntity.constructor as any).name] *)
Definition constructor_name (v : Value) : M string :=
  match v with
  | VUndefined | VNull => throw TypeError
  | _ => h ← heap; mret (constructorName h v)
  end.

Definition notPersisted (type : string) : Error :=
  Thrown ("Cannot insert object of " +:+ type +:+
          " type. Looks like its not persisted yet, or cascades are not set on the relation.").

(** The join table of the relation and its two referenced columns
    (lines 873-875). *)
Definition junctionColumns (relation : RelationMetadata) : Res (ColumnMetadata * ColumnMetadata) :=
  joinTable' ←
    (if isOwning relation then required (joinTable relation)
     else inverse ← required (inverseRelation relation); required (joinTable inverse));
  mret (if isOwning relation
        then (joinTable_referencedColumn joinTable', joinTable_inverseReferencedColumn joinTable')
        else (joinTable_inverseReferencedColumn joinTable', joinTable_referencedColumn joinTable')).

(** The id on the subject's own side (lines 877-887). *)
Definition junctionOwnId (h : Heap) (subject : Subject) (relation : RelationMetadata)
    (firstColumn : ColumnMetadata) : Res Value :=
  ownId ← getOwnEntityRelationId relation h (entityOf subject);
  mret (if truthy ownId then ownId
        else if column_isGenerated firstColumn then newlyGeneratedId subject
        else if column_isObjectId firstColumn then generatedObjectId subject
        else ownId).

(** The id of one newly bound entity (lines 895-917). *)
Definition junctionRelationId (h : Heap) (store : list Subject) (insertSubjects' : list nat)
    (relation : RelationMetadata) (secondColumn : ColumnMetadata)
    (newBindEntity : Value) : Res Value :=
  relationId ←
    (if isManyToManyOwner relation then
       ownTable ← required (joinTable relation);
       property h newBindEntity
                (column_propertyName (joinTable_inverseReferencedColumn ownTable))
     else if isManyToManyNotOwner relation then
       inverse ← required (inverseRelation relation);
       inverseTable ← required (joinTable inverse);
       property h newBindEntity
                (column_propertyName (joinTable_referencedColumn inverseTable))
     else mret VUndefined);
  if truthy relationId then mret relationId
  else
    match findByEntity store newBindEntity insertSubjects' ≫= (λ j, store !! j) with
    | Some inserted =>
        mret (if column_isGenerated secondColumn then newlyGeneratedId inserted
              else if column_isObjectId secondColumn then generatedObjectId inserted
              else relationId)
    | None => mret relationId
    end.

(** The row of one link (lines 923-924). *)
Definition junctionRow (relation : RelationMetadata) (junction : EntityMetadata)
    (ownId relationId : Value) : ObjectLiteral :=
  zipObject (column_fullName <$> columnsWithoutEmbeddeds junction)
            (if isOwning relation then [ownId; relationId] else [relationId; ownId]).

(** One newly bound entity (the callback of lines 892-927). *)
Definition insertJunction (relation : RelationMetadata) (secondColumn : ColumnMetadata)
    (ownId newBindEntity : Value) : M (Promise Value) :=
  w ← world;
  relationId ← lift (junctionRelationId (entities w) (subjects w) (insertSubjects w)
                       relation secondColumn newBindEntity);
  if negb (truthy relationId)
  then type ← constructor_name newBindEntity; throw (notPersisted type)
  else
    junction ← some (junctionEntityMetadata relation);
    async (queryRunner_insert (table_name (table junction))
                              (junctionRow relation junction ownId relationId) None).

Definition insertJunctions (i : nat) (junctionInsert : JunctionInsert) : M unit :=
  let relation := junctionInsert_relation junctionInsert in
  '(firstColumn, secondColumn) ← lift (junctionColumns relation);
  subject ← deref i;
  h ← heap;
  ownId ← lift (junctionOwnId h subject relation firstColumn);
  if negb (truthy ownId) then throw (notPersisted (entityTarget subject))
  else
    promises ← mapM (insertJunction relation secondColumn ownId)
                    (junctionEntities junctionInsert);
    Promise_all promises;;
    mret tt.

(** The pending links of all subjects, in the order the two nested
    [forEach] visit them. *)
Definition pendingJunctions {A} (pending : Subject → list A) (w : World) : list (nat * A) :=
  i ← allSubjects w;
  match subjects w !! i with
  | Some s => (λ j, (i, j)) <$> pending s
  | None => []
  end.

Definition executeInsertJunctionsOperations : M unit :=
  w ← world;
  promises ← mapM (λ p, async (insertJunctions p.1 p.2)) (pendingJunctions junctionInserts w);
  Promise_all promises;;
  mret tt.

Definition removeJunctions (i : nat) (junctionRemove : JunctionRemove) : M unit :=
  let relation := junctionRemove_relation junctionRemove in
  subject ← deref i;
  let entity := if hasEntity subject then object_value (entity subject)
                else object_value (databaseEntity subject) in
  h ← heap;
  ownId ← lift (getOwnEntityRelationId relation h entity);
  junctionMetadata ← some (junctionEntityMetadata relation);
  let ownColumn := if isOwning relation then columns junctionMetadata !! 0%nat
                   else columns junctionMetadata !! 1%nat in
  let relateColumn := if isOwning relation then columns junctionMetadata !! 1%nat
                      else columns junctionMetadata !! 0%nat in
  removePromises ←
    mapM (λ relationId,
            ownColumn ← some ownColumn;
            relateColumn ← some relateColumn;
            async (queryRunner_delete (table_name (table junctionMetadata))
                     (Some (obj_set (column_fullName relateColumn) relationId
                              (obj_set (column_fullName ownColumn) ownId [])))))
         (junctionRelationIds junctionRemove);
  Promise_all removePromises;;
  mret tt.

Definition executeRemoveJunctionsOperations : M unit :=
  w ← world;
  promises ← mapM (λ p, async (removeJunctions p.1 p.2)) (pendingJunctions junctionRemoves w);
  Promise_all promises;;
  mret tt.

(** ** Closure tables (lines 617-679) *)

(** The id of the new entity (lines 637-641). *)
Definition closureNewEntityId (h : Heap) (subject : Subject)
    (referencedColumn : ColumnMetadata) : Res Value :=
  newEntityId ← property h (entityOf subject) (column_propertyName referencedColumn);
  mret (if negb (truthy newEntityId) && column_isGenerated referencedColumn
        then newlyGeneratedId subject else newEntityId).

(** Whether [allSubject] holds the entity of [subject] among its children
    (the callback of lines 656-662). *)
Definition holdsAsChild (h : Heap) (subject allSubject : Subject) : Res bool :=
  if negb (hasEntity allSubject)
     || negb (isClosure (table (metadata allSubject)))
     || negb (hasTreeChildrenRelation (metadata allSubject))
  then mret false
  else
    treeChildren ← required (treeChildrenRelation (metadata subject));
    children ← property h (entityOf allSubject) (relation_propertyName treeChildren);
    mret (match children with
          | VArr items => existsb (λ child, strict_equal child (entityOf subject)) items
          | _ => false
          end).

(** The id of the parent (lines 643-670). *)
Definition closureParentId (h : Heap) (store : list Subject)
    (insertSubjects' allSubjects' : list nat) (subject : Subject)
    (treeParent : RelationMetadata) (referencedColumn : ColumnMetadata) : Res Value :=
  parentEntity ← property h (entityOf subject) (relation_propertyName treeParent);
  parentEntityId ←
    (if truthy parentEntity then
       parentEntityId ← property h parentEntity (column_propertyName referencedColumn);
       if negb (truthy parentEntityId) && column_isGenerated referencedColumn then
         parentInsertedSubject ←
           required (findByEntity store parentEntity insertSubjects' ≫= (λ j, store !! j));
         mret (newlyGeneratedId parentInsertedSubject)
       else mret parentEntityId
     else mret (VNum 0));
  if negb (truthy parentEntityId) then
    parentSubject ←
      findR (λ j, allSubject ← required (store !! j); holdsAsChild h subject allSubject)
            allSubjects';
    match parentSubject ≫= (λ j, store !! j) with
    | Some parent =>
        parentEntityId ← property h (entityOf parent) (column_propertyName referencedColumn);
        mret (if negb (truthy parentEntityId) && truthy (newlyGeneratedId parent)
              then newlyGeneratedId parent else parentEntityId)
    | None => mret parentEntityId
    end
  else mret parentEntityId.

Definition insertClosureTableValues (i : nat) : M unit :=
  subject ← deref i;
  closure ← some (closureJunctionTable (metadata subject));
  let tableName := table_name (table closure) in
  treeParent ← some (treeParentRelation (metadata subject));
  parentJoin ← some (joinColumn treeParent);
  let referencedColumn := joinColumn_referencedColumn parentJoin in
  w ← world;
  newEntityId ← lift (closureNewEntityId (entities w) subject referencedColumn);
  parentEntityId ← lift (closureParentId (entities w) (subjects w) (insertSubjects w)
                           (allSubjects w) subject treeParent referencedColumn);
  level ← queryRunner_insertIntoClosureTable tableName newEntityId parentEntityId
             (hasTreeLevelColumn (metadata subject));
  modify_subject i (set_treeLevel level);;
  match treeLevelColumn (metadata subject) with
  | Some levelColumn =>
      subject ← deref i;
      queryRunner_update (table_name (table (metadata subject)))
                         [(column_fullName levelColumn, treeLevel subject)]
                         [(column_fullName referencedColumn, newEntityId)]
  | None => mret tt
  end.

Definition executeInsertClosureTableOperations : M unit :=
  w ← world;
  closureSubjects ←
    foldM (λ acc i, s ← deref i;
                    mret (if isClosure (table (metadata s)) then acc ++ [i] else acc))
          (insertSubjects w) [];
  promises ← mapM (λ i, async (insertClosureTableValues i)) closureSubjects;
  Promise_all promises;;
  mret tt.

(** ** Insertion (lines 174-608) *)

Record Columns := {
  columnNames : list string;
  columnValues : list Value }.

Definition push (name : string) (value : Value) (c : Columns) : Columns :=
  {| columnNames := columnNames c ++ [name]; columnValues := columnValues c ++ [value] |}.

Fixpoint filterM {A} (p : A → M bool) (l : list A) : M (list A) :=
  match l with
  | [] => mret []
  | a :: l' =>
      p a ≫= λ keep : bool,
      rest ← filterM p l';
      mret (if keep then a :: rest else rest)
  end.

(** The columns of one embedded object, then those of the embeddeds nested in
    it (lines 465-493).  The [columnsAndValues] object kept beside the two
    arrays is never read and is left out. *)
Fixpoint collectFromEmbedded (entity : Value) (embedded : EmbeddedMetadata)
    (c : Columns) : M Columns :=
  value ← get entity (embedded_propertyName embedded);
  if negb (truthy value) then mret c
  else
    c ← (if embedded_isArray embedded then
           match value with
           | VArr items =>
               foldM (λ c subValue,
                        foldM (λ c column,
                                 raw ← get subValue (column_propertyName column);
                                 v ← driver_preparePersistentValue raw column;
                                 mret (push (column_fullName column) v c))
                              (embedded_columns embedded) c)
                     items c
           | _ => throw TypeError
           end
         else
           foldM (λ c column,
                    raw ← get value (column_propertyName column);
                    v ← driver_preparePersistentValue raw column;
                    mret (push (column_fullName column) v c))
                 (embedded_columns embedded) c);
    (fix collectFromEmbeddeds (embeddeds : list EmbeddedMetadata) (c : Columns) : M Columns :=
       match embeddeds with
       | [] => mret c
       | e :: rest => c ← collectFromEmbedded value e c; collectFromEmbeddeds rest c
       end) (embedded_embeddeds embedded) c.

Definition collectFromEmbeddeds (entity : Value) (embeddeds : list EmbeddedMetadata)
    (c : Columns) : M Columns :=
  foldM (λ c embedded, collectFromEmbedded entity embedded c) embeddeds c.

(** The value of one relation column (lines 498-551). *)
Definition relationValueOf (relation : RelationMetadata) (entity : Value)
    (alreadyInsertedSubjects : list nat) : M Value :=
  h ← heap;
  value ← lift (relation_getEntityValue relation h entity);
  if truthy value then
    relationId ← lift (getInverseEntityRelationId relation h value);
    let relationValue := if truthy relationId then relationId else VUndefined in
    w ← world;
    let alreadyInsertedSubject := findByEntity (subjects w) value alreadyInsertedSubjects in
    match alreadyInsertedSubject with
    | Some j =>
        inserted ← deref j;
        joinColumn' ← some (joinColumn relation);
        let referencedColumn := joinColumn_referencedColumn joinColumn' in
        let relationValue :=
          match column_referencedColumn referencedColumn with
          | Some referenced =>
              if column_isGenerated referenced && column_isParentId referencedColumn
              then parentGeneratedId inserted else relationValue
          | None => relationValue
          end in
        let relationValue :=
          if column_isGenerated referencedColumn then newlyGeneratedId inserted
          else relationValue in
        let relationValue :=
          if column_isObjectId referencedColumn then generatedObjectId inserted
          else relationValue in
        relationValue ←
          (if column_isCreateDate referencedColumn || column_isUpdateDate referencedColumn
           then driver_preparePersistentValue (date inserted) referencedColumn
           else mret relationValue);
        if column_isVersion referencedColumn
        then driver_preparePersistentValue (VNum 1) referencedColumn
        else mret relationValue
    | None => mret relationValue
    end
  else
    match inverseRelation relation with
    | Some inverse =>
        w ← world;
        inverseSubject ←
          findM (λ j,
                   subject ← deref j;
                   if negb (hasEntity subject)
                      || negb (String.eqb (entityTarget subject) (relation_target inverse))
                   then mret false
                   else
                     inverseRelationValue ← get (entityOf subject) (relation_propertyName inverse);
                     mret (if truthy inverseRelationValue then
                             match inverseRelationValue with
                             | VArr items =>
                                 match find (λ subValue, self_equal subValue) items with
                                 | Some found => truthy found
                                 | None => false
                                 end
                             | _ => strict_equal inverseRelationValue entity
                             end
                           else false))
                (allSubjects w);
        match inverseSubject with
        | Some j =>
            subject ← deref j;
            joinColumn' ← some (joinColumn relation);
            referenced ← get (entityOf subject)
                             (column_propertyName (joinColumn_referencedColumn joinColumn'));
            mret (if truthy referenced then referenced else VUndefined)
        | None => mret VUndefined
        end
    | None => mret VUndefined
    end.

Definition collectColumnsAndValues (metadata : EntityMetadata) (entity date : Value)
    (parentIdColumnValue discriminatorValue' : Value)
    (alreadyInsertedSubjects : list nat) : M ObjectLiteral :=
  let c := {| columnNames := []; columnValues := [] |} in
  selected ←
    filterM (λ column,
               if negb (column_isVirtual column) && negb (column_isParentId column)
                  && negb (column_isDiscriminator column)
               then h ← heap; lift (column_hasEntityValue column h entity)
               else mret false)
            (columnsWithoutEmbeddeds metadata);
  c ← foldM (λ c column,
               raw ← get entity (column_propertyName column);
               value ← driver_preparePersistentValue raw column;
               mret (push (column_fullName column) value c))
            selected c;
  c ← collectFromEmbeddeds entity (embeddeds metadata) c;
  c ← foldM (λ c relation,
               relationValue ← relationValueOf relation entity alreadyInsertedSubjects;
               mret (if truthy relationValue
                     then push (relation_name relation) relationValue c else c))
            (relationsWithJoinColumns metadata) c;
  c ← match createDateColumn metadata with
      | Some column =>
          value ← driver_preparePersistentValue date column;
          mret (push (column_fullName column) value c)
      | None => mret c
      end;
  c ← match updateDateColumn metadata with
      | Some column =>
          value ← driver_preparePersistentValue date column;
          mret (push (column_fullName column) value c)
      | None => mret c
      end;
  c ← match versionColumn metadata with
      | Some column =>
          value ← driver_preparePersistentValue (VNum 1) column;
          mret (push (column_fullName column) value c)
      | None => mret c
      end;
  c ← match discriminatorColumn metadata with
      | Some column =>
          value ← driver_preparePersistentValue
                    (js_or discriminatorValue' (discriminatorValue metadata)) column;
          mret (push (column_fullName column) value c)
      | None => mret c
      end;
  c ← match treeLevelColumn metadata, treeParentRelation metadata with
      | Some levelColumn, Some treeParent =>
          parentEntity ← get entity (relation_propertyName treeParent);
          parentLevel ←
            (if truthy parentEntity then
               level ← get parentEntity (column_propertyName levelColumn);
               mret (js_or level (VNum 0))
             else mret (VNum 0));
          mret (push (column_fullName levelColumn) (plus_one parentLevel) c)
      | _, _ => mret c
      end;
  c ← match parentEntityMetadata metadata, parentIdColumn metadata with
      | Some parent, Some idColumn =>
          value ←
            (if truthy parentIdColumnValue then mret parentIdColumnValue
             else
               primary ← some (firstPrimaryColumn parent);
               get entity (column_propertyName primary));
          mret (push (column_fullName idColumn) value c)
      | _, _ => mret c
      end;
  mret (zipObject (columnNames c) (columnValues c)).

Definition insert (i : nat) (alreadyInsertedSubjects : list nat) : M unit :=
  subject ← deref i;
  let m := metadata subject in
  let entity' := entityOf subject in
  ids ←
    (if isClassTableChild (table m) then
       parent ← some (parentEntityMetadata m);
       parentValuesMap ←
         collectColumnsAndValues parent entity' (date subject) VUndefined
                                 (discriminatorValue m) alreadyInsertedSubjects;
       parentGeneratedId ←
         queryRunner_insert (table_name (table parent)) parentValuesMap
                            (generatedColumnIfExist parent);
       childValuesMap ←
         collectColumnsAndValues m entity' (date subject) parentGeneratedId
                                 VUndefined alreadyInsertedSubjects;
       secondGeneratedId ←
         queryRunner_insert (table_name (table m)) childValuesMap (generatedColumnIfExist m);
       mret (if negb (truthy parentGeneratedId) && truthy secondGeneratedId
             then secondGeneratedId else parentGeneratedId,
             parentGeneratedId)
     else
       valuesMap ←
         collectColumnsAndValues m entity' (date subject) VUndefined VUndefined
                                 alreadyInsertedSubjects;
       newlyGeneratedId ←
         queryRunner_insert (table_name (table m)) valuesMap (generatedColumnIfExist m);
       mret (newlyGeneratedId, VUndefined));
  let '(newlyGeneratedId', parentGeneratedId') := ids in
  (if truthy parentGeneratedId'
   then modify_subject i (set_parentGeneratedId parentGeneratedId') else mret tt);;
  if truthy newlyGeneratedId' then
    if hasGeneratedColumn m then modify_subject i (set_newlyGeneratedId newlyGeneratedId')
    else if hasObjectIdColumn m then modify_subject i (set_generatedObjectId newlyGeneratedId')
    else mret tt
  else mret tt.

(** The special value of a referenced column taken from a just inserted
    subject when the entity holds none (lines 225-236 and their copies). *)
Definition specialValue (j : nat) (referencedColumn : ColumnMetadata) (relationId : Value) : M Value :=
  if truthy relationId then mret relationId
  else
    inserted ← deref j;
    mret (if column_isGenerated referencedColumn then newlyGeneratedId inserted
          else if column_isObjectId referencedColumn then generatedObjectId inserted
          else relationId).

(** One relation with a join column of a first-group subject (lines 206-266). *)
Definition updateOptionOf (subject : Subject) (updateOptions : ObjectLiteral)
    (relation : RelationMetadata) : M ObjectLiteral :=
  joinColumn' ← some (joinColumn relation);
  let referencedColumn := joinColumn_referencedColumn joinColumn' in
  h ← heap;
  relatedEntity ← lift (relation_getEntityValue relation h (entityOf subject));
  if negb (truthy relatedEntity) then mret updateOptions
  else
    w ← world;
    relationId ←
      match find (λ rel, String.eqb (relation_propertyName rel)
                                    (column_propertyName referencedColumn))
                 (relations (inverseEntityMetadata relation)) with
      | Some columnRelation =>
          referenced ← get relatedEntity (column_propertyName referencedColumn);
          let insertSubject := findByEntity (subjects w) referenced (insertSubjects w) in
          match insertSubject with
          | Some j =>
              relationId ← get referenced (relation_propertyName columnRelation);
              specialValue j referencedColumn relationId
          | None => mret VUndefined
          end
      | None =>
          let insertSubject := findByEntity (subjects w) relatedEntity (insertSubjects w) in
          match insertSubject with
          | Some j =>
              relationId ← get relatedEntity (column_propertyName referencedColumn);
              specialValue j referencedColumn relationId
          | None => mret VUndefined
          end
      end;
    mret (if truthy relationId then obj_set (relation_name relation) relationId updateOptions
          else updateOptions).

(** The branch shared by both condition builders (lines 282-297, 335-349). *)
Definition conditionThroughJoinColumn (entityValue : Value) (joinColumn' : JoinColumnMetadata)
    (column : ColumnMetadata) (conditions : ObjectLiteral) : M ObjectLiteral :=
  let referencedColumn := joinColumn_referencedColumn joinColumn' in
  relationIdOfEntityValue ← get entityValue (column_propertyName referencedColumn);
  relationIdOfEntityValue ←
    (if truthy relationIdOfEntityValue then mret relationIdOfEntityValue
     else
       w ← world;
       let entityValueInsertSubject := findByEntity (subjects w) entityValue (insertSubjects w) in
       match entityValueInsertSubject with
       | Some j =>
           inserted ← deref j;
           mret (if column_isGenerated referencedColumn then newlyGeneratedId inserted
                 else if column_isObjectId referencedColumn then generatedObjectId inserted
                 else relationIdOfEntityValue)
       | None => mret relationIdOfEntityValue
       end);
  mret (if truthy relationIdOfEntityValue
        then obj_set (column_fullName column) relationIdOfEntityValue conditions
        else conditions).

(** The identity of a first-group subject's own row (lines 272-311). *)
Definition ownConditions (i : nat) : M ObjectLiteral :=
  subject ← deref i;
  let columns :=
    if present (parentEntityMetadata (metadata subject))
    then primaryColumnsWithParentIdColumns (metadata subject)
    else primaryColumns (metadata subject) in
  foldM (λ conditions column,
           entityValue ← get (entityOf subject) (column_propertyName column);
           let columnRelation :=
             find (λ relation, String.eqb (relation_propertyName relation)
                                          (column_propertyName column))
                  (relations (metadata subject)) in
           match (if truthy entityValue then columnRelation else None) ≫= joinColumn with
           | Some joinColumn' =>
               conditionThroughJoinColumn entityValue joinColumn' column conditions
           | None =>
               if truthy entityValue
               then mret (obj_set (column_fullName column) entityValue conditions)
               else
                 current ← deref i;
                 mret (if truthy (newlyGeneratedId current)
                       then obj_set (column_fullName column) (newlyGeneratedId current) conditions
                       else if truthy (generatedObjectId current)
                       then obj_set (column_fullName column) (generatedObjectId current) conditions
                       else conditions)
           end)
        columns [].

(** The identity of the row on the inverse side (lines 325-365). *)
Definition inverseConditions (subRelatedEntity : Value)
    (inverseEntityMetadata' : EntityMetadata) : M ObjectLiteral :=
  let columns :=
    if present (parentEntityMetadata inverseEntityMetadata')
    then primaryColumnsWithParentIdColumns inverseEntityMetadata'
    else primaryColumns inverseEntityMetadata' in
  foldM (λ conditions column,
           entityValue ← get subRelatedEntity (column_propertyName column);
           let columnRelation :=
             find (λ relation, String.eqb (relation_propertyName relation)
                                          (column_propertyName column))
                  (relations inverseEntityMetadata') in
           match (if truthy entityValue then columnRelation else None) ≫= joinColumn with
           | Some joinColumn' =>
               conditionThroughJoinColumn entityValue joinColumn' column conditions
           | None =>
               w ← world;
               let entityValueInsertSubject := findByEntity (subjects w) subRelatedEntity (insertSubjects w) in
               if truthy entityValue
               then mret (obj_set (column_fullName column) entityValue conditions)
               else
                 match entityValueInsertSubject with
                 | Some j =>
                     inserted ← deref j;
                     mret (if truthy (newlyGeneratedId inserted)
                           then obj_set (column_fullName column) (newlyGeneratedId inserted)
                                        conditions
                           else if truthy (generatedObjectId inserted)
                           then obj_set (column_fullName column) (generatedObjectId inserted)
                                        conditions
                           else conditions)
                 | None => mret conditions
                 end
           end)
        columns [].

(** One entity reached from the inverse side (lines 323-391). *)
Definition updateInverseSide (i : nat) (updatePromises : list (Promise unit))
    (item : RelationMetadata * Value * EntityMetadata) : M (list (Promise unit)) :=
  let '(relation, subRelatedEntity, inverseEntityMetadata') := item in
  inverse ← some (inverseRelation relation);
  inverseJoin ← some (joinColumn inverse);
  let referencedColumn := joinColumn_referencedColumn inverseJoin in
  conditions ← inverseConditions subRelatedEntity inverseEntityMetadata';
  match conditions with
  | [] => mret updatePromises
  | _ =>
      subject ← deref i;
      w ← world;
      id ←
        match find (λ rel, String.eqb (relation_propertyName rel)
                                      (column_propertyName referencedColumn))
                   (relations (inverseEntityMetadata relation)) with
        | Some columnRelation =>
            referenced ← get (entityOf subject) (column_propertyName referencedColumn);
            id ← get referenced (relation_propertyName columnRelation);
            if truthy id then mret id
            else
              insertSubject ←
                findM (λ j,
                         shadowing ← deref j;
                         own ← get (entityOf shadowing) (column_propertyName referencedColumn);
                         mret (strict_equal (entityOf shadowing) own))
                      (insertSubjects w);
              match insertSubject with
              | Some j =>
                  inserted ← deref j;
                  mret (if truthy (newlyGeneratedId inserted) then newlyGeneratedId inserted
                        else if truthy (generatedObjectId inserted) then generatedObjectId inserted
                        else id)
              | None => mret id
              end
        | None =>
            own ← get (entityOf subject) (column_propertyName referencedColumn);
            if truthy own then mret own
            else if truthy (newlyGeneratedId subject) then mret (newlyGeneratedId subject)
            else get subRelatedEntity "generatedObjectId"
        end;
      updatePromise ←
        async (queryRunner_update (table_name (table (inverseEntityMetadata relation)))
                                  [(joinColumn_name inverseJoin, id)] conditions);
      mret (updatePromises ++ [updatePromise])
  end.

(** One first-group subject of the pass that fills in the relation ids left
    NULL by its insert (lines 202-393). *)
Definition updateRelationIds (updatePromises : list (Promise unit)) (i : nat) :
    M (list (Promise unit)) :=
  subject ← deref i;
  updateOptions ← foldM (updateOptionOf subject) (relationsWithJoinColumns (metadata subject)) [];
  own ←
    match updateOptions with
    | [] => mret (Some updatePromises)
    | _ =>
        conditions ← ownConditions i;
        match conditions with
        | [] => mret None
        | _ =>
            updatePromise ←
              async (queryRunner_update (table_name (table (metadata subject)))
                                        updateOptions conditions);
            mret (Some (updatePromises ++ [updatePromise]))
        end
    end;
  match own with
  | None => mret updatePromises
  | Some updatePromises =>
      h ← heap;
      items ← lift (extractRelationValuesFromEntity (metadata subject) h (entityOf subject)
                      (oneToManyRelations (metadata subject) ++
                       filter (λ relation, isOwning relation = false)
                              (oneToOneRelations (metadata subject))));
      foldM (updateInverseSide i) items updatePromises
  end.

Definition executeInsertOperations : M unit :=
  w ← world;
  firstInsertSubjects ←
    filterM (λ i, subject ← deref i; mret (negb (hasNonNullableColumns (metadata subject))))
            (insertSubjects w);
  secondInsertSubjects ←
    filterM (λ i, subject ← deref i; mret (hasNonNullableColumns (metadata subject)))
            (insertSubjects w);
  promises ← mapM (λ i, async (insert i [])) firstInsertSubjects;
  Promise_all promises;;
  promises ← mapM (λ i, async (insert i firstInsertSubjects)) secondInsertSubjects;
  Promise_all promises;;
  updatePromises ← foldM updateRelationIds firstInsertSubjects [];
  Promise_all updatePromises;;
  mret tt.

(** ** Refreshing the entities after persistence (lines 976-1024) *)

Definition updateSpecialColumnsInPersistedEntities : M unit :=
  w ← world;
  forEach (λ i,
             subject ← deref i;
             let m := metadata subject in
             match objectIdColumn m with
             | Some column =>
                 if truthy (generatedObjectId subject)
                 then set (entity subject) (column_propertyName column) (generatedObjectId subject)
                 else mret tt
             | None => mret tt
             end;;
             forEach (λ primaryColumn,
                        if truthy (newlyGeneratedId subject)
                        then set (entity subject) (column_propertyName primaryColumn)
                                 (newlyGeneratedId subject)
                        else mret tt)
                     (primaryColumns m);;
             forEach (λ primaryColumn,
                        if truthy (parentGeneratedId subject)
                        then set (entity subject) (column_propertyName primaryColumn)
                                 (parentGeneratedId subject)
                        else mret tt)
                     (parentPrimaryColumns m);;
             match updateDateColumn m with
             | Some column => set (entity subject) (column_propertyName column) (date subject)
             | None => mret tt
             end;;
             match createDateColumn m with
             | Some column => set (entity subject) (column_propertyName column) (date subject)
             | None => mret tt
             end;;
             match versionColumn m with
             | Some column => set (entity subject) (column_propertyName column) (VNum 1)
             | None => mret tt
             end;;
             match treeLevelColumn m with
             | Some column => set (entity subject) (column_propertyName column) (treeLevel subject)
             | None => mret tt
             end)
          (insertSubjects w);;
  forEach (λ i,
             subject ← deref i;
             let m := metadata subject in
             match updateDateColumn m with
             | Some column => set (entity subject) (column_propertyName column) (date subject)
             | None => mret tt
             end;;
             match versionColumn m with
             | Some column =>
                 version ← get (entityOf subject) (column_propertyName column);
                 set (entity subject) (column_propertyName column) (increment version)
             | None => mret tt
             end)
          (updateSubjects w);;
  forEach (λ i,
             subject ← deref i;
             if hasEntity subject then
               forEach (λ primaryColumn,
                          set (entity subject) (column_propertyName primaryColumn) VUndefined)
                       (primaryColumns (metadata subject))
             else mret tt)
          (removeSubjects w).

(** ** The entry point (lines 69-150) *)

(** [subjects.filter(p)], as positions in the array. *)
Definition positionsWhere (p : Subject → bool) (l : list Subject) : list nat :=
  fst <$> filter (λ x, p x.2 = true) (imap (λ i s, (i, s)) l).

(** Lines 89-94. *)
Definition nothingToExecute (l : list Subject) : bool :=
  bool_decide (positionsWhere mustBeInserted l = [])
  && bool_decide (positionsWhere mustBeUpdated l = [])
  && bool_decide (positionsWhere mustBeRemoved l = [])
  && bool_decide (positionsWhere hasRelationUpdates l = [])
  && forallb (λ s, bool_decide (junctionInserts s = [])) l
  && forallb (λ s, bool_decide (junctionRemoves s = [])) l.

(** The seven phases, each a barrier for the next (lines 117-123). *)
Definition executeOperations : M unit :=
  executeInsertOperations;;
  executeInsertClosureTableOperations;;
  executeInsertJunctionsOperations;;
  executeRemoveJunctionsOperations;;
  executeUpdateOperations;;
  executeUpdateRelations;;
  executeRemoveOperations.

(** The try block (lines 103-134): up to the phases, the phases, and from
    the commit on. *)
Definition executeOpen : M unit :=
  queryRunnerProvider_provide;;
  queryRunner_isTransactionActive ≫= λ active : bool,
  (if negb active
   then modify (set_started true);; queryRunner_beginTransaction
   else mret tt);;
  broadcaster_broadcastBeforeEventsForAll;;
  w ← world;
  forEach (λ i, h ← heap; modify_subject i (recompute h)) (updateSubjects w).

Definition executeClose : M unit :=
  w ← world;
  (if isTransactionStartedByItself w then queryRunner_commitTransaction else mret tt);;
  updateSpecialColumnsInPersistedEntities;;
  broadcaster_broadcastAfterEventsForAll.

Definition executeTry : M unit :=
  executeOpen;;
  executeOperations;;
  executeClose.

(** The catch block (lines 136-148). *)
Definition executeCatch (error : Error) : M unit :=
  w ← world;
  (if isTransactionStartedByItself w
   then try_catch queryRunner_rollbackTransaction (λ secondaryError, mret tt)
   else mret tt);;
  throw error.

(** Lines 82-86: the fields of the executor are set from the subjects. *)
Definition installed (input : list Subject) (w : World) : World :=
  set_fields (seq 0 (length input))
             (positionsWhere mustBeInserted input)
             (positionsWhere mustBeUpdated input)
             (positionsWhere mustBeRemoved input)
             (positionsWhere hasRelationUpdates input)
             (set_subjects input w).

Definition execute (input : list Subject) : M unit :=
  forEach (λ subject, lift (validate subject)) input;;
  modify (installed input);;
  if nothingToExecute input then mret tt
  else
    modify (set_started false);;
    try_catch executeTry executeCatch.

End Executor.

Arguments World Q : clear implicits.
Arguments M Q A : clear implicits.

End SubjectOperationExecutor.

(** ** The WebSQL query runner

    The engine behind [db.transaction] and [executeSql] is outside the
    repository.  A statement on an ordinary table is answered from a script
    (the insert id, or the error the engine reports); the two statements of
    [insertIntoClosureTable] are given their relational meaning on the rows
    of the closure tables. *)

Module WebsqlQueryRunner.

Record ClosureRow := {
  ancestor : Z;
  descendant : Z;
  level : option Z }.

Inductive Reply :=
| Done (insertId : Value)
| Failed (err : Value).

Record State := {
  isReleased : bool;
  isTransactionActive : bool;
  closureTables : gmap string (list ClosureRow);
  replies : list Reply }.

Definition set_active (b : bool) (q : State) : State :=
  {| isReleased := isReleased q; isTransactionActive := b;
     closureTables := closureTables q; replies := replies q |}.

Definition set_replies (l : list Reply) (q : State) : State :=
  {| isReleased := isReleased q; isTransactionActive := isTransactionActive q;
     closureTables := closureTables q; replies := l |}.

Definition set_closureTable (tableName : string) (rows : list ClosureRow) (q : State) : State :=
  {| isReleased := isReleased q; isTransactionActive := isTransactionActive q;
     closureTables := <[tableName := rows]> (closureTables q); replies := replies q |}.

(** Lines 88-97. *)
Definition beginTransaction (q : State) : Res unit * State :=
  if isReleased q then (Err QueryRunnerAlreadyReleasedError, q)
  else if isTransactionActive q then (Err TransactionAlreadyStartedError, q)
  else (Ok tt, set_active true q).

(** Lines 102-111. *)
Definition commitTransaction (q : State) : Res unit * State :=
  if isReleased q then (Err QueryRunnerAlreadyReleasedError, q)
  else if negb (isTransactionActive q) then (Err TransactionNotStartedError, q)
  else (Ok tt, set_active false q).

(** Lines 116-125. *)
Definition rollbackTransaction (q : State) : Res unit * State :=
  if isReleased q then (Err QueryRunnerAlreadyReleasedError, q)
  else if negb (isTransactionActive q) then (Err TransactionNotStartedError, q)
  else (Ok tt, set_active false q).

(** One statement handed to the engine: the next reply of the script, and
    success without an insert id once the script is exhausted. *)
Definition executeSql (q : State) : Res Value * State :=
  match replies q with
  | [] => (Ok VUndefined, q)
  | Done insertId :: rest => (Ok insertId, set_replies rest q)
  | Failed err :: rest => (Err (Rejected err), set_replies rest q)
  end.

(** Lines 166-193. *)
Definition insert (tableName : string) (keyValues : ObjectLiteral)
    (generatedColumn : option ColumnMetadata) (q : State) : Res Value * State :=
  if isReleased q then (Err QueryRunnerAlreadyReleasedError, q)
  else
    match executeSql q with
    | (Ok insertId, q') => (Ok (if present generatedColumn then insertId else VUndefined), q')
    | (Err e, q') => (Err e, q')
    end.

(** Lines 198-209. *)
Definition update (tableName : string) (valuesMap conditions : ObjectLiteral)
    (q : State) : Res unit * State :=
  if isReleased q then (Err QueryRunnerAlreadyReleasedError, q)
  else
    match executeSql q with
    | (Ok _, q') => (Ok tt, q')
    | (Err e, q') => (Err e, q')
    end.

(** Lines 224-235.  [Object.keys] of a missing condition object throws. *)
Definition delete (tableName : string) (conditions : option ObjectLiteral)
    (q : State) : Res unit * State :=
  if isReleased q then (Err QueryRunnerAlreadyReleasedError, q)
  else
    match conditions with
    | None => (Err TypeError, q)
    | Some _ =>
        match executeSql q with
        | (Ok _, q') => (Ok tt, q')
        | (Err e, q') => (Err e, q')
        end
    end.

(** [SELECT ancestor, newEntityId, level + 1 FROM table WHERE descendant =
    parentId UNION ALL SELECT newEntityId, newEntityId, 1], and the same
    without the level column. *)
Definition closureRowsFor (rows : list ClosureRow) (newEntityId parentId : Z)
    (hasLevel : bool) : list ClosureRow :=
  ((λ row, {| ancestor := ancestor row; descendant := newEntityId;
              level := if hasLevel then (λ l, l + 1) <$> level row else None |})
     <$> filter (λ row, descendant row = parentId) rows)
  ++ [ {| ancestor := newEntityId; descendant := newEntityId;
          level := if hasLevel then Some 1 else None |} ].

(** [SELECT MAX(level) FROM table WHERE descendant = parentId]; NULL levels
    are skipped and no row gives NULL. *)
Definition maxLevel (rows : list ClosureRow) (parentId : Z) : option Z :=
  foldr (λ row acc,
           match level row, acc with
           | Some l, Some a => Some (Z.max l a)
           | Some l, None => Some l
           | None, _ => acc
           end)
        None (filter (λ row, descendant row = parentId) rows).

(** An id spliced into the statement text reads as an integer when it is a
    number, or a string that holds a signed decimal integer. *)
Definition sqlInteger (v : Value) : option Z :=
  match v with
  | VNum n => Some n
  | VStr s =>
      match drop_spaces s with
      | String a rest as trimmed =>
          if Ascii.eqb a "-"%char then Z.opp <$> unsigned_to_number (drop_spaces rest)
          else if Ascii.eqb a "+"%char then unsigned_to_number (drop_spaces rest)
          else unsigned_to_number trimmed
      | EmptyString => None
      end
  | _ => None
  end.

(** Lines 240-257.  The ids are spliced into the statement text, so the
    statements are given their meaning for ids that read as integers; the
    text produced for another value is taken to be rejected by the engine. *)
Definition insertIntoClosureTable (tableName : string) (newEntityId parentId : Value)
    (hasLevel : bool) (q : State) : Res Value * State :=
  if isReleased q then (Err QueryRunnerAlreadyReleasedError, q)
  else
    match sqlInteger newEntityId, sqlInteger parentId with
    | Some newId, Some parent =>
        match executeSql q with
        | (Err e, q') => (Err e, q')
        | (Ok _, q') =>
            let rows := default [] (closureTables q' !! tableName) in
            let q'' := set_closureTable tableName
                         (rows ++ closureRowsFor rows newId parent hasLevel) q' in
            match executeSql q'' with
            | (Err e, q3) => (Err e, q3)
            | (Ok _, q3) =>
                let rows := default [] (closureTables q3 !! tableName) in
                (Ok (match maxLevel rows parent with
                     | Some l => if l =? 0 then VNum 1 else VNum (l + 1)
                     | None => VNum 1
                     end), q3)
            end
        end
    | _, _ => (Err (Rejected (VStr "SQL syntax")), q)
    end.

#[global] Instance queryRunner : QueryRunner State :=
  Build_QueryRunner State isTransactionActive beginTransaction commitTransaction
    rollbackTransaction insert update delete insertIntoClosureTable.

End WebsqlQueryRunner.

(** ** What a computation leaves untouched *)

Module Frame.
Import SubjectOperationExecutor.
Section Frame.
Context {Q : Type} `{!QueryRunner Q} `{!Collaborators}.

(** [m] relates every world to the world it leaves, whether it returns or
    throws. *)
Definition preserves {A} (R : relation (World Q)) (m : M Q A) : Prop :=
  ∀ w, R w (m w).2.

(** The relation holds across an event of kind [P], a step of the query
    runner, an assignment to a Subject, and an assignment to an entity. *)
Class IgnoresEvents (P : Event → Prop) (R : relation (World Q)) : Prop :=
  ignores_event : ∀ e w, P e → R w (add_event e w).

Class IgnoresRunner (R : relation (World Q)) : Prop :=
  ignores_runner : ∀ q w, R w (set_runner q w).

(** One of the four statements of the query runner takes it from [q] to
    the second state. *)
Inductive statement (q : Q) : Q → Prop :=
| statement_insert tableName keyValues generatedColumn :
    statement q (runner_insert tableName keyValues generatedColumn q).2
| statement_update tableName valuesMap conditions :
    statement q (runner_update tableName valuesMap conditions q).2
| statement_delete tableName conditions :
    statement q (runner_delete tableName conditions q).2
| statement_closure tableName newEntityId parentId hasLevel :
    statement q (insertIntoClosureTable tableName newEntityId parentId hasLevel q).2.

(** The relation holds across a statement of the query runner. *)
Class IgnoresStatements (R : relation (World Q)) : Prop :=
  ignores_statement : ∀ q w, statement (runner w) q → R w (set_runner q w).

Class IgnoresSubjects (R : relation (World Q)) : Prop :=
  ignores_subjects : ∀ l w, R w (set_subjects l w).

Class IgnoresEntities (R : relation (World Q)) : Prop :=
  ignores_entities : ∀ h w, R w (set_entities h w).

(** One of the four statements of the query runner takes it from [q] to
    the second state, where it was accepted ([true]) or rejected. *)
Inductive answered (q : Q) : bool → Q → Prop :=
| answered_insert tableName keyValues generatedColumn :
    answered q (is_ok (runner_insert tableName keyValues generatedColumn q).1)
               (runner_insert tableName keyValues generatedColumn q).2
| answered_update tableName valuesMap conditions :
    answered q (is_ok (runner_update tableName valuesMap conditions q).1)
               (runner_update tableName valuesMap conditions q).2
| answered_delete tableName conditions :
    answered q (is_ok (runner_delete tableName conditions q).1)
               (runner_delete tableName conditions q).2
| answered_closure tableName newEntityId parentId hasLevel :
    answered q (is_ok (insertIntoClosureTable tableName newEntityId parentId hasLevel q).1)
               (insertIntoClosureTable tableName newEntityId parentId hasLevel q).2.

(** The relation holds across a statement that the query runner accepts. *)
Class IgnoresAccepted (R : relation (World Q)) : Prop :=
  ignores_accepted : ∀ q w, answered (runner w) true q → R w (set_runner q w).

(** [rejections] reads, on the query runner, the number of statements
    rejected so far: an accepted statement keeps it, a rejected one adds
    one. *)
Class Audits (rejections : Q → nat) : Prop :=
  audited : ∀ q ok q', answered q ok q' →
                       rejections q' = if ok then rejections q else S (rejections q).

(** No statement was rejected between the two worlds. *)
Definition sameRejections (rejections : Q → nat) (w w' : World Q) : Prop :=
  rejections (runner w') = rejections (runner w).

(** Whenever [m] returns a value that is [good], [pre] holds and [m] has
    related the world to the one it leaves.  With [pre] and [good] always
    true this is a computation that relates the worlds whenever it returns;
    with [good] the success of a promise, one that relates them whenever the
    promise it returns is fulfilled. *)
Definition ensures {A} (R : relation (World Q)) (pre : bool) (good : A → bool)
    (m : M Q A) : Prop :=
  ∀ w, match m w with
       | (Ok a, w') => good a = true → pre = true ∧ R w w'
       | (Err _, _) => True
       end.

(** Some task of the list fails, the tasks being run one after the other. *)
Fixpoint someFails {A B} (f : A → M Q B) (l : list A) (w : World Q) : bool :=
  match l with
  | [] => false
  | a :: l' => negb (is_ok (f a w).1) || someFails f l' (f a w).2
  end.

(** Whenever [m] returns, the value returned satisfies [P]. *)
Definition returns {A} (m : M Q A) (P : A → Prop) : Prop :=
  ∀ w a w', m w = (Ok a, w') → P a.

(** The statements of the seven phases, and the driver calls made for them. *)
Definition operation (e : Event) : Prop :=
  match e with
  | EInsert _ _ _ | EUpdate _ _ _ | EDelete _ _ | EInsertIntoClosureTable _ _ _ _
  | EPreparePersistentValue _ _ => True
  | _ => False
  end.

(** The driver calls for the values to persist. *)
Definition isPrepare (e : Event) : Prop :=
  match e with EPreparePersistentValue _ _ => True | _ => False end.

Definition isUpdate (e : Event) : Prop :=
  match e with EUpdate _ _ _ => True | _ => False end.

(** The calls that open, close or query the transaction. *)
Definition transactional (e : Event) : Prop :=
  match e with
  | EIsTransactionActive _ | EBeginTransaction | ECommitTransaction
  | ERollbackTransaction => True
  | _ => False
  end.

(** Any call but those on the transaction. *)
Definition silent (e : Event) : Prop :=
  match e with
  | EIsTransactionActive _ | EBeginTransaction | ECommitTransaction
  | ERollbackTransaction => False
  | _ => True
  end.

(** Any call but a rollback and a query of the transaction state. *)
Definition afterOpening (e : Event) : Prop :=
  match e with
  | EIsTransactionActive _ | ERollbackTransaction => False
  | _ => True
  end.

(** No entity was written. *)
Definition sameEntities (w w' : World Q) : Prop := entities w' = entities w.

(** Nothing but entities was written: no collaborator was called and the
    Subject objects are as they were. *)
Definition entitiesOnly (w w' : World Q) : Prop :=
  trace w' = trace w ∧ runner w' = runner w ∧ subjects w' = subjects w.

(** From the Subject objects [store] on, these are kept and the entity at
    [l] is not written. *)
Definition untouched (l : loc) (store : list Subject) (w w' : World Q) : Prop :=
  subjects w = store → subjects w' = store ∧ entities w' !! l = entities w !! l.

(** The property [p] of the entity at [l] reads as it did. *)
Definition sameProperty (l : loc) (p : string) (w w' : World Q) : Prop :=
  property (entities w') (VRef l) p = property (entities w) (VRef l) p.

(** The events added between two worlds. *)
Definition added (w w' : World Q) (events : list Event) : Prop :=
  trace w' = trace w ++ events.

(** No collaborator was called, and the ownership flag was kept. *)
Definition quiet (w w' : World Q) : Prop :=
  trace w' = trace w
  ∧ isTransactionStartedByItself w' = isTransactionStartedByItself w.

(** Only events of kind [P] were added, and the ownership flag was kept. *)
Definition only (P : Event → Prop) (w w' : World Q) : Prop :=
  isTransactionStartedByItself w' = isTransactionStartedByItself w
  ∧ ∃ events, added w w' events ∧ Forall P events.

End Frame.

(** Any query runner, made to count the statements it rejects.  The calls on
    the transaction pass through. *)
Definition counting {Q A} (f : Q → Res A * Q) (q : Q * nat) : Res A * (Q * nat) :=
  let '(r, q') := f q.1 in (r, (q', if is_ok r then q.2 else S q.2)).

Definition passing {Q A} (f : Q → Res A * Q) (q : Q * nat) : Res A * (Q * nat) :=
  let '(r, q') := f q.1 in (r, (q', q.2)).

Definition counted {Q} `{!QueryRunner Q} : QueryRunner (Q * nat) :=
  {| isTransactionActive := λ q, isTransactionActive q.1;
     beginTransaction := passing beginTransaction;
     commitTransaction := passing commitTransaction;
     rollbackTransaction := passing rollbackTransaction;
     runner_insert := λ tableName keyValues generatedColumn,
       counting (runner_insert tableName keyValues generatedColumn);
     runner_update := λ tableName valuesMap conditions,
       counting (runner_update tableName valuesMap conditions);
     runner_delete := λ tableName conditions,
       counting (runner_delete tableName conditions);
     insertIntoClosureTable := λ tableName newEntityId parentId hasLevel,
       counting (insertIntoClosureTable tableName newEntityId parentId hasLevel) |}.

(** The world [w] on the counting query runner, no statement rejected yet. *)
Definition fromNow {Q} (w : World Q) : World (Q * nat) :=
  {| entities := entities w; subjects := subjects w; runner := (runner w, 0%nat);
     clock := clock w; trace := trace w; allSubjects := allSubjects w;
     insertSubjects := insertSubjects w; updateSubjects := updateSubjects w;
     removeSubjects := removeSubjects w;
     relationUpdateSubjects := relationUpdateSubjects w;
     isTransactionStartedByItself := isTransactionStartedByItself w |}.

End Frame.

(** ** Pure readings used to state the properties *)

Module Reading.
Import SubjectOperationExecutor.

(** [conditions[column.fullName] = object[column.propertyName]] for the
    columns in order, on the heap object [l]. *)
Definition conditionsOf (h : Heap) (l : loc) (columns' : list ColumnMetadata) : ObjectLiteral :=
  fold_left (λ conditions column,
               obj_set (column_fullName column)
                       (default VUndefined (h !! l ≫= (λ o : Obj, o !! column_propertyName column)))
                       conditions)
            columns' [].

(** The subjects of the first and of the second group of the insert phase
    (lines 182 and 187). *)
Definition firstGroup (store : list Subject) (inserted : list nat) : list nat :=
  List.filter (λ i, match store !! i with
                    | Some s => negb (hasNonNullableColumns (metadata s))
                    | None => false
                    end) inserted.

Definition secondGroup (store : list Subject) (inserted : list nat) : list nat :=
  List.filter (λ i, match store !! i with
                    | Some s => hasNonNullableColumns (metadata s)
                    | None => false
                    end) inserted.

(** The inserts, and the calls on the transaction, of a trace. *)
Definition inserts (events : list Event) : list Event :=
  List.filter (λ e, match e with EInsert _ _ _ => true | _ => false end) events.

Definition transactionCalls (events : list Event) : list Event :=
  List.filter (λ e, match e with
                    | EBeginTransaction | ECommitTransaction | ERollbackTransaction => true
                    | _ => false
                    end) events.

(** The values of a relation-only update (lines 796-800): under the name
    of each relation the referenced column of the value, or NULL when the
    relation is unset. *)
Definition relationValues (h : Heap) (updates : list RelationUpdate) : ObjectLiteral :=
  fold_left
    (λ values setRelation,
       obj_set (relation_name (relationUpdate_relation setRelation))
               (if truthy (relationUpdate_value setRelation)
                then match joinColumn (relationUpdate_relation setRelation) with
                     | Some join =>
                         match property h (relationUpdate_value setRelation)
                                 (column_propertyName (joinColumn_referencedColumn join)) with
                         | Ok value => value
                         | Err _ => VUndefined
                         end
                     | None => VUndefined
                     end
                else VNull)
               values)
    updates [].

(** The properties that the refresh of an insert subject writes after the
    primary columns (lines 987-1001). *)
Definition refreshedLater (s : Subject) : list string :=
  let m := metadata s in
  (if truthy (parentGeneratedId s)
   then column_propertyName <$> parentPrimaryColumns m else [])
  ++ option_list (column_propertyName <$> updateDateColumn m)
  ++ option_list (column_propertyName <$> createDateColumn m)
  ++ option_list (column_propertyName <$> versionColumn m)
  ++ option_list (column_propertyName <$> treeLevelColumn m).

(** Each table has one value map at most. *)
Definition distinctTables (valueMaps : list ValueMap) : Prop :=
  NoDup (valueMap_tableName <$> valueMaps).

(** The value that the insert of [s] generated for [column], when the
    column is of a kind that an insert fills in. *)
Definition generatedFor (column : ColumnMetadata) (s : Subject) : option Value :=
  if column_isGenerated column then Some (newlyGeneratedId s)
  else if column_isObjectId column then Some (generatedObjectId s)
  else None.

(** The id that a junction row takes for an entity: the id found on the
    entity when there is one, else the one generated for [column] by the
    insert of the subject [holder] of the entity; none when both are
    missing. *)
Definition resolvedId (column : ColumnMetadata) (onEntity : Value)
    (holder : option Subject) : option Value :=
  if truthy onEntity then Some onEntity
  else match holder ≫= generatedFor column with
       | Some id => if truthy id then Some id else None
       | None => None
       end.

(** The first of the Subject objects at [refs] whose entity is the heap
    object [l]. *)
Definition holderOf (store : list Subject) (refs : list nat) (l : loc) : option Subject :=
  head (filter (λ s, entity s = Some l) (omap (λ i, store !! i) refs)).

(** The value that the heap object [l] holds for [column]. *)
Definition idOn (h : Heap) (l : loc) (column : ColumnMetadata) : Value :=
  default VUndefined (h !! l ≫= (λ o : Obj, o !! column_propertyName column)).

(** The tables of the update statements of a trace. *)
Definition updatedTables (events : list Event) : list string :=
  omap (λ e, match e with EUpdate tableName _ _ => Some tableName | _ => None end) events.


(** Whether the connection is released, and whether a transaction is
    active on it. *)
Definition connectionState (q : WebsqlQueryRunner.State) : bool * bool :=
  (WebsqlQueryRunner.isReleased q, WebsqlQueryRunner.isTransactionActive q).

(** The connection is in the state it was in, and the ownership flag was
    kept. *)
Definition steady (w w' : World WebsqlQueryRunner.State) : Prop :=
  isTransactionStartedByItself w' = isTransactionStartedByItself w
  ∧ connectionState (runner w') = connectionState (runner w).

(** The engine accepts every statement still to come on this connection. *)
Definition accepting (q : WebsqlQueryRunner.State) : Prop :=
  WebsqlQueryRunner.isReleased q = false
  ∧ Forall (λ reply, ∃ insertId, reply = WebsqlQueryRunner.Done insertId)
           (WebsqlQueryRunner.replies q).


End Reading.


(** ** Sample metadata, collaborators and worlds

    Stand-ins for the classes outside the sources, used to run the executor
    on concrete batches. *)

Module Sample.
Import SubjectOperationExecutor.

Definition column (propertyName : string) : ColumnMetadata :=
  {| column_propertyName := propertyName; column_name := propertyName;
     column_fullName := propertyName; column_entityTarget := None;
     column_isGenerated := false; column_isObjectId := false; column_isVirtual := false;
     column_isParentId := false; column_isDiscriminator := false;
     column_isCreateDate := false; column_isUpdateDate := false; column_isVersion := false;
     column_referencedColumn := None |}.

Definition generated (propertyName : string) : ColumnMetadata :=
  {| column_propertyName := propertyName; column_name := propertyName;
     column_fullName := propertyName; column_entityTarget := None;
     column_isGenerated := true; column_isObjectId := false; column_isVirtual := false;
     column_isParentId := false; column_isDiscriminator := false;
     column_isCreateDate := false; column_isUpdateDate := false; column_isVersion := false;
     column_referencedColumn := None |}.

Definition columnOf (entityTarget' propertyName : string) : ColumnMetadata :=
  {| column_propertyName := propertyName; column_name := propertyName;
     column_fullName := propertyName; column_entityTarget := Some entityTarget';
     column_isGenerated := false; column_isObjectId := false; column_isVirtual := false;
     column_isParentId := false; column_isDiscriminator := false;
     column_isCreateDate := false; column_isUpdateDate := false; column_isVersion := false;
     column_referencedColumn := None |}.

Definition tableOf (name : string) (child closure : bool) : TableMetadata :=
  {| table_name := name; isClassTableChild := child; isClosure := closure |}.

(** A metadata with the given table, columns and primary columns, and
    nothing else. *)
Definition plain (target' tableName : string) (columns' primary : list ColumnMetadata) :
    EntityMetadata :=
  {| target := target'; table := tableOf tableName false false;
     parentEntityMetadata := None; hasNonNullableColumns := false;
     columns := columns'; columnsWithoutEmbeddeds := columns'; embeddeds := [];
     primaryColumns := primary; parentPrimaryColumns := [];
     primaryColumnsWithParentIdColumns := primary; firstPrimaryColumn := head primary;
     generatedColumnIfExist := None; objectIdColumn := None; createDateColumn := None;
     updateDateColumn := None; versionColumn := None; discriminatorColumn := None;
     treeLevelColumn := None; parentIdColumn := None; discriminatorValue := VUndefined;
     relations := []; relationsWithJoinColumns := []; oneToManyRelations := [];
     oneToOneRelations := []; treeParentRelation := None; treeChildrenRelation := None;
     closureJunctionTable := None |}.

(** The members that the samples vary, replaced in [m]. *)
Definition amend (m : EntityMetadata) (table' : TableMetadata)
    (parent : option EntityMetadata) (parentPrimary : list ColumnMetadata)
    (nonNullable : bool)
    (generated' updateDate version level : option ColumnMetadata)
    (joins : list RelationMetadata) (treeParent treeChildren : option RelationMetadata)
    (closure : option EntityMetadata) : EntityMetadata :=
  {| target := target m; table := table';
     parentEntityMetadata := parent; hasNonNullableColumns := nonNullable;
     columns := columns m; columnsWithoutEmbeddeds := columnsWithoutEmbeddeds m;
     embeddeds := embeddeds m;
     primaryColumns := primaryColumns m; parentPrimaryColumns := parentPrimary;
     primaryColumnsWithParentIdColumns := primaryColumnsWithParentIdColumns m;
     firstPrimaryColumn := firstPrimaryColumn m;
     generatedColumnIfExist := generated'; objectIdColumn := objectIdColumn m;
     createDateColumn := createDateColumn m;
     updateDateColumn := updateDate; versionColumn := version;
     discriminatorColumn := discriminatorColumn m;
     treeLevelColumn := level; parentIdColumn := parentIdColumn m;
     discriminatorValue := discriminatorValue m;
     relations := joins; relationsWithJoinColumns := joins;
     oneToManyRelations := oneToManyRelations m;
     oneToOneRelations := oneToOneRelations m; treeParentRelation := treeParent;
     treeChildrenRelation := treeChildren;
     closureJunctionTable := closure |}.

Definition relationOf (propertyName : string) (owning manyToManyOwner : bool)
    (joinColumn' : option JoinColumnMetadata) (joinTable' : option JoinTableMetadata)
    (inverse : EntityMetadata) (junction : option EntityMetadata) : RelationMetadata :=
  {| relation_name := propertyName; relation_propertyName := propertyName;
     relation_target := ""; relation_entityTarget := "";
     isOwning := owning; isManyToManyOwner := manyToManyOwner;
     isManyToManyNotOwner := false;
     joinColumn := joinColumn'; joinTable := joinTable';
     inverseEntityMetadata := inverse; inverseRelation := None;
     junctionEntityMetadata := junction |}.

Definition subjectOf (m : EntityMetadata) (entity' databaseEntity' : option loc)
    (date' : Value) (inserted updated removed : bool)
    (diffColumns' : list ColumnMetadata) (junctionInserts' : list JunctionInsert)
    (newlyGeneratedId' : Value) : Subject :=
  {| metadata := m; entity := entity'; databaseEntity := databaseEntity';
     entityTarget := target m; date := date';
     mustBeInserted := inserted; mustBeUpdated := updated; mustBeRemoved := removed;
     hasRelationUpdates := false;
     diffColumns := diffColumns'; diffRelations := []; relationUpdates := [];
     junctionInserts := junctionInserts'; junctionRemoves := [];
     newlyGeneratedId := newlyGeneratedId'; generatedObjectId := VUndefined;
     parentGeneratedId := VUndefined; treeLevel := VUndefined |}.

(** The primary columns paired with the properties of the entity. *)
Definition idMap (m : EntityMetadata) (h : Heap) (e : Value) : Res (option ObjectLiteral) :=
  match e with
  | VRef _ =>
      Ok (Some ((λ c, (column_fullName c,
                       match property h e (column_propertyName c) with
                       | Ok v => v
                       | Err _ => VUndefined
                       end)) <$> primaryColumns m))
  | _ => Ok None
  end.

(** Collaborators that answer from the entity itself: the driver stores
    values as they are, the broadcaster has no subscriber, and the "after"
    broadcast ends as [after] says. *)
Definition collaborators (registry : list EntityMetadata) (after : Res unit) : Collaborators :=
  {| provide := Ok tt;
     broadcastBeforeEventsForAll := λ _ _ _ h, (Ok tt, h);
     broadcastAfterEventsForAll := λ _ _ _ h, (after, h);
     preparePersistentValue := λ v _, v;
     getMetadata := λ t, required (find (λ m, String.eqb (target m) t) registry);
     validate := λ _, Ok tt;
     recompute := λ _ s, s;
     column_hasEntityValue := λ c h e,
       v ← property h e (column_propertyName c);
       mret (match v with VUndefined | VNull => false | _ => true end);
     column_getEntityValue := λ c h e, property h e (column_propertyName c);
     relation_getEntityValue := λ r h e, property h e (relation_propertyName r);
     getInverseEntityRelationId := λ r h v,
       j ← required (joinColumn r);
       property h v (column_propertyName (joinColumn_referencedColumn j));
     getOwnEntityRelationId := λ r h e,
       c ← junctionColumns r;
       property h e (column_propertyName c.1);
     getDatabaseEntityIdMap := idMap;
     getEntityIdColumnMap := idMap;
     extractRelationValuesFromEntity := λ _ _ _ _, Ok [];
     constructorName := λ _ _, "Object" |}.

Definition connection (transactionActive : bool) (closure : gmap string (list WebsqlQueryRunner.ClosureRow))
    (replies' : list WebsqlQueryRunner.Reply) : WebsqlQueryRunner.State :=
  {| WebsqlQueryRunner.isReleased := false;
     WebsqlQueryRunner.isTransactionActive := transactionActive;
     WebsqlQueryRunner.closureTables := closure;
     WebsqlQueryRunner.replies := replies' |}.

(** A world in which [execute] has not run yet, or, with the fields given,
    one in the middle of a phase. *)
Definition worldOf (h : Heap) (store : list Subject) (q : WebsqlQueryRunner.State) (time : Z)
    (all ins upd rem : list nat) : World WebsqlQueryRunner.State :=
  {| entities := h; subjects := store; runner := q; clock := time; trace := [];
     allSubjects := all; insertSubjects := ins; updateSubjects := upd;
     removeSubjects := rem; relationUpdateSubjects := [];
     isTransactionStartedByItself := false |}.

(** *** A class-table child to remove: Student extends Person *)

Definition person : EntityMetadata := plain "Person" "person" [column "id"] [column "id"].

Definition student : EntityMetadata :=
  amend (plain "Student" "student" [column "id"; column "grade"] [column "id"])
        (tableOf "student" true false) (Some person) [column "id"] false
        None None None None [] None None None.

Definition studentRow : Heap := {[ 1%nat := {[ "id" := VNum 7; "grade" := VNum 3 ]} ]}.

Definition removal : World WebsqlQueryRunner.State :=
  worldOf studentRow
          [subjectOf student None (Some 1%nat) (VDate 1000) false false true [] [] VUndefined]
          (connection true ∅ []) 2000 [0%nat] [] [] [0%nat].

(** *** A versioned, timestamped entity to update: Post *)

Definition post : EntityMetadata :=
  amend (plain "Post" "post" [column "id"; column "title"] [column "id"])
        (tableOf "post" false false) None [] false
        None (Some (column "updatedAt")) (Some (column "version")) None [] None None None.

Definition postRow : Heap :=
  {[ 1%nat := {[ "id" := VNum 4; "title" := VStr "new"; "version" := VNum 1 ]} ]}.

(** The title changed. *)
Definition retitled : Subject :=
  subjectOf post (Some 1%nat) (Some 1%nat) (VDate 1000) false true false
            [columnOf "Post" "title"] [] VUndefined.

(** Nothing changed. *)
Definition untouched : Subject :=
  subjectOf post (Some 1%nat) (Some 1%nat) (VDate 1000) false true false [] [] VUndefined.

Definition updating (s : Subject) : World WebsqlQueryRunner.State :=
  worldOf postRow [s] (connection true ∅ []) 2000 [0%nat] [] [0%nat] [].

(** *** A tree: Category with a closure table *)

Definition categoryClosure : EntityMetadata :=
  plain "category_closure" "category_closure" [column "ancestor"; column "descendant"] [].

Definition parentOf (referenced : ColumnMetadata) : RelationMetadata :=
  relationOf "parent" true false
             (Some {| joinColumn_name := "parentId"; joinColumn_referencedColumn := referenced |})
             None categoryClosure None.

Definition childrenOf : RelationMetadata :=
  relationOf "children" false false None None categoryClosure None.

Definition category (referenced : ColumnMetadata) : EntityMetadata :=
  amend (plain "Category" "category" [column "id"; column "name"] [column "id"])
        (tableOf "category" false true) None [] false
        (Some referenced) None None (Some (column "level"))
        [parentOf referenced] (Some (parentOf referenced)) (Some childrenOf)
        (Some categoryClosure).

(** The new child, inserted with the generated id 2. *)
Definition child (referenced : ColumnMetadata) : Subject :=
  subjectOf (category referenced) (Some 2%nat) None (VDate 1000) true false false [] []
            (VNum 2).

(** The parent is persisted with id 1 and is no subject of the batch. *)
Definition persistedParent : Heap :=
  {[ 1%nat := {[ "id" := VNum 1; "name" := VStr "root"; "level" := VNum 1 ]};
     2%nat := {[ "name" := VStr "leaf"; "parent" := VRef 1%nat ]} ]}.

(** The parent has no id and is no subject of the batch. *)
Definition unsavedParent : Heap :=
  {[ 1%nat := {[ "name" := VStr "root" ]};
     2%nat := {[ "name" := VStr "leaf"; "parent" := VRef 1%nat ]} ]}.

(** The same, the child having the id 2 of its own. *)
Definition unsavedParentOfSaved : Heap :=
  {[ 1%nat := {[ "name" := VStr "root" ]};
     2%nat := {[ "id" := VNum 2; "name" := VStr "leaf"; "parent" := VRef 1%nat ]} ]}.

(** The entity has no parent at all. *)
Definition noParent : Heap :=
  {[ 2%nat := {[ "name" := VStr "leaf" ]} ]}.

Definition rootRow : WebsqlQueryRunner.ClosureRow :=
  {| WebsqlQueryRunner.ancestor := 1; WebsqlQueryRunner.descendant := 1;
     WebsqlQueryRunner.level := Some 1 |}.

Definition tree (h : Heap) (referenced : ColumnMetadata) : World WebsqlQueryRunner.State :=
  worldOf h [child referenced]
          (connection true {[ "category_closure" := [rootRow] ]} []) 2000
           [0%nat] [0%nat] [] [].

(** *** A many-to-many relation: Post.categories *)

Definition postCategories : EntityMetadata :=
  plain "post_categories" "post_categories" [column "postId"; column "categoryId"] [].

Definition categories (owning : bool) : RelationMetadata :=
  relationOf "categories" owning true None
             (Some {| joinTable_referencedColumn := column "id";
                      joinTable_inverseReferencedColumn := column "id" |})
             (plain "Category" "category" [column "id"] [column "id"])
             (Some postCategories).

(** The inverse side of [categories]: Category.posts. *)
Definition posts : RelationMetadata :=
  {| relation_name := "posts"; relation_propertyName := "posts";
     relation_target := ""; relation_entityTarget := "";
     isOwning := false; isManyToManyOwner := false; isManyToManyNotOwner := true;
     joinColumn := None; joinTable := None;
     inverseEntityMetadata := plain "Post" "post" [column "id"] [column "id"];
     inverseRelation := Some (categories true);
     junctionEntityMetadata := Some postCategories |}.

Definition linked : Heap :=
  {[ 1%nat := {[ "id" := VNum 10 ]};
     2%nat := {[ "id" := VNum 20 ]};
     3%nat := {[ "id" := VNum 30 ]} ]}.

(** The third entity was never persisted. *)
Definition halfLinked : Heap :=
  {[ 1%nat := {[ "id" := VNum 10 ]};
     2%nat := {[ "id" := VNum 20 ]};
     3%nat := ∅ ]}.

(** The post 1 is linked to the categories 2 and 3. *)
Definition linking : JunctionInsert :=
  {| junctionInsert_relation := categories true;
     junctionEntities := [VRef 2%nat; VRef 3%nat] |}.

Definition linker : Subject :=
  subjectOf (plain "Post" "post" [column "id"] [column "id"]) (Some 1%nat) (Some 1%nat)
            (VDate 1000) false false false [] [linking] VUndefined.

Definition junction (h : Heap) : World WebsqlQueryRunner.State :=
  worldOf h [linker] (connection true ∅ []) 2000 [0%nat] [] [] [].

(** The category 2 is linked to the post 1, from the inverse side. *)
Definition linkingBack : JunctionInsert :=
  {| junctionInsert_relation := posts; junctionEntities := [VRef 1%nat] |}.

Definition linkerBack : Subject :=
  subjectOf (plain "Category" "category" [column "id"] [column "id"]) (Some 2%nat)
            (Some 2%nat) (VDate 1000) false false false [] [linkingBack] VUndefined.

Definition junctionBack : World WebsqlQueryRunner.State :=
  worldOf linked [linkerBack] (connection true ∅ []) 2000 [0%nat] [] [] [].

(** *** A many-to-many relation between entities of one batch: Article.tags *)

Definition articleTags : EntityMetadata :=
  plain "article_tags" "article_tags" [column "articleId"; column "tagId"] [].

Definition tagsTable : JoinTableMetadata :=
  {| joinTable_referencedColumn := generated "id";
     joinTable_inverseReferencedColumn := generated "id" |}.

Definition tags : RelationMetadata :=
  {| relation_name := "tags"; relation_propertyName := "tags";
     relation_target := ""; relation_entityTarget := "";
     isOwning := true; isManyToManyOwner := true; isManyToManyNotOwner := false;
     joinColumn := None; joinTable := Some tagsTable;
     inverseEntityMetadata := plain "Tag" "tag" [generated "id"] [generated "id"];
     inverseRelation := None;
     junctionEntityMetadata := Some articleTags |}.

(** The article 1 and the tag 2 are new and carry no id; the tag 3 is
    persisted. *)
Definition drafted : Heap :=
  {[ 1%nat := {[ "title" := VStr "first" ]};
     2%nat := {[ "name" := VStr "new" ]};
     3%nat := {[ "id" := VNum 30; "name" := VStr "old" ]} ]}.

Definition tagging : JunctionInsert :=
  {| junctionInsert_relation := tags; junctionEntities := [VRef 2%nat; VRef 3%nat] |}.

(** The inserts of the article and of the new tag generated the ids 10 and
    20. *)
Definition tagger : Subject :=
  subjectOf (plain "Article" "article" [generated "id"] [generated "id"]) (Some 1%nat) None
            (VDate 1000) true false false [] [tagging] (VNum 10).

Definition newTag : Subject :=
  subjectOf (plain "Tag" "tag" [generated "id"] [generated "id"]) (Some 2%nat) None
            (VDate 1000) true false false [] [] (VNum 20).

Definition taggingWorld : World WebsqlQueryRunner.State :=
  worldOf drafted [tagger; newTag] (connection true ∅ []) 2000
          [0%nat; 1%nat] [0%nat; 1%nat] [] [].

(** *** A two-entity batch: a Question that requires its Topic *)

Definition topic : EntityMetadata :=
  amend (plain "Topic" "topic" [column "id"; column "name"] [column "id"])
        (tableOf "topic" false false) None [] false
        (Some (generated "id")) None None None [] None None None.

Definition topicOf : RelationMetadata :=
  relationOf "topic" true false
             (Some {| joinColumn_name := "topic"; joinColumn_referencedColumn := generated "id" |})
             None topic None.

Definition question : EntityMetadata :=
  amend (plain "Question" "question" [column "id"; column "title"] [column "id"])
        (tableOf "question" false false) None [] true
        (Some (generated "id")) None None None [topicOf] None None None.

Definition batchHeap : Heap :=
  {[ 1%nat := {[ "title" := VStr "why"; "topic" := VRef 2%nat ]};
     2%nat := {[ "name" := VStr "rocq" ]} ]}.

Definition batch : list Subject :=
  [ subjectOf question (Some 1%nat) None (VDate 1000) true false false [] [] VUndefined;
    subjectOf topic (Some 2%nat) None (VDate 1000) true false false [] [] VUndefined ].

(** The world before [execute], with the connection's transaction state and
    the replies of the engine. *)
Definition before (h : Heap) (transactionActive : bool) (replies' : list WebsqlQueryRunner.Reply) :
    World WebsqlQueryRunner.State :=
  worldOf h [] (connection transactionActive ∅ replies') 2000 [] [] [] [].

Definition plainCollaborators : Collaborators :=
  collaborators [person; student; post; topic; question] (Ok tt).

(** The same, with a subscriber of the "after" events that fails. *)
Definition failingSubscriber : Collaborators :=
  collaborators [person; student; post; topic; question] (Err (Rejected (VStr "subscriber"))).

(** *** Further samples *)

(** A subject with nothing to do. *)
Definition idle : Subject :=
  subjectOf post (Some 1%nat) (Some 1%nat) (VDate 1000) false false false [] [] VUndefined.

(** A subject that is to be inserted and removed at once. *)
Definition contradictory : Subject :=
  subjectOf post (Some 1%nat) (Some 1%nat) (VDate 1000) true false true [] [] VUndefined.

(** Collaborators that know no metadata, with the provider and the
    validation given. *)
Definition standIn (provide' : Res unit) (validate' : Subject → Res unit) : Collaborators :=
  {| provide := provide';
     broadcastBeforeEventsForAll := λ _ _ _ h, (Ok tt, h);
     broadcastAfterEventsForAll := λ _ _ _ h, (Ok tt, h);
     preparePersistentValue := λ v _, v;
     getMetadata := λ _, Err TypeError;
     validate := validate';
     recompute := λ _ s, s;
     column_hasEntityValue := λ _ _ _, Ok false;
     column_getEntityValue := λ c h e, property h e (column_propertyName c);
     relation_getEntityValue := λ r h e, property h e (relation_propertyName r);
     getInverseEntityRelationId := λ _ _ _, Ok VUndefined;
     getOwnEntityRelationId := λ _ _ _, Ok VUndefined;
     getDatabaseEntityIdMap := idMap;
     getEntityIdColumnMap := idMap;
     extractRelationValuesFromEntity := λ _ _ _ _, Ok [];
     constructorName := λ _ _, "Object" |}.

(** The validation rejects a subject that is to be inserted and removed at
    once. *)
Definition checking : Collaborators :=
  standIn (Ok tt)
          (λ s, if mustBeInserted s && mustBeRemoved s
                then Err (Thrown "Removed entity is also scheduled for insert.")
                else Ok tt).

(** The provider has no query runner to give. *)
Definition offline : Collaborators :=
  standIn (Err (Thrown "No connection is available.")) (λ _, Ok tt).

(** A released connection. *)
Definition released : WebsqlQueryRunner.State :=
  {| WebsqlQueryRunner.isReleased := true;
     WebsqlQueryRunner.isTransactionActive := false;
     WebsqlQueryRunner.closureTables := ∅;
     WebsqlQueryRunner.replies := [] |}.

(** The post 1 is no longer linked to the categories 20 and 30. *)
Definition unlinking : JunctionRemove :=
  {| junctionRemove_relation := categories true;
     junctionRelationIds := [VNum 20; VNum 30] |}.

Definition unlinker : Subject :=
  {| metadata := plain "Post" "post" [column "id"] [column "id"];
     entity := Some 1%nat; databaseEntity := Some 1%nat;
     entityTarget := "Post"; date := VDate 1000;
     mustBeInserted := false; mustBeUpdated := false; mustBeRemoved := false;
     hasRelationUpdates := false;
     diffColumns := []; diffRelations := []; relationUpdates := [];
     junctionInserts := []; junctionRemoves := [unlinking];
     newlyGeneratedId := VUndefined; generatedObjectId := VUndefined;
     parentGeneratedId := VUndefined; treeLevel := VUndefined |}.

(** The engine rejects the first delete and accepts the second one. *)
Definition unlinkingWorld : World WebsqlQueryRunner.State :=
  worldOf linked [unlinker]
          (connection true ∅ [WebsqlQueryRunner.Failed (VStr "locked");
                              WebsqlQueryRunner.Done VUndefined])
          2000 [0%nat] [] [] [].

(** A person loaded from the database is removed. *)
Definition dismissal : World WebsqlQueryRunner.State :=
  worldOf studentRow
          [subjectOf person (Some 1%nat) (Some 1%nat) (VDate 1000) false false true [] []
                     VUndefined]
          (connection true ∅ []) 2000 [0%nat] [] [] [0%nat].

(** A new student, a class-table child of Person, is inserted. *)
Definition newStudent : Heap := {[ 1%nat := {[ "grade" := VNum 3 ]} ]}.

Definition enrolment : World WebsqlQueryRunner.State :=
  worldOf newStudent
          [subjectOf student (Some 1%nat) None (VDate 1000) true false false [] [] VUndefined]
          (connection true ∅ []) 2000 [0%nat] [0%nat] [] [].

(** The question 1 is bound to the topic 2. *)
Definition answered : Heap :=
  {[ 1%nat := {[ "id" := VNum 3; "title" := VStr "why" ]};
     2%nat := {[ "id" := VNum 5; "name" := VStr "rocq" ]} ]}.

Definition rebinding : Subject :=
  {| metadata := question; entity := Some 1%nat; databaseEntity := Some 1%nat;
     entityTarget := "Question"; date := VDate 1000;
     mustBeInserted := false; mustBeUpdated := false; mustBeRemoved := false;
     hasRelationUpdates := true;
     diffColumns := []; diffRelations := [];
     relationUpdates := [ {| relationUpdate_relation := topicOf;
                             relationUpdate_value := VRef 2%nat |} ];
     junctionInserts := []; junctionRemoves := [];
     newlyGeneratedId := VUndefined; generatedObjectId := VUndefined;
     parentGeneratedId := VUndefined; treeLevel := VUndefined |}.

Definition rebindingWorld : World WebsqlQueryRunner.State :=
  worldOf answered [rebinding] (connection true ∅ []) 2000 [0%nat] [] [] [].

End Sample.

Import SubjectOperationExecutor Frame.

Section FrameRules.
Context {Q : Type} `{!QueryRunner Q} `{!Collaborators}.
Context (R : relation (World Q)) `{!PreOrder R}.

Lemma preserves_pure {A} (f : World Q → Res A) : preserves R (λ w, (f w, w)).
Proof. intros w. simpl. reflexivity. Qed.

Lemma preserves_ret {A} (a : A) : preserves R (mret a : M Q A).
Proof. apply (preserves_pure (λ _, Ok a)). Qed.

Lemma preserves_throw {A} e : preserves R (throw e : M Q A).
Proof. apply (preserves_pure (λ _, Err e)). Qed.

Lemma preserves_lift {A} (r : Res A) : preserves R (lift r : M Q A).
Proof. apply (preserves_pure (λ _, r)). Qed.

Lemma preserves_some {A} (o : option A) : preserves R (some o : M Q A).
Proof. destruct o; [apply preserves_ret | apply preserves_throw]. Qed.

Lemma preserves_world : preserves R (world : M Q _).
Proof. apply (preserves_pure (λ w, Ok w)). Qed.

Lemma preserves_heap : preserves R (heap : M Q _).
Proof. apply (preserves_pure (λ w, Ok (entities w))). Qed.

Lemma preserves_get v p : preserves R (get v p : M Q _).
Proof. apply (preserves_pure (λ w, property (entities w) v p)). Qed.

Lemma preserves_newDate : preserves R (newDate : M Q _).
Proof. apply (preserves_pure (λ w, Ok (VDate (clock w)))). Qed.

Lemma preserves_deref i : preserves R (deref i : M Q _).
Proof.
  apply (preserves_pure
           (λ w, match subjects w !! i with Some s => Ok s | None => Err TypeError end)).
Qed.

Lemma preserves_Promise_all {A} (ps : list (Promise A)) : preserves R (Promise_all ps : M Q _).
Proof. apply preserves_lift. Qed.

Lemma preserves_bind {A B} (m : M Q A) (f : A → M Q B) :
  preserves R m → (∀ a, preserves R (f a)) → preserves R (m ≫= f).
Proof.
  intros Hm Hf w. specialize (Hm w). unfold mbind, M_bind.
  destruct (m w) as [[a|e] w']; simpl in *; [|done].
  etransitivity; [exact Hm | apply Hf].
Qed.

Lemma preserves_try_catch {A} (m : M Q A) (f : Error → M Q A) :
  preserves R m → (∀ e, preserves R (f e)) → preserves R (try_catch m f).
Proof.
  intros Hm Hf w. specialize (Hm w). unfold try_catch.
  destruct (m w) as [[a|e] w']; simpl in *; [done|].
  etransitivity; [exact Hm | apply Hf].
Qed.

Lemma preserves_async {A} (m : M Q A) : preserves R m → preserves R (async m).
Proof. intros Hm w. specialize (Hm w). unfold async. by destruct (m w). Qed.

Lemma preserves_forEach {A} (f : A → M Q unit) l :
  (∀ a, preserves R (f a)) → preserves R (forEach f l).
Proof.
  intros Hf. induction l; simpl; [apply preserves_ret|].
  apply preserves_bind; auto.
Qed.

Lemma preserves_mapM {A B} (f : A → M Q B) l :
  (∀ a, preserves R (f a)) → preserves R (mapM f l).
Proof.
  intros Hf. induction l; simpl; [apply preserves_ret|].
  apply preserves_bind; [auto|]. intros b.
  apply preserves_bind; [auto|]. intros bs. apply preserves_ret.
Qed.

Lemma preserves_foldM {A S} (f : S → A → M Q S) l s :
  (∀ s a, preserves R (f s a)) → preserves R (foldM f l s).
Proof.
  intros Hf. revert s. induction l; intros s; simpl; [apply preserves_ret|].
  apply preserves_bind; auto.
Qed.

Lemma preserves_findM {A} (p : A → M Q bool) l :
  (∀ a, preserves R (p a)) → preserves R (findM p l).
Proof.
  intros Hp. induction l; simpl; [apply preserves_ret|].
  apply preserves_bind; [auto|]. intros []; [apply preserves_ret | auto].
Qed.

Lemma preserves_filterM {A} (p : A → M Q bool) l :
  (∀ a, preserves R (p a)) → preserves R (filterM p l).
Proof.
  intros Hp. induction l; simpl; [apply preserves_ret|].
  apply preserves_bind; [auto|]. intros b.
  apply preserves_bind; [auto|]. intros bs. apply preserves_ret.
Qed.

Lemma preserves_runInSequence {A} (f : A → M Q unit) l :
  (∀ a, preserves R (f a)) → preserves R (runInSequence l f).
Proof. apply preserves_forEach. Qed.

Lemma preserves_modify_subject `{!IgnoresSubjects R} i f :
  preserves R (modify_subject i f).
Proof. intros w. apply ignores_subjects. Qed.

Lemma preserves_set `{!IgnoresEntities R} o p v : preserves R (set o p v).
Proof. destruct o; [|apply preserves_throw]. intros w. apply ignores_entities. Qed.

Lemma preserves_call `{!IgnoresRunner R} (P : Event → Prop) `{!IgnoresEvents P R}
    {A} e (f : Q → Res A * Q) :
  P e → preserves R (call e f).
Proof.
  intros He w. unfold call. destruct (f (runner w)) as [r q]. simpl.
  etransitivity; [by apply (ignores_event e) | apply ignores_runner].
Qed.

#[global] Instance ignores_runner_statements `{!IgnoresRunner R} : IgnoresStatements R.
Proof. intros q w _. apply ignores_runner. Qed.

Lemma preserves_statement `{!IgnoresStatements R} (P : Event → Prop) `{!IgnoresEvents P R}
    {A} e (f : Q → Res A * Q) :
  (∀ q, statement q (f q).2) → P e → preserves R (call e f).
Proof.
  intros Hf He w. unfold call. specialize (Hf (runner w)).
  destruct (f (runner w)) as [r q]. simpl in *.
  etransitivity; [by apply (ignores_event e) | by apply ignores_statement].
Qed.

Lemma preserves_prepare (P : Event → Prop) `{!IgnoresEvents P R} v c :
  P (EPreparePersistentValue v c) → preserves R (driver_preparePersistentValue v c).
Proof. intros He w. by apply (ignores_event _). Qed.

End FrameRules.

Create HintDb frame.

(** A statement sent to the query runner: an update, or any operation. *)
Ltac frame_call :=
  first [ apply (preserves_statement _ isUpdate); [tc_solve .. | intros ?; constructor | exact I]
        | apply (preserves_statement _ operation); [tc_solve .. | intros ?; constructor | exact I] ].

(** One step of a frame proof: the rule of the combinator at the head. *)
Ltac frame_step :=
  lazy zeta;
  lazymatch goal with
  | |- preserves _ (mbind _ _) => apply preserves_bind; try tc_solve; [| intros ?]
  | |- preserves _ (mret _) => apply preserves_ret; tc_solve
  | |- preserves _ (throw _) => apply preserves_throw; tc_solve
  | |- preserves _ (lift _) => apply preserves_lift; tc_solve
  | |- preserves _ (some _) => apply preserves_some; tc_solve
  | |- preserves _ world => apply preserves_world; tc_solve
  | |- preserves _ heap => apply preserves_heap; tc_solve
  | |- preserves _ (get _ _) => apply preserves_get; tc_solve
  | |- preserves _ newDate => apply preserves_newDate; tc_solve
  | |- preserves _ (deref _) => apply preserves_deref; tc_solve
  | |- preserves _ (Promise_all _) => apply preserves_Promise_all; tc_solve
  | |- preserves _ (async _) => apply preserves_async; try tc_solve
  | |- preserves _ (try_catch _ _) => apply preserves_try_catch; try tc_solve; [| intros ?]
  | |- preserves _ (forEach _ _) => apply preserves_forEach; try tc_solve; intros ?
  | |- preserves _ (runInSequence _ _) => apply preserves_runInSequence; try tc_solve; intros ?
  | |- preserves _ (mapM _ _) => apply preserves_mapM; try tc_solve; intros ?
  | |- preserves _ (foldM _ _ _) => apply preserves_foldM; try tc_solve; intros ? ?
  | |- preserves _ (findM _ _) => apply preserves_findM; try tc_solve; intros ?
  | |- preserves _ (filterM _ _) => apply preserves_filterM; try tc_solve; intros ?
  | |- preserves _ (modify_subject _ _) => apply preserves_modify_subject; tc_solve
  | |- preserves _ (set _ _ _) => apply preserves_set; tc_solve
  | |- preserves _ (match ?x with _ => _ end) => destruct x
  | |- preserves _ (queryRunner_insert _ _ _) => frame_call
  | |- preserves _ (queryRunner_update _ _ _) => frame_call
  | |- preserves _ (queryRunner_delete _ _) => frame_call
  | |- preserves _ (queryRunner_insertIntoClosureTable _ _ _ _) => frame_call
  | |- preserves _ (driver_preparePersistentValue _ _) =>
      apply (preserves_prepare _ isPrepare); [tc_solve .. | exact I]
  | |- preserves _ _ => solve [eauto with frame typeclass_instances]
  end.

Ltac frame := repeat frame_step.

Section Updates.
Context {Q : Type} `{!QueryRunner Q} `{!Collaborators}.
Context (R : relation (World Q)) `{!PreOrder R}.
Context `{!IgnoresStatements R} `{!IgnoresEvents isUpdate R}.

Lemma preserves_updateOptionOf s o r : preserves R (updateOptionOf s o r).
Proof. unfold updateOptionOf, specialValue. frame. Qed.

Lemma preserves_conditionThroughJoinColumn v j c o :
  preserves R (conditionThroughJoinColumn v j c o).
Proof. unfold conditionThroughJoinColumn. frame. Qed.
Hint Resolve preserves_conditionThroughJoinColumn : frame.

Lemma preserves_ownConditions i : preserves R (ownConditions i).
Proof. unfold ownConditions. frame. Qed.

Lemma preserves_inverseConditions v m : preserves R (inverseConditions v m).
Proof. unfold inverseConditions. frame. Qed.
Hint Resolve preserves_updateOptionOf preserves_ownConditions preserves_inverseConditions : frame.

Lemma preserves_updateInverseSide i ps item : preserves R (updateInverseSide i ps item).
Proof. unfold updateInverseSide. frame. Qed.
Hint Resolve preserves_updateInverseSide : frame.

Lemma preserves_updateRelationIds ps i : preserves R (updateRelationIds ps i).
Proof. unfold updateRelationIds. frame. Qed.

End Updates.

#[global] Hint Resolve preserves_updateRelationIds : frame.

(** Induction on an embedded metadata and on the embeddeds nested in it. *)
Lemma EmbeddedMetadata_nested_ind (P : EmbeddedMetadata → Prop) :
  (∀ e, Forall P (embedded_embeddeds e) → P e) → ∀ e, P e.
Proof.
  intros step. fix IH 1. intros [name array cols nested]. apply step. simpl.
  induction nested as [|e nested IHn]; constructor; [apply IH | apply IHn].
Qed.

Section Prepares.
Context {Q : Type} `{!QueryRunner Q} `{!Collaborators}.
Context (R : relation (World Q)) `{!PreOrder R} `{!IgnoresEvents isPrepare R}.

Lemma preserves_updateSpecialColumns m e v : preserves R (updateSpecialColumns m e v).
Proof. unfold updateSpecialColumns. frame. Qed.
Hint Resolve preserves_updateSpecialColumns : frame.

Lemma preserves_collectFromEmbedded embedded :
  ∀ entity c, preserves R (collectFromEmbedded entity embedded c).
Proof.
  induction embedded as [embedded IH] using EmbeddedMetadata_nested_ind.
  intros entity c. destruct embedded as [name array cols nested]. simpl in *.
  apply preserves_bind; try tc_solve; [frame|]. intros value.
  destruct (negb (truthy value)); [frame|].
  apply preserves_bind; try tc_solve; [frame|]. intros c0.
  generalize c0. induction IH as [|e rest He _ IHrest]; intros c'; [frame|].
  apply preserves_bind; try tc_solve; [apply He|]. intros c''. apply IHrest.
Qed.
Hint Resolve preserves_collectFromEmbedded : frame.

Lemma preserves_relationValueOf r e a : preserves R (relationValueOf r e a).
Proof. unfold relationValueOf. frame. Qed.
Hint Resolve preserves_relationValueOf : frame.

Lemma preserves_collectColumnsAndValues m e d p v a :
  preserves R (collectColumnsAndValues m e d p v a).
Proof. unfold collectColumnsAndValues, collectFromEmbeddeds. frame. Qed.
Hint Resolve preserves_collectColumnsAndValues : frame.

End Prepares.

#[global] Hint Resolve preserves_updateSpecialColumns preserves_collectColumnsAndValues : frame.

Section Operations.
Context {Q : Type} `{!QueryRunner Q} `{!Collaborators}.
Context (R : relation (World Q)) `{!PreOrder R}.
Context `{!IgnoresStatements R} `{!IgnoresSubjects R} `{!IgnoresEvents operation R}.

#[local] Instance ignores_updates : IgnoresEvents isUpdate R.
Proof. intros e w He. apply ignores_event. by destruct e. Qed.

#[local] Instance ignores_prepares : IgnoresEvents isPrepare R.
Proof. intros e w He. apply (ignores_event (P := operation)). by destruct e. Qed.

Lemma preserves_remove i : preserves R (remove i).
Proof. unfold remove, conditionsFrom. frame. Qed.

Lemma preserves_update i : preserves R (update i).
Proof. unfold update. frame. Qed.

Lemma preserves_updateRelations i : preserves R (updateRelations i).
Proof. unfold updateRelations. frame. Qed.

Lemma preserves_insertJunction r c id e : preserves R (insertJunction r c id e).
Proof. unfold insertJunction, constructor_name. frame. Qed.
Hint Resolve preserves_insertJunction : frame.

Lemma preserves_insertJunctions i j : preserves R (insertJunctions i j).
Proof. unfold insertJunctions. frame. Qed.

Lemma preserves_removeJunctions i j : preserves R (removeJunctions i j).
Proof. unfold removeJunctions. frame. Qed.

Lemma preserves_insertClosureTableValues i : preserves R (insertClosureTableValues i).
Proof. unfold insertClosureTableValues. frame. Qed.

Lemma preserves_insert i a : preserves R (insert i a).
Proof. unfold insert. frame. Qed.
Hint Resolve preserves_remove preserves_update preserves_updateRelations
  preserves_insertJunctions preserves_removeJunctions preserves_insertClosureTableValues
  preserves_insert : frame.

Lemma preserves_executeInsertOperations : preserves R executeInsertOperations.
Proof. unfold executeInsertOperations. frame. Qed.

Lemma preserves_executeOperations : preserves R executeOperations.
Proof.
  pose proof preserves_executeInsertOperations.
  unfold executeOperations, executeInsertClosureTableOperations,
    executeInsertJunctionsOperations, executeRemoveJunctionsOperations,
    executeUpdateOperations, executeUpdateRelations, executeRemoveOperations.
  frame.
Qed.

End Operations.


(** ** Running a computation step by step *)

Section Running.
Context {Q : Type} `{!QueryRunner Q} `{!Collaborators}.
Implicit Types w : World Q.

Lemma run_bind {A B} (m : M Q A) (f : A → M Q B) w :
  (m ≫= f) w = match m w with
               | (Ok a, w') => f a w'
               | (Err e, w') => (Err e, w')
               end.
Proof. reflexivity. Qed.

Lemma run_bind_ok {A B} (m : M Q A) (f : A → M Q B) w a w' :
  m w = (Ok a, w') → (m ≫= f) w = f a w'.
Proof. intros E. by rewrite run_bind, E. Qed.

Lemma run_bind_err {A B} (m : M Q A) (f : A → M Q B) w e w' :
  m w = (Err e, w') → (m ≫= f) w = (Err e, w').
Proof. intros E. by rewrite run_bind, E. Qed.

Lemma run_deref w i s : subjects w !! i = Some s → deref i w = (Ok s, w).
Proof. intros E. unfold deref. by rewrite E. Qed.

Lemma run_deref_bind {B} w i s (f : Subject → M Q B) :
  subjects w !! i = Some s → (deref i ≫= f) w = f s w.
Proof. intros E. apply run_bind_ok, run_deref, E. Qed.

Lemma run_some_bind {A B} w (o : option A) a (f : A → M Q B) :
  o = Some a → (some o ≫= f) w = f a w.
Proof. by intros ->. Qed.

Lemma run_lift_bind {A B} w (r : Res A) a (f : A → M Q B) :
  r = Ok a → (lift r ≫= f) w = f a w.
Proof. by intros ->. Qed.

Lemma run_ret_bind {A B} w (a : A) (f : A → M Q B) : (mret a ≫= f) w = f a w.
Proof. done. Qed.

Lemma run_modify_bind {B} w (g : World Q → World Q) (f : unit → M Q B) :
  (modify g ≫= f) w = f tt (g w).
Proof. done. Qed.

Lemma run_world_bind {B} w (f : World Q → M Q B) : (world ≫= f) w = f w w.
Proof. done. Qed.

Lemma run_heap_bind {B} w (f : Heap → M Q B) : (heap ≫= f) w = f (entities w) w.
Proof. done. Qed.

Lemma run_conditionsFrom_acc w l columns' acc :
  foldM (λ conditions column,
           v ← get (VRef l) (column_propertyName column);
           mret (obj_set (column_fullName column) v conditions)) columns' acc w
  = (Ok (fold_left (λ conditions column,
                      obj_set (column_fullName column)
                        (default VUndefined
                           (entities w !! l ≫= (λ o : Obj, o !! column_propertyName column)))
                        conditions) columns' acc), w).
Proof.
  revert acc. induction columns' as [|c cs IH]; intros acc; [done|].
  simpl. rewrite run_bind. simpl. apply IH.
Qed.

Lemma run_conditionsFrom w l columns' :
  conditionsFrom (VRef l) columns' w = (Ok (Reading.conditionsOf (entities w) l columns'), w).
Proof. apply run_conditionsFrom_acc. Qed.

End Running.

(** ** Removal *)

Section Removal.
Context {Q : Type} `{!QueryRunner Q} `{!Collaborators}.
Implicit Types w : World Q.

(** C2, as amended.  A remove subject with parent metadata has its
    parent-table row deleted first, keyed by the parent primary columns, and
    then, when that delete has succeeded, its child-table row, keyed by the
    primary columns with the parent id columns; both keys are read from the
    database snapshot.  A subject without parent metadata has one delete
    issued against its own table, keyed by the id map of the snapshot. *)
Theorem remove_deletes_parent_then_child w i s l :
  subjects w !! i = Some s →
  databaseEntity s = Some l →
  match parentEntityMetadata (metadata s) with
  | Some parent =>
      let parentConditions :=
        Reading.conditionsOf (entities w) l (parentPrimaryColumns (metadata s)) in
      let childConditions :=
        Reading.conditionsOf (entities w) l (primaryColumnsWithParentIdColumns (metadata s)) in
      added w (remove i w).2
        (EDelete (table_name (table parent)) (Some parentConditions) ::
         if is_ok (runner_delete (table_name (table parent)) (Some parentConditions)
                                 (runner w)).1
         then [EDelete (table_name (table (metadata s))) (Some childConditions)]
         else [])
  | None =>
      ∀ idMap, getEntityIdColumnMap (metadata s) (entities w) (VRef l) = Ok idMap →
      added w (remove i w).2 [EDelete (table_name (table (metadata s))) idMap]
  end.
Proof.
  intros Hs Hl. unfold remove, added.
  rewrite (run_bind_ok _ _ _ _ _ (run_deref _ _ _ Hs)), Hl. simpl.
  destruct (parentEntityMetadata (metadata s)) as [parent|].
  - rewrite (run_bind_ok _ _ _ _ _ (run_conditionsFrom _ _ _)).
    rewrite run_bind. unfold queryRunner_delete at 1, call at 1.
    destruct (runner_delete _ _ (runner w)) as [[[]|e] q]; simpl; [|done].
    rewrite (run_bind_ok _ _ _ _ _ (run_conditionsFrom _ _ _)). simpl.
    unfold queryRunner_delete, call. simpl.
    destruct (runner_delete _ _ q) as [r q']. simpl. by rewrite <- app_assoc.
  - intros idMap HidMap. rewrite run_bind. simpl. unfold lift.
    rewrite run_bind, HidMap. unfold queryRunner_delete, call.
    by destruct (runner_delete _ _ (runner w)).
Qed.

End Removal.


(** ** Update *)

Section Update.
Context {Q : Type} `{!QueryRunner Q} `{!Collaborators}.
Implicit Types w : World Q.

Lemma run_update_columns_without_target w (entity' : Value) columns' valueMaps :
  Forall (λ column, column_entityTarget column = None) columns' →
  foldM (λ valueMaps column,
           match column_entityTarget column with
           | None => mret valueMaps
           | Some entityTarget' =>
               metadata' ← lift (getMetadata entityTarget');
               h ← heap;
               raw ← lift (column_getEntityValue column h entity');
               value ← driver_preparePersistentValue raw column;
               mret (setValue (table_name (table metadata')) metadata'
                              (column_fullName column) value valueMaps)
           end) columns' valueMaps w
  = (Ok valueMaps, w).
Proof.
  induction 1 as [|c cs Hc _ IH]; [done|].
  simpl. rewrite Hc, run_bind. simpl. apply IH.
Qed.

(** C8, as amended.  An update subject whose diffed columns (those with an
    entity target) and diffed relations produce no value to write has no
    statement issued at all, whether or not its metadata has a version or an
    update-timestamp column: the computation returns and leaves the world as
    it was. *)
Theorem update_without_diffs_issues_nothing w i s :
  subjects w !! i = Some s →
  Forall (λ column, column_entityTarget column = None) (diffColumns s) →
  diffRelations s = [] →
  update i w = (Ok tt, w).
Proof.
  intros Hs Hcolumns Hrelations. unfold update.
  rewrite (run_bind_ok _ _ _ _ _ (run_deref _ _ _ Hs)). lazy zeta.
  rewrite (run_bind_ok _ _ _ _ _ (run_update_columns_without_target _ _ _ _ Hcolumns)).
  by rewrite Hrelations.
Qed.

End Update.

(** ** The entry point *)

Section Entry.
Context {Q : Type} `{!QueryRunner Q} `{!Collaborators}.
Implicit Types w : World Q.

(** C9.  [execute] on an empty list of subjects returns without a single
    collaborator call: the trace, the query runner (so no transaction was
    opened or committed) and the entities are as before. *)
Theorem execute_empty_is_silent w :
  (execute [] w).1 = Ok tt
  ∧ trace (execute [] w).2 = trace w
  ∧ runner (execute [] w).2 = runner w
  ∧ entities (execute [] w).2 = entities w.
Proof. done. Qed.

End Entry.


(** ** The trace only grows *)

Section Only.
Context {Q : Type} `{!QueryRunner Q} `{!Collaborators}.
Implicit Types w : World Q.

#[global] Instance only_preorder (P : Event → Prop) : PreOrder (only (Q := Q) P).
Proof.
  split.
  - intros w. split; [done|]. exists []. split; [|done]. unfold added. by rewrite app_nil_r.
  - intros w1 w2 w3 (Hf1 & e1 & Ha1 & HP1) (Hf2 & e2 & Ha2 & HP2).
    split; [congruence|]. exists (e1 ++ e2). unfold added in *.
    split; [by rewrite Ha2, Ha1, app_assoc | by apply Forall_app].
Qed.

#[global] Instance only_ignores_runner (P : Event → Prop) : IgnoresRunner (only (Q := Q) P).
Proof.
  intros q w. split; [done|]. exists []. split; [|done]. unfold added. simpl.
  by rewrite app_nil_r.
Qed.

#[global] Instance only_ignores_subjects (P : Event → Prop) : IgnoresSubjects (only (Q := Q) P).
Proof.
  intros l w. split; [done|]. exists []. split; [|done]. unfold added. simpl.
  by rewrite app_nil_r.
Qed.

#[global] Instance only_ignores_entities (P : Event → Prop) : IgnoresEntities (only (Q := Q) P).
Proof.
  intros h w. split; [done|]. exists []. split; [|done]. unfold added. simpl.
  by rewrite app_nil_r.
Qed.

Lemma only_ignores (P' P : Event → Prop) :
  (∀ e, P' e → P e) → IgnoresEvents P' (only (Q := Q) P).
Proof.
  intros Himpl e w He. split; [done|]. exists [e]. split; [done|].
  constructor; [by apply Himpl | done].
Qed.

#[global] Instance only_operation_ignores_operation :
  IgnoresEvents operation (only (Q := Q) operation).
Proof. by apply only_ignores. Qed.

#[global] Instance only_update_ignores_update :
  IgnoresEvents isUpdate (only (Q := Q) isUpdate).
Proof. by apply only_ignores. Qed.

#[global] Instance sameEntities_preorder : PreOrder (sameEntities (Q := Q)).
Proof. split; [done|]. intros w1 w2 w3. unfold sameEntities. congruence. Qed.

#[global] Instance sameEntities_ignores_runner : IgnoresRunner (sameEntities (Q := Q)).
Proof. done. Qed.

#[global] Instance sameEntities_ignores_subjects : IgnoresSubjects (sameEntities (Q := Q)).
Proof. done. Qed.

#[global] Instance sameEntities_ignores_operation :
  IgnoresEvents operation (sameEntities (Q := Q)).
Proof. done. Qed.

End Only.

(** ** Closure tables *)

Section Closure.
Context {Q : Type} `{!QueryRunner Q}.
Implicit Types w : World Q.

Lemma findR_holdsAsChild_none (h : Heap) (store : list Subject) s l :
  Forall (λ j, ∃ a, store !! j = Some a ∧ holdsAsChild h s a = Ok false) l →
  findR (λ j, allSubject ← required (store !! j); holdsAsChild h s allSubject) l = Ok None.
Proof.
  induction 1 as [|j l (a & Ha & Hc) _ IH]; [done|].
  simpl. rewrite Ha. simpl. unfold mbind, Res_bind at 1. rewrite Hc. exact IH.
Qed.

Lemma closureParentId_without_parent (h : Heap) store ins all s treeParent referencedColumn
    parent :
  property h (entityOf s) (relation_propertyName treeParent) = Ok parent →
  truthy parent = false →
  Forall (λ j, ∃ a, store !! j = Some a ∧ holdsAsChild h s a = Ok false) all →
  closureParentId h store ins all s treeParent referencedColumn = Ok (VNum 0).
Proof.
  intros Hparent Hfalsy Hscan. unfold closureParentId.
  rewrite (findR_holdsAsChild_none _ _ _ _ Hscan).
  unfold mbind, Res_bind, mret, Res_ret.
  by rewrite Hparent, Hfalsy.
Qed.


(** C10, as amended.  When the entity of a tree subject has no parent (its
    parent property is falsy) and no subject of the batch holds the entity
    among its children, the closure-table insert is issued with parent id 0,
    so that the self-referencing row is created. *)
Theorem closure_insert_without_parent_uses_zero w i s closure treeParent parentJoin
    newEntityId parent :
  subjects w !! i = Some s →
  closureJunctionTable (metadata s) = Some closure →
  treeParentRelation (metadata s) = Some treeParent →
  joinColumn treeParent = Some parentJoin →
  closureNewEntityId (entities w) s (joinColumn_referencedColumn parentJoin) = Ok newEntityId →
  property (entities w) (entityOf s) (relation_propertyName treeParent) = Ok parent →
  truthy parent = false →
  Forall (λ j, ∃ a, subjects w !! j = Some a ∧ holdsAsChild (entities w) s a = Ok false)
         (allSubjects w) →
  ∃ events,
    added w (insertClosureTableValues i w).2
      (EInsertIntoClosureTable (table_name (table closure)) newEntityId (VNum 0)
                               (hasTreeLevelColumn (metadata s)) :: events).
Proof.
  intros Hs Hclosure HtreeParent Hjoin Hnew Hparent Hfalsy Hscan.
  unfold insertClosureTableValues.
  rewrite (run_deref_bind _ _ _ _ Hs), (run_some_bind _ _ _ _ Hclosure),
    (run_some_bind _ _ _ _ HtreeParent), (run_some_bind _ _ _ _ Hjoin).
  lazy zeta. rewrite run_world_bind, (run_lift_bind _ _ _ _ Hnew),
    (run_lift_bind _ _ _ _
       (closureParentId_without_parent _ _ _ _ _ _ _ _ Hparent Hfalsy Hscan)).
  rewrite run_bind. unfold queryRunner_insertIntoClosureTable at 1, call at 1.
  destruct (insertIntoClosureTable _ _ _ _ (runner w)) as [[level|e] q].
  - match goal with
    | |- context [?tail (set_runner q ?w0)] =>
        assert (preserves (only operation) tail) as Htail by frame;
        destruct (Htail (set_runner q w0)) as (_ & events & Hadded & _)
    end.
    exists events. unfold added in *. rewrite Hadded. simpl. by rewrite <- app_assoc.
  - exists []. done.
Qed.

End Closure.


(** ** The closure statements of the WebSQL query runner *)

Section WebsqlClosure.
Import WebsqlQueryRunner.
Implicit Types w : World State.

Lemma executeSql_accepting q :
  Reading.accepting q →
  ∃ v q', executeSql q = (Ok v, q')
          ∧ closureTables q' = closureTables q
          ∧ Reading.accepting q'.
Proof.
  intros [Hreleased Hreplies]. unfold executeSql.
  destruct (replies q) as [|reply rest] eqn:E.
  - exists VUndefined, q. repeat split; [done|]. by rewrite E.
  - apply Forall_cons in Hreplies as [[insertId ->] Hrest].
    exists insertId, (set_replies rest q). by repeat split.
Qed.

Lemma filter_descendant_other (rows : list ClosureRow) (id : Z) :
  Forall (λ row, descendant row ≠ id) rows →
  filter (λ row, descendant row = id) rows = [].
Proof.
  induction 1 as [|row rows Hrow _ IH]; [done|].
  rewrite filter_cons. by destruct (decide (descendant row = id)).
Qed.

Lemma closureRowsFor_descendant rows newId parent tracked :
  Forall (λ row, descendant row = newId) (closureRowsFor rows newId parent tracked).
Proof.
  unfold closureRowsFor. apply Forall_app. split; [|by repeat constructor].
  apply Forall_fmap. by apply Forall_true.
Qed.

Lemma maxLevel_after_insert rows newId parent tracked :
  newId ≠ parent →
  maxLevel (rows ++ closureRowsFor rows newId parent tracked) parent = maxLevel rows parent.
Proof.
  intros Hne. unfold maxLevel. rewrite filter_app.
  rewrite (filter_descendant_other (closureRowsFor _ _ _ _)), app_nil_r; [done|].
  eapply Forall_impl; [apply closureRowsFor_descendant|]. simpl. congruence.
Qed.







End WebsqlClosure.


(** ** Junction tables *)

Section Junctions.
Context {Q : Type} `{!QueryRunner Q} `{!Collaborators}.
Implicit Types w : World Q.

Lemma run_link_resolved relation secondColumn junction ownId newBindEntity relationId w :
  junctionRelationId (entities w) (subjects w) (insertSubjects w)
                     relation secondColumn newBindEntity = Ok relationId →
  truthy relationId = true →
  junctionEntityMetadata relation = Some junction →
  insertJunction relation secondColumn ownId newBindEntity w
  = async (queryRunner_insert (table_name (table junction))
                              (junctionRow relation junction ownId relationId) None) w.
Proof.
  intros He Hid Hjunction. unfold insertJunction.
  by rewrite run_world_bind, (run_lift_bind _ _ _ _ He), Hid, Hjunction.
Qed.

Lemma run_link_unresolved relation secondColumn ownId newBindEntity relationId w :
  junctionRelationId (entities w) (subjects w) (insertSubjects w)
                     relation secondColumn newBindEntity = Ok relationId →
  truthy relationId = false →
  newBindEntity ≠ VUndefined → newBindEntity ≠ VNull →
  insertJunction relation secondColumn ownId newBindEntity w
  = (Err (notPersisted (constructorName (entities w) newBindEntity)), w).
Proof.
  intros He Hid Hundefined Hnull. unfold insertJunction.
  rewrite run_world_bind, (run_lift_bind _ _ _ _ He), Hid. simpl.
  unfold constructor_name. by destruct newBindEntity.
Qed.

Lemma run_links_resolved relation secondColumn junction ownId newBindEntities relationIds :
  junctionEntityMetadata relation = Some junction →
  ∀ w,
  Forall2 (λ newBindEntity relationId,
             junctionRelationId (entities w) (subjects w) (insertSubjects w)
                                relation secondColumn newBindEntity = Ok relationId
             ∧ truthy relationId = true)
          newBindEntities relationIds →
  ∃ promises w',
    mapM (insertJunction relation secondColumn ownId) newBindEntities w = (Ok promises, w')
    ∧ added w w' ((λ relationId,
                     EInsert (table_name (table junction))
                             (junctionRow relation junction ownId relationId) None)
                  <$> relationIds).
Proof.
  intros Hjunction w Hall.
  remember (entities w) as h eqn:Hh. remember (subjects w) as store eqn:Hstore.
  remember (insertSubjects w) as ins eqn:Hins.
  revert w Hh Hstore Hins.
  induction Hall as [|e id es ids [He Hid] _ IH]; intros w Hh Hstore Hins.
  - exists [], w. split; [done|]. unfold added. simpl. by rewrite app_nil_r.
  - simpl. subst h store ins.
    rewrite run_bind, (run_link_resolved _ _ _ _ _ _ _ He Hid Hjunction).
    unfold async, queryRunner_insert, call.
    destruct (runner_insert _ _ _ (runner w)) as [r q]. simpl.
    set (w1 := set_runner q _).
    destruct (IH w1) as (promises & w' & Hrun & Hadded); [done..|].
    rewrite run_bind, Hrun. eexists _, w'. split; [done|].
    unfold added in *. rewrite Hadded. simpl. by rewrite <- app_assoc.
Qed.

Lemma run_links_unresolved relation secondColumn ownId newBindEntities relationIds :
  ∀ w,
  Forall2 (λ newBindEntity relationId,
             junctionRelationId (entities w) (subjects w) (insertSubjects w)
                                relation secondColumn newBindEntity = Ok relationId
             ∧ newBindEntity ≠ VUndefined ∧ newBindEntity ≠ VNull)
          newBindEntities relationIds →
  Exists (λ relationId, truthy relationId = false) relationIds →
  ∃ type, (mapM (insertJunction relation secondColumn ownId) newBindEntities w).1
          = Err (notPersisted type)
          ∨ junctionEntityMetadata relation = None.
Proof.
  intros w Hall.
  remember (entities w) as h eqn:Hh. remember (subjects w) as store eqn:Hstore.
  remember (insertSubjects w) as ins eqn:Hins.
  revert w Hh Hstore Hins.
  induction Hall as [|e id es ids (He & Hundefined & Hnull) _ IH];
    intros w Hh Hstore Hins Hexists; [by apply Exists_nil in Hexists|].
  simpl. subst h store ins. rewrite run_bind.
  destruct (truthy id) eqn:Hid; simpl.
  - apply Exists_cons in Hexists as [Hfalse|Hexists]; [congruence|].
    destruct (junctionEntityMetadata relation) as [junction|] eqn:Hjunction;
      [|by exists ""; right].
    rewrite (run_link_resolved _ _ _ _ _ _ _ He Hid Hjunction).
    unfold async, queryRunner_insert, call.
    destruct (runner_insert _ _ _ (runner w)) as [r q]. simpl.
    set (w1 := set_runner q _).
    destruct (IH w1) as (type & [Hrun|Hnone]); [done..| |congruence].
    exists type. left. rewrite run_bind.
    destruct (mapM _ es w1) as [[promises|error] w']; simpl in *; congruence.
  - exists (constructorName (entities w) e). left.
    by rewrite (run_link_unresolved _ _ _ _ _ _ He Hid Hundefined Hnull).
Qed.

Lemma run_mapM_async_settle {A B} (f : A → M Q B) l w :
  ∃ promises w',
    mapM (λ a, async (f a)) l w = (Ok promises, w')
    ∧ is_ok (settle promises) = negb (someFails f l w).
Proof.
  revert w. induction l as [|a l IH]; intros w; [by eexists _, _|].
  simpl. rewrite run_bind. unfold async at 1. destruct (f a w) as [r w1]. simpl.
  destruct (IH w1) as (promises & w' & E & Hsettle). rewrite run_bind, E.
  eexists _, _. split; [done|]. simpl.
  destruct r as [b|e]; simpl; [|done].
  rewrite <- Hsettle. by destruct (settle promises).
Qed.

(** The columns of the join table, on either side of the relation. *)
Lemma run_junctionColumns relation joinTable' :
  (if isOwning relation then joinTable relation
   else inverseRelation relation ≫= joinTable) = Some joinTable' →
  junctionColumns relation
  = Ok (if isOwning relation
        then (joinTable_referencedColumn joinTable',
              joinTable_inverseReferencedColumn joinTable')
        else (joinTable_inverseReferencedColumn joinTable',
              joinTable_referencedColumn joinTable')).
Proof.
  unfold junctionColumns. destruct (isOwning relation).
  - by intros ->.
  - destruct (inverseRelation relation) as [inverse|]; [|done]. simpl. by intros ->.
Qed.

(** The subject found for an entity among the insert subjects is its
    first holder. *)
Lemma findByEntity_holderOf (store : list Subject) refs l :
  findByEntity store (VRef l) refs ≫= (λ j, store !! j) = Reading.holderOf store refs l.
Proof.
  unfold findByEntity, Reading.holderOf.
  induction refs as [|j refs IH]; [done|]. simpl.
  destruct (store !! j) as [s'|] eqn:Hj; [|exact IH].
  rewrite filter_cons. unfold entityOf.
  destruct (entity s') as [l'|]; simpl.
  - destruct (Nat.eqb_spec l' l) as [->|Hne].
    + rewrite decide_True by done. simpl. exact Hj.
    + rewrite decide_False by congruence. exact IH.
  - exact IH.
Qed.

(** The own id is the resolved one: a truthy value when it resolves, a
    falsy one when it does not. *)
Lemma run_junctionOwnId (h : Heap) s relation firstColumn onOwn :
  getOwnEntityRelationId relation h (entityOf s) = Ok onOwn →
  ∃ ownId, junctionOwnId h s relation firstColumn = Ok ownId
           ∧ match Reading.resolvedId firstColumn onOwn (Some s) with
             | Some own => ownId = own ∧ truthy ownId = true
             | None => truthy ownId = false
             end.
Proof.
  intros Hown. unfold junctionOwnId. rewrite Hown. simpl. eexists. split; [done|].
  unfold Reading.resolvedId, Reading.generatedFor. simpl.
  destruct (truthy onOwn) eqn:Htruthy; [done|].
  destruct (column_isGenerated firstColumn).
  - by destruct (truthy (newlyGeneratedId s)) eqn:?.
  - destruct (column_isObjectId firstColumn); [|done].
    by destruct (truthy (generatedObjectId s)) eqn:?.
Qed.

(** The same for the id of a linked entity. *)
Lemma run_junctionRelationId (h : Heap) store ins relation joinTable' l :
  let secondColumn := if isOwning relation then joinTable_inverseReferencedColumn joinTable'
                      else joinTable_referencedColumn joinTable' in
  isManyToManyOwner relation = isOwning relation →
  isManyToManyNotOwner relation = negb (isOwning relation) →
  (if isOwning relation then joinTable relation
   else inverseRelation relation ≫= joinTable) = Some joinTable' →
  ∃ relationId,
    junctionRelationId h store ins relation secondColumn (VRef l) = Ok relationId
    ∧ match Reading.resolvedId secondColumn (Reading.idOn h l secondColumn)
              (Reading.holderOf store ins l) with
      | Some id => relationId = id ∧ truthy relationId = true
      | None => truthy relationId = false
      end.
Proof.
  intros secondColumn Howner Hother Htable. unfold junctionRelationId.
  rewrite Howner, Hother, findByEntity_holderOf.
  assert ((if isOwning relation
           then ownTable ← required (joinTable relation);
                property h (VRef l)
                  (column_propertyName (joinTable_inverseReferencedColumn ownTable))
           else if negb (isOwning relation)
           then inverse ← required (inverseRelation relation);
                inverseTable ← required (joinTable inverse);
                property h (VRef l)
                  (column_propertyName (joinTable_referencedColumn inverseTable))
           else mret VUndefined)
          = Ok (Reading.idOn h l secondColumn)) as ->.
  { unfold secondColumn. destruct (isOwning relation); simpl.
    - by rewrite Htable.
    - destruct (inverseRelation relation) as [inverse|]; [|done]. simpl in *.
      by rewrite Htable. }
  simpl. unfold Reading.resolvedId.
  destruct (truthy (Reading.idOn h l secondColumn)) eqn:Htruthy; [by eexists|].
  destruct (Reading.holderOf store ins l) as [holder|]; simpl; [|by eexists].
  unfold Reading.generatedFor.
  destruct (column_isGenerated secondColumn).
  - eexists. split; [done|]. by destruct (truthy (newlyGeneratedId holder)) eqn:?.
  - destruct (column_isObjectId secondColumn).
    + eexists. split; [done|]. by destruct (truthy (generatedObjectId holder)) eqn:?.
    + by eexists.
Qed.

(** C7.  A pending junction insert of a many-to-many relation that has its
    join table and its junction metadata links the entity of the subject to
    heap objects.  The own id is the id that the relation finds on the
    entity, or else the id generated by the insert of the subject; the id of
    a linked entity is the id on the entity, or else the id generated by the
    insert of the first insert subject that holds it.  When all these ids
    resolve, exactly one row is inserted into the junction table per linked
    entity, the two values being (ownId, relatedId) on the owning side and
    (relatedId, ownId) on the other side; when the own id, or the id of one
    linked entity, does not resolve, an error is thrown and the junction
    insert fails.  A phase one of whose junction inserts fails rejects, and
    with it the call. *)
Theorem junction_rows_per_linked_entity w i s junctionInsert joinTable' junction onOwn
    (linked : list loc) :
  let relation := junctionInsert_relation junctionInsert in
  let firstColumn := if isOwning relation then joinTable_referencedColumn joinTable'
                     else joinTable_inverseReferencedColumn joinTable' in
  let secondColumn := if isOwning relation then joinTable_inverseReferencedColumn joinTable'
                      else joinTable_referencedColumn joinTable' in
  let ownId := Reading.resolvedId firstColumn onOwn (Some s) in
  let relationId l :=
    Reading.resolvedId secondColumn (Reading.idOn (entities w) l secondColumn)
                       (Reading.holderOf (subjects w) (insertSubjects w) l) in
  let row own related :=
    zipObject (column_fullName <$> columnsWithoutEmbeddeds junction)
              (if isOwning relation then [own; related] else [related; own]) in
  subjects w !! i = Some s →
  isManyToManyOwner relation = isOwning relation →
  isManyToManyNotOwner relation = negb (isOwning relation) →
  (if isOwning relation then joinTable relation
   else inverseRelation relation ≫= joinTable) = Some joinTable' →
  junctionEntityMetadata relation = Some junction →
  junctionEntities junctionInsert = VRef <$> linked →
  getOwnEntityRelationId relation (entities w) (entityOf s) = Ok onOwn →
  (∀ own relationIds,
     ownId = Some own →
     Forall2 (λ l id, relationId l = Some id) linked relationIds →
     added w (insertJunctions i junctionInsert w).2
       ((λ id, EInsert (table_name (table junction)) (row own id) None) <$> relationIds))
  ∧ (ownId = None →
     insertJunctions i junctionInsert w = (Err (notPersisted (entityTarget s)), w))
  ∧ (is_Some ownId → Exists (λ l, relationId l = None) linked →
     ∃ type, (insertJunctions i junctionInsert w).1 = Err (notPersisted type))
  ∧ (∀ w0, someFails (λ p, insertJunctions p.1 p.2) (pendingJunctions junctionInserts w0) w0
           = true →
           is_ok (executeInsertJunctionsOperations w0).1 = false).
Proof.
  intros relation firstColumn secondColumn ownId relationId row
    Hs Howner Hother Htable Hjunction Hlinked Hown.
  pose proof (run_junctionColumns relation joinTable' Htable) as Hcolumns.
  assert (junctionColumns relation = Ok (firstColumn, secondColumn)) as Hcolumns'
    by (rewrite Hcolumns; unfold firstColumn, secondColumn; by destruct (isOwning relation)).
  destruct (run_junctionOwnId (entities w) s relation firstColumn onOwn Hown)
    as (own' & HownId & Hresolved). fold ownId in Hresolved.
  assert (insertJunctions i junctionInsert w
          = if negb (truthy own') then (Err (notPersisted (entityTarget s)), w)
            else (mapM (insertJunction relation secondColumn own')
                       (junctionEntities junctionInsert)
                  ≫= λ promises, Promise_all promises;; mret tt) w) as Hrun.
  { unfold insertJunctions. fold relation.
    rewrite (run_lift_bind _ _ _ _ Hcolumns'), (run_deref_bind _ _ _ _ Hs).
    rewrite run_heap_bind, (run_lift_bind _ _ _ _ HownId).
    by destruct (truthy own'). }
  assert (∃ ids,
            Forall2 (λ l id,
                       junctionRelationId (entities w) (subjects w) (insertSubjects w)
                                          relation secondColumn (VRef l) = Ok id
                       ∧ match relationId l with
                         | Some id' => id = id' ∧ truthy id = true
                         | None => truthy id = false
                         end)
                    linked ids) as (ids & Hids).
  { clear Hlinked. induction linked as [|l linked (ids & IH)]; [by exists []|].
    destruct (run_junctionRelationId (entities w) (subjects w) (insertSubjects w)
                relation joinTable' l Howner Hother Htable) as (id & Hid & Hread).
    exists (id :: ids). by constructor. }
  split; [|split; [|split]].
  - intros own relationIds Eown Hall. rewrite Eown in Hresolved.
    destruct Hresolved as [-> Htruthy]. rewrite Hrun, Htruthy. simpl.
    destruct (run_links_resolved relation secondColumn junction own
                (junctionEntities junctionInsert) relationIds Hjunction w)
      as (promises & w' & Hlinks & Hadded).
    { rewrite Hlinked. apply Forall2_fmap_l.
      clear -Hall Hids. revert ids Hids.
      induction Hall as [|l id ls ids' Hl _ IH]; intros ids Hids; [constructor|].
      apply Forall2_cons_inv_l in Hids as (id0 & ids0 & [Hid Hread] & Hrest & ->).
      rewrite Hl in Hread. destruct Hread as [-> Htruthy].
      constructor; [done | by apply (IH ids0)]. }
    rewrite run_bind, Hlinks. rewrite run_bind. unfold Promise_all, lift.
    by destruct (settle promises).
  - intros Enone. rewrite Enone in Hresolved. by rewrite Hrun, Hresolved.
  - intros [own Eown] Hunresolved. rewrite Eown in Hresolved.
    destruct Hresolved as [-> Htruthy]. rewrite Hrun, Htruthy. simpl.
    destruct (run_links_unresolved relation secondColumn own
                (junctionEntities junctionInsert) ids w)
      as (type & [Hlinks|Hnone]); [| |exists type|congruence].
    + rewrite Hlinked. apply Forall2_fmap_l.
      eapply Forall2_impl; [exact Hids|]. by intros l id [Hid _].
    + clear -Hids Hunresolved. revert ids Hids.
      induction Hunresolved as [l ls Hl|l ls _ IH]; intros ids Hids;
        apply Forall2_cons_inv_l in Hids as (id0 & ids0 & [Hid Hread] & Hrest & ->).
      * rewrite Hl in Hread. by left.
      * right. by apply IH.
    + rewrite run_bind.
      destruct (mapM _ _ w) as [[promises|error] w']; simpl in *; congruence.
  - intros w0 Hfails. unfold executeInsertJunctionsOperations.
    rewrite run_world_bind.
    destruct (run_mapM_async_settle (λ p, insertJunctions p.1 p.2)
                (pendingJunctions junctionInserts w0) w0)
      as (promises & w' & Hall' & Hsettle).
    rewrite run_bind, Hall'. rewrite Hfails in Hsettle.
    rewrite run_bind. unfold Promise_all, lift.
    by destruct (settle promises).
Qed.

End Junctions.


(** ** The insert phase *)

Section InsertPhase.
Context {Q : Type} `{!QueryRunner Q} `{!Collaborators}.
Implicit Types w : World Q.

Lemma run_filterM_subjects (p : Subject → bool) l w :
  Forall (λ i, is_Some (subjects w !! i)) l →
  filterM (λ i, subject ← deref i; mret (p subject)) l w
  = (Ok (List.filter (λ i, match subjects w !! i with
                           | Some s => p s
                           | None => false
                           end) l), w).
Proof.
  induction 1 as [|i l [s Hs] _ IH]; [done|].
  simpl. rewrite run_bind, (run_deref_bind _ _ _ _ Hs), Hs. simpl.
  rewrite run_bind, IH. simpl. by destruct (p s).
Qed.

Lemma run_mapM_async {A B} (f : A → M Q B) l w :
  ∃ promises w', mapM (λ a, async (f a)) l w = (Ok promises, w').
Proof.
  revert w. induction l as [|a l IH]; intros w; [by eexists _, _|].
  simpl. rewrite run_bind. unfold async at 1. destruct (f a w) as [r w1].
  destruct (IH w1) as (promises & w' & E). rewrite run_bind, E. by eexists _, _.
Qed.

(** C1.  The insert subjects are split into the subjects whose metadata has
    no non-nullable column and the remaining ones.  Every insert of the first
    group is started with an empty already-inserted list and has completed
    before the first insert of the second group starts: a rejection in the
    first group ends the phase and no insert of the second group is started.
    Every insert of the second group is handed the first group as the
    already-inserted subjects.  What follows the two groups issues updates
    only. *)
Theorem insert_phase_two_buckets w :
  let first := Reading.firstGroup (subjects w) (insertSubjects w) in
  let second := Reading.secondGroup (subjects w) (insertSubjects w) in
  Forall (λ i, is_Some (subjects w !! i)) (insertSubjects w) →
  (∀ i s, i ∈ insertSubjects w → subjects w !! i = Some s →
     (i ∈ first ↔ hasNonNullableColumns (metadata s) = false)
     ∧ (i ∈ second ↔ hasNonNullableColumns (metadata s) = true))
  ∧ ∃ firstResult afterFirst,
      (promises ← mapM (λ i, async (insert i [])) first; Promise_all promises) w
      = (firstResult, afterFirst)
      ∧ match firstResult with
        | Err e => executeInsertOperations w = (Err e, afterFirst)
        | Ok _ =>
            ∃ secondResult afterSecond,
              (promises ← mapM (λ i, async (insert i first)) second; Promise_all promises)
                afterFirst
              = (secondResult, afterSecond)
              ∧ match secondResult with
                | Err e => executeInsertOperations w = (Err e, afterSecond)
                | Ok _ =>
                    ∃ events, added afterSecond (executeInsertOperations w).2 events
                              ∧ Forall isUpdate events
                end
        end.
Proof.
  intros first second Hstore. split.
  - intros i s Hi Hs. unfold first, second, Reading.firstGroup, Reading.secondGroup.
    rewrite !list_elem_of_In, !filter_In, <- !list_elem_of_In, Hs.
    destruct (hasNonNullableColumns (metadata s)); simpl; intuition congruence.
  - destruct (run_mapM_async (λ i, insert i []) first w) as (ps1 & w1 & E1).
    exists (settle ps1), w1. split; [by rewrite (run_bind_ok _ _ _ _ _ E1)|].
    destruct (executeInsertOperations w) as [r wf] eqn:E.
    unfold executeInsertOperations in E.
    rewrite run_world_bind, (run_bind_ok _ _ _ _ _ (run_filterM_subjects _ _ _ Hstore)),
      (run_bind_ok _ _ _ _ _ (run_filterM_subjects _ _ _ Hstore)) in E.
    lazy beta in E.
    fold (Reading.firstGroup (subjects w) (insertSubjects w)) in E.
    fold (Reading.secondGroup (subjects w) (insertSubjects w)) in E.
    fold first second in E.
    rewrite (run_bind_ok _ _ _ _ _ E1), run_bind in E. unfold Promise_all at 1, lift in E.
    destruct (settle ps1) as [l1|e1]; [|done].
    destruct (run_mapM_async (λ i, insert i first) second w1) as (ps2 & w2 & E2).
    exists (settle ps2), w2. split; [by rewrite (run_bind_ok _ _ _ _ _ E2)|].
    rewrite (run_bind_ok _ _ _ _ _ E2), run_bind in E. unfold Promise_all at 1, lift in E.
    destruct (settle ps2) as [l2|e2]; [|done].
    match type of E with
    | ?tail w2 = _ =>
        assert (preserves (only isUpdate) tail) as Htail by frame;
        destruct (Htail w2) as (_ & events & Hadded & Hupdates)
    end.
    rewrite E in Hadded. by exists events.
Qed.

End InsertPhase.


(** ** The transaction *)

Section Transaction.
Context {Q : Type} `{!QueryRunner Q} `{!Collaborators}.
Implicit Types w : World Q.

Lemma preserves_broadcastBefore (R : relation (World Q)) `{!PreOrder R}
    `{!IgnoresEntities R} (P : Event → Prop) `{!IgnoresEvents P R} :
  (∀ ins upd rem, P (EBroadcastBefore ins upd rem)) →
  preserves R broadcaster_broadcastBeforeEventsForAll.
Proof.
  intros HP w. unfold broadcaster_broadcastBeforeEventsForAll. lazy zeta.
  destruct (broadcastBeforeEventsForAll _ _ _ _) as [r h]. simpl.
  etransitivity; [apply (ignores_event (P := P)), HP | apply ignores_entities].
Qed.

Lemma preserves_broadcastAfter (R : relation (World Q)) `{!PreOrder R}
    `{!IgnoresEntities R} (P : Event → Prop) `{!IgnoresEvents P R} :
  (∀ ins upd rem, P (EBroadcastAfter ins upd rem)) →
  preserves R broadcaster_broadcastAfterEventsForAll.
Proof.
  intros HP w. unfold broadcaster_broadcastAfterEventsForAll. lazy zeta.
  destruct (broadcastAfterEventsForAll _ _ _ _) as [r h]. simpl.
  etransitivity; [apply (ignores_event (P := P)), HP | apply ignores_entities].
Qed.

Lemma preserves_refresh (R : relation (World Q)) `{!PreOrder R} `{!IgnoresEntities R} :
  preserves R updateSpecialColumnsInPersistedEntities.
Proof. unfold updateSpecialColumnsInPersistedEntities. frame. Qed.

(** From the "before" broadcast to the last phase, and on to [k], which
    may rely on what the steps before it have kept. *)
Lemma phases_then (P : Event → Prop) (k : M Q unit) w :
  (∀ e, operation e → P e) →
  (∀ ins upd rem, P (EBroadcastBefore ins upd rem)) →
  (∀ w', only P w w' → only P w' (k w').2) →
  only P w
    ((broadcaster_broadcastBeforeEventsForAll ≫= λ _,
      world ≫= λ w,
      forEach (λ i, h ← heap; modify_subject i (recompute h)) (updateSubjects w) ≫= λ _,
      executeOperations ≫= λ _, k) w).2.
Proof.
  intros Hoperation Hbefore Hk.
  pose proof (only_ignores (Q := Q) operation P Hoperation) as Hevents.
  pose proof (only_ignores (Q := Q) P P (λ e He, He)) as Hself.
  rewrite run_bind.
  pose proof (preserves_broadcastBefore (only P) P Hbefore w) as H1.
  destruct (broadcaster_broadcastBeforeEventsForAll w) as [[[]|e] w1]; [|done].
  rewrite run_world_bind, run_bind.
  assert (preserves (only (Q := Q) P)
            (forEach (λ i, h ← heap; modify_subject i (recompute h)) (updateSubjects w1)))
    as H2 by frame.
  specialize (H2 w1).
  destruct (forEach _ _ w1) as [[[]|e] w2]; simpl in *; [|by etransitivity].
  rewrite run_bind.
  pose proof (preserves_executeOperations (only P) w2) as H3.
  destruct (executeOperations w2) as [[[]|e] w3]; simpl in *;
    [|by do 2 (etransitivity; [eassumption|])].
  assert (only P w w3) as H4 by (by do 2 (etransitivity; [eassumption|])).
  etransitivity; [exact H4 | by apply Hk].
Qed.

Lemma preserves_finish (P : Event → Prop) :
  (∀ ins upd rem, P (EBroadcastAfter ins upd rem)) →
  preserves (only (Q := Q) P)
    (updateSpecialColumnsInPersistedEntities ≫= λ _, broadcaster_broadcastAfterEventsForAll).
Proof.
  intros Hafter. pose proof (only_ignores (Q := Q) P P (λ e He, He)) as Hself.
  apply preserves_bind; [tc_solve | apply preserves_refresh; tc_solve |].
  intros _. by apply (preserves_broadcastAfter _ P).
Qed.

Lemma preserves_close_owner : preserves (only afterOpening) executeClose.
Proof.
  pose proof (only_ignores (Q := Q) afterOpening afterOpening (λ e He, He)) as Hself.
  unfold executeClose. apply preserves_bind; [tc_solve | frame |]. intros w.
  apply preserves_bind; [tc_solve | | intros _; by apply preserves_finish].
  destruct (isTransactionStartedByItself w); [|frame].
  apply (preserves_call _ afterOpening); [tc_solve.. | exact I].
Qed.

Lemma close_joined w :
  isTransactionStartedByItself w = false → only silent w (executeClose w).2.
Proof.
  intros Hjoined. unfold executeClose. rewrite run_world_bind, Hjoined.
  by apply (preserves_finish silent).
Qed.

Lemma run_validate input w :
  ∃ r, forEach (λ subject, lift (validate subject)) input w = (r, w)
       ∧ (Forall (λ subject, validate subject = Ok tt) input → r = Ok tt).
Proof.
  induction input as [|s input (r & IH & Hok)]; [by exists (Ok tt)|].
  simpl. rewrite run_bind. unfold lift at 1. destruct (validate s) as [[]|e] eqn:E.
  - exists r. split; [done|]. intros Hall. apply Hok. by apply Forall_cons in Hall as [_ ?].
  - exists (Err e). split; [done|]. intros Hall. apply Forall_cons in Hall as [? _].
    congruence.
Qed.

(** The catch block rethrows the error of the try block, whatever the
    rollback does, and rolls back exactly when the flag is set. *)
Lemma run_catch error w :
  ∃ w', executeCatch error w = (Err error, w')
        ∧ added w w' (if isTransactionStartedByItself w then [ERollbackTransaction] else [])
        ∧ entities w' = entities w.
Proof.
  unfold executeCatch. rewrite run_world_bind.
  destruct (isTransactionStartedByItself w).
  - rewrite run_bind. unfold try_catch, queryRunner_rollbackTransaction, call.
    destruct (rollbackTransaction (runner w)) as [[[]|e] q]; by eexists.
  - eexists. repeat split. unfold added. by rewrite app_nil_r.
Qed.

(** The try block, with the binds of its three parts re-associated. *)
Lemma run_executeTry w :
  executeTry w
  = (queryRunnerProvider_provide ≫= λ _,
     queryRunner_isTransactionActive ≫= λ active : bool,
     (if negb active
      then modify (set_started true) ≫= λ _, queryRunner_beginTransaction
      else mret tt) ≫= λ _,
     broadcaster_broadcastBeforeEventsForAll ≫= λ _,
     world ≫= λ w,
     forEach (λ i, h ← heap; modify_subject i (recompute h)) (updateSubjects w) ≫= λ _,
     executeOperations ≫= λ _, executeClose) w.
Proof.
  unfold executeTry, executeOpen. rewrite !run_bind.
  destruct (queryRunnerProvider_provide w) as [[[]|e] w1]; [|done].
  rewrite !run_bind.
  destruct (queryRunner_isTransactionActive w1) as [[active|e] w2]; [|done].
  rewrite !run_bind.
  destruct (_ w2) as [[[]|e] w3]; [|done].
  rewrite !run_bind.
  destruct (broadcaster_broadcastBeforeEventsForAll w3) as [[[]|e] w4]; [|done].
  rewrite !run_world_bind, !run_bind.
  by destruct (forEach _ _ w4) as [[[]|e] w5].
Qed.

Lemma silent_not_transactional events e :
  Forall silent events → transactional e → e ∉ events.
Proof.
  intros Hsilent He Hin. rewrite Forall_forall in Hsilent.
  specialize (Hsilent e Hin). by destruct e.
Qed.

(** The calls made by the try and the catch block together: the provider
    alone failed; or the call joined a transaction and made no call on it; or
    it opened one and, exactly when it failed, rolled it back last. *)
Lemma try_shape w :
  isTransactionStartedByItself w = false →
  let result := try_catch executeTry executeCatch w in
  ∃ events, added w result.2 events
    ∧ ((events = [EProvide] ∧ is_ok result.1 = false)
       ∨ (∃ rest, events = EProvide :: EIsTransactionActive true :: rest
                  ∧ Forall silent rest)
       ∨ (∃ rest, events = EProvide :: EIsTransactionActive false :: EBeginTransaction :: rest
                  ∧ Forall afterOpening rest ∧ is_ok result.1 = true)
       ∨ (∃ rest, events = EProvide :: EIsTransactionActive false :: EBeginTransaction
                            :: rest ++ [ERollbackTransaction]
                  ∧ Forall afterOpening rest ∧ is_ok result.1 = false)).
Proof.
  intros Hflag result. subst result.
  destruct (try_catch executeTry executeCatch w) as [r wf] eqn:E. simpl.
  unfold try_catch in E. rewrite run_executeTry, run_bind in E.
  unfold queryRunnerProvider_provide in E.
  destruct provide as [[]|e].
  2: { destruct (run_catch e (add_event EProvide w)) as (w' & Hcatch & Hadded & _).
       rewrite Hcatch in E. injection E as <- <-.
       simpl in Hadded. rewrite Hflag in Hadded. exists [EProvide].
       split; [|by left]. unfold added in *. rewrite Hadded. simpl.
       by rewrite app_nil_r. }
  rewrite run_bind in E. unfold queryRunner_isTransactionActive in E.
  lazy zeta in E. simpl runner in E.
  destruct (isTransactionActive (runner w)) eqn:Hactive; simpl negb in E; lazy iota in E.
  - set (w3 := add_event (EIsTransactionActive true) (add_event EProvide w)) in E.
    rewrite run_ret_bind in E.
    pose proof (phases_then silent executeClose w3) as Hrest.
    match type of E with
    | context [(broadcaster_broadcastBeforeEventsForAll ≫= ?f) w3] =>
        destruct ((broadcaster_broadcastBeforeEventsForAll ≫= f) w3) as [r' wf']
    end.
    destruct Hrest as (Hflag' & rest & Hadded & Hrest);
      [by intros [] | done | by intros w' [Hflag' _]; apply close_joined; rewrite Hflag'|].
    simpl in *. exists (EProvide :: EIsTransactionActive true :: rest).
    split; [|by right; left; eexists]. destruct r' as [[]|e].
    + injection E as <- <-. unfold added in *. rewrite Hadded. simpl.
      by rewrite <- !app_assoc.
    + destruct (run_catch e wf') as (w' & Hcatch & Hcaught & _).
      rewrite Hcatch in E. injection E as <- <-. rewrite Hflag', Hflag in Hcaught.
      unfold added in *. rewrite Hcaught, Hadded. simpl.
      by rewrite app_nil_r, <- !app_assoc.
  - set (w3 := add_event (EIsTransactionActive false) (add_event EProvide w)) in E.
    rewrite (run_bind (modify _ ≫= _)), run_modify_bind in E.
    unfold queryRunner_beginTransaction, call in E.
    destruct (beginTransaction _) as [[[]|e] q]; simpl in E.
    2: { match type of E with context [executeCatch e ?w5] =>
           destruct (run_catch e w5) as (w' & Hcatch & Hcaught & _) end.
         rewrite Hcatch in E. injection E as <- <-. simpl in Hcaught.
         exists (EProvide :: EIsTransactionActive false :: EBeginTransaction
                   :: [] ++ [ERollbackTransaction]).
         split; [|by right; right; right; eexists].
         unfold added in *. rewrite Hcaught. simpl. by rewrite <- !app_assoc. }
    match type of E with
    | context [(broadcaster_broadcastBeforeEventsForAll ≫= ?f) ?w5] =>
        pose proof (phases_then afterOpening executeClose w5) as Hrest;
        destruct ((broadcaster_broadcastBeforeEventsForAll ≫= f) w5) as [r' wf']
    end.
    destruct Hrest as (Hflag' & rest & Hadded & Hrest);
      [by intros [] | done | by intros w' _; apply preserves_close_owner|].
    simpl in *. destruct r' as [[]|e].
    + injection E as <- <-.
      exists (EProvide :: EIsTransactionActive false :: EBeginTransaction :: rest).
      split; [|by right; right; left; eexists].
      unfold added in *. rewrite Hadded. simpl. by rewrite <- !app_assoc.
    + destruct (run_catch e wf') as (w' & Hcatch & Hcaught & _).
      rewrite Hcatch in E. injection E as <- <-. rewrite Hflag' in Hcaught.
      exists (EProvide :: EIsTransactionActive false :: EBeginTransaction
                :: rest ++ [ERollbackTransaction]).
      split; [|by right; right; right; eexists].
      unfold added in *. rewrite Hcaught, Hadded. simpl.
      by rewrite <- !app_assoc.
Qed.

End Transaction.

(** ** A rejected statement makes its phase reject *)

Section EnsuresRules.
Context {Q : Type} `{!QueryRunner Q} `{!Collaborators}.
Context (R : relation (World Q)) `{!PreOrder R}.

Lemma ensures_preserves {A} (good : A → bool) (m : M Q A) :
  preserves R m → ensures R true good m.
Proof. intros Hm w. specialize (Hm w). by destruct (m w) as [[a|e] w']. Qed.

Lemma ensures_throw {A} pre (good : A → bool) e : ensures R pre good (throw e : M Q A).
Proof. by intros w. Qed.

Lemma ensures_ret {A} pre (good : A → bool) (a : A) :
  (good a = true → pre = true) → ensures R pre good (mret a : M Q A).
Proof. intros Hpre w Hgood. split; [by apply Hpre | reflexivity]. Qed.

Lemma ensures_bind {A B} pre (g1 : A → bool) (g2 : B → bool) (m : M Q A) (f : A → M Q B) :
  ensures R pre g1 m → (∀ a, ensures R (g1 a) g2 (f a)) → ensures R pre g2 (m ≫= f).
Proof.
  intros Hm Hf w. specialize (Hm w). unfold mbind, M_bind.
  destruct (m w) as [[a|e] w1]; [|done].
  specialize (Hf a w1). destruct (f a w1) as [[b|e] w']; [|done].
  intros Hgood. destruct (Hf Hgood) as [Hg1 Hstep]. destruct (Hm Hg1) as [Hpre Hfirst].
  split; [done | by etransitivity].
Qed.

Lemma ensures_then {A B} pre (good : B → bool) (m : M Q A) (f : A → M Q B) :
  ensures R true (λ _, true) m → (∀ a, ensures R pre good (f a)) →
  ensures R pre good (m ≫= f).
Proof.
  intros Hm Hf w. specialize (Hm w). unfold mbind, M_bind.
  destruct (m w) as [[a|e] w1]; [|done].
  specialize (Hf a w1). destruct (f a w1) as [[b|e] w']; [|done].
  intros Hgood. destruct (Hf Hgood) as [Hpre Hstep]. destruct (Hm eq_refl) as [_ Hfirst].
  split; [done | by etransitivity].
Qed.

Lemma ensures_async {A} (m : M Q A) :
  ensures R true (λ _, true) m → ensures R true is_ok (async m).
Proof.
  intros Hm w. specialize (Hm w). unfold async.
  destruct (m w) as [[a|e] w']; [|done]. intros _. by apply Hm.
Qed.

Lemma ensures_mapM {A B} (good : B → bool) (f : A → M Q B) l :
  (∀ a, ensures R true good (f a)) → ensures R true (forallb good) (mapM f l).
Proof.
  intros Hf. induction l as [|a l IH]; [by apply ensures_ret|]. simpl.
  eapply ensures_bind; [apply (Hf a)|]. intros b.
  eapply ensures_bind; [|].
  - instantiate (1 := λ bs, good b && forallb good bs).
    intros w. specialize (IH w). destruct (mapM f l w) as [[bs|e] w']; [|done].
    intros [Hb Hbs]%andb_prop. destruct (IH Hbs) as [_ Hstep]. by rewrite Hb.
  - intros bs. apply ensures_ret. simpl. done.
Qed.

Lemma settle_ok {A} (ps : list (Promise A)) : is_ok (settle ps) = forallb is_ok ps.
Proof.
  induction ps as [|[a|e] ps IH]; [done| |done]. simpl. rewrite <- IH.
  by destruct (settle ps).
Qed.

Lemma ensures_all {A B} pre (good : B → bool) (m : M Q (list (Promise A)))
    (k : list A → M Q B) :
  ensures R pre (forallb is_ok) m → (∀ l, ensures R true good (k l)) →
  ensures R pre good (m ≫= λ promises, Promise_all promises ≫= k).
Proof.
  intros Hm Hk w. specialize (Hm w). unfold mbind, M_bind.
  destruct (m w) as [[ps|e] w1]; [|done].
  unfold Promise_all, lift. pose proof (settle_ok ps) as Hsettle.
  destruct (settle ps) as [l|e]; [|done]. simpl in Hsettle.
  specialize (Hk l w1). destruct (k l w1) as [[b|e] w']; [|done].
  intros Hgood. destruct (Hk Hgood) as [_ Hstep]. destruct (Hm (eq_sym Hsettle)) as [Hpre Hfirst].
  split; [done | by etransitivity].
Qed.

Lemma ensures_forEach {A} (f : A → M Q unit) l :
  (∀ a, ensures R true (λ _, true) (f a)) → ensures R true (λ _, true) (forEach f l).
Proof.
  intros Hf. induction l as [|a l IH]; [by apply ensures_ret|]. simpl.
  apply ensures_then; [apply Hf | by intros _].
Qed.

Lemma ensures_foldM_promises {A B} (f : list (Promise B) → A → M Q (list (Promise B))) l :
  (∀ acc a, ensures R (forallb is_ok acc) (forallb is_ok) (f acc a)) →
  ∀ acc, ensures R (forallb is_ok acc) (forallb is_ok) (foldM f l acc).
Proof.
  intros Hf. induction l as [|a l IH]; intros acc; [by apply ensures_ret|]. simpl.
  eapply ensures_bind; [apply Hf|]. intros acc'. apply IH.
Qed.

Lemma ensures_statement `{!IgnoresAccepted R} (P : Event → Prop) `{!IgnoresEvents P R}
    {A} e (f : Q → Res A * Q) :
  (∀ q, answered q (is_ok (f q).1) (f q).2) → P e →
  ensures R true (λ _, true) (call e f).
Proof.
  intros Hf He w. unfold call. specialize (Hf (runner w)).
  destruct (f (runner w)) as [[a|err] q]; [|done]. simpl in Hf. intros _. split; [done|].
  etransitivity; [by apply (ignores_event e) | by apply ignores_accepted].
Qed.

End EnsuresRules.

Create HintDb ensure.

(** A statement sent to the query runner. *)
Ltac ensure_call :=
  apply (ensures_statement _ operation); [tc_solve .. | intros ?; constructor | exact I].

(** One step of a proof that rejections are not lost: the rule of the
    combinator at the head, and the frame rules for what sends no
    statement. *)
Ltac ensure_step :=
  lazy zeta;
  lazymatch goal with
  | |- ensures _ _ _ (mbind _ world) => apply ensures_then; try tc_solve; [| intros ?]
  | |- ensures _ _ _ (mbind _ _) =>
      first [ apply ensures_all; try tc_solve; [| intros ?]
            | apply ensures_then; try tc_solve; [| intros ?] ]
  | |- ensures _ _ _ (mret _) => apply ensures_ret; try tc_solve; done
  | |- ensures _ _ _ (throw _) => apply ensures_throw
  | |- ensures _ _ _ (async _) => apply ensures_async; try tc_solve
  | |- ensures _ _ _ (mapM _ _) => apply ensures_mapM; try tc_solve; intros ?
  | |- ensures _ _ _ (forEach _ _) => apply ensures_forEach; try tc_solve; intros ?
  | |- ensures _ _ _ (runInSequence _ _) => apply ensures_forEach; try tc_solve; intros ?
  | |- ensures _ _ _ (match ?x with _ => _ end) => destruct x
  | |- ensures _ _ _ (queryRunner_insert _ _ _) => ensure_call
  | |- ensures _ _ _ (queryRunner_update _ _ _) => ensure_call
  | |- ensures _ _ _ (queryRunner_delete _ _) => ensure_call
  | |- ensures _ _ _ (queryRunner_insertIntoClosureTable _ _ _ _) => ensure_call
  | |- ensures _ _ _ _ =>
      first [ solve [eauto with ensure typeclass_instances]
            | solve [apply ensures_preserves; try tc_solve; frame] ]
  end.

Ltac ensure := repeat ensure_step.

Section Rejections.
Context {Q : Type} `{!QueryRunner Q} `{!Collaborators}.
Context (R : relation (World Q)) `{!PreOrder R}.
Context `{!IgnoresAccepted R} `{!IgnoresSubjects R} `{!IgnoresEvents operation R}.

#[local] Instance ignores_updates' : IgnoresEvents isUpdate R.
Proof. intros e w He. apply ignores_event. by destruct e. Qed.

#[local] Instance ignores_prepares' : IgnoresEvents isPrepare R.
Proof. intros e w He. apply (ignores_event (P := operation)). by destruct e. Qed.

Lemma ensures_remove i : ensures R true (λ _, true) (remove i).
Proof. unfold remove, conditionsFrom. ensure. Qed.

Lemma ensures_update i : ensures R true (λ _, true) (update i).
Proof. unfold update. ensure. Qed.

Lemma ensures_updateRelations i : ensures R true (λ _, true) (updateRelations i).
Proof. unfold updateRelations. ensure. Qed.

Lemma ensures_insertJunction r c id e : ensures R true is_ok (insertJunction r c id e).
Proof. unfold insertJunction, constructor_name. ensure. Qed.
Hint Resolve ensures_insertJunction : ensure.

Lemma ensures_insertJunctions i j : ensures R true (λ _, true) (insertJunctions i j).
Proof. unfold insertJunctions. ensure. Qed.

Lemma ensures_removeJunctions i j : ensures R true (λ _, true) (removeJunctions i j).
Proof. unfold removeJunctions. ensure. Qed.

Lemma ensures_insertClosureTableValues i :
  ensures R true (λ _, true) (insertClosureTableValues i).
Proof. unfold insertClosureTableValues. ensure. Qed.

Lemma ensures_insert i a : ensures R true (λ _, true) (insert i a).
Proof. unfold insert. ensure. Qed.

Hint Resolve ensures_remove ensures_update ensures_updateRelations ensures_insertJunctions
  ensures_removeJunctions ensures_insertClosureTableValues ensures_insert : ensure.

#[local] Hint Resolve preserves_updateOptionOf preserves_ownConditions
  preserves_inverseConditions : frame.

(** A promise pushed onto the promises gathered so far. *)
Lemma ensures_after_async {A B} pre (good : B → bool) (task : M Q A) (F : Promise A → B) :
  ensures R true (λ _, true) task →
  (∀ p, good (F p) = true → pre = true ∧ is_ok p = true) →
  ensures R pre good (async task ≫= λ p, mret (F p)).
Proof.
  intros Htask HF w. specialize (Htask w). unfold mbind, M_bind, async.
  destruct (task w) as [r w']. simpl. intros Hgood.
  destruct (HF r Hgood) as [Hpre Hok]. split; [done|].
  destruct r as [a|e]; [by apply Htask | done].
Qed.

Lemma forallb_push {A} (acc : list (Promise A)) p :
  forallb is_ok (acc ++ [p]) = true → forallb is_ok acc = true ∧ is_ok p = true.
Proof. rewrite forallb_app. simpl. rewrite andb_true_r. apply andb_prop. Qed.

Lemma ensures_updateInverseSide i acc item :
  ensures R (forallb is_ok acc) (forallb is_ok) (updateInverseSide i acc item).
Proof.
  unfold updateInverseSide. destruct item as [[relation subRelatedEntity] inverse'].
  apply ensures_then; [tc_solve | ensure |]. intros inverse.
  apply ensures_then; [tc_solve | ensure |]. intros inverseJoin. lazy zeta.
  apply ensures_then; [tc_solve | ensure |]. intros conditions.
  destruct conditions as [|condition conditions]; [by apply ensures_ret; [tc_solve|]|].
  apply ensures_then; [tc_solve | ensure |]. intros subject.
  apply ensures_then; [tc_solve | ensure |]. intros w0.
  apply ensures_then; [tc_solve | ensure |]. intros id.
  apply (ensures_after_async _ _ _ (λ p, acc ++ [p])); [ensure|].
  intros p. apply forallb_push.
Qed.

Lemma ensures_updateRelationIds acc i :
  ensures R (forallb is_ok acc) (forallb is_ok) (updateRelationIds acc i).
Proof.
  unfold updateRelationIds.
  apply ensures_then; [tc_solve | ensure |]. intros subject.
  apply ensures_then; [tc_solve | ensure |]. intros updateOptions.
  apply (ensures_bind _ _ (λ own, match own with
                                  | Some promises => forallb is_ok promises
                                  | None => forallb is_ok acc
                                  end)).
  - destruct updateOptions as [|option options]; [by apply ensures_ret; [tc_solve|]|].
    apply ensures_then; [tc_solve | ensure |]. intros conditions.
    destruct conditions as [|condition conditions]; [by apply ensures_ret; [tc_solve|]|].
    apply (ensures_after_async _ _ _ (λ p, Some (acc ++ [p]))); [ensure|].
    intros p. apply forallb_push.
  - intros [promises|]; [|by apply ensures_ret; [tc_solve|]].
    apply ensures_then; [tc_solve | ensure |]. intros h.
    apply ensures_then; [tc_solve | ensure |]. intros items.
    apply ensures_foldM_promises; [tc_solve|]. intros acc' item.
    apply ensures_updateInverseSide.
Qed.

Lemma ensures_executeInsertOperations :
  ensures R true (λ _, true) executeInsertOperations.
Proof.
  unfold executeInsertOperations.
  apply ensures_then; [tc_solve | ensure |]. intros w0.
  apply ensures_then; [tc_solve | ensure |]. intros firstInsertSubjects.
  apply ensures_then; [tc_solve | ensure |]. intros secondInsertSubjects.
  apply ensures_all; [tc_solve | ensure |]. intros _.
  apply ensures_all; [tc_solve | ensure |]. intros _.
  apply ensures_all; [tc_solve | | intros _; ensure].
  apply (ensures_foldM_promises _ _ _ ensures_updateRelationIds []).
Qed.

(** Whenever the seven phases return, [R] relates the world they started
    from to the one they leave. *)
Lemma ensures_executeOperations : ensures R true (λ _, true) executeOperations.
Proof.
  pose proof ensures_executeInsertOperations.
  unfold executeOperations, executeInsertClosureTableOperations,
    executeInsertJunctionsOperations, executeRemoveJunctionsOperations,
    executeUpdateOperations, executeUpdateRelations, executeRemoveOperations.
  ensure.
Qed.

End Rejections.


Section Entry2.
Context {Q : Type} `{!QueryRunner Q} `{!Collaborators}.
Implicit Types w : World Q.

Lemma afterOpening_not_in events e :
  Forall afterOpening events →
  e = ERollbackTransaction ∨ (∃ b, e = EIsTransactionActive b) →
  e ∉ events.
Proof.
  intros Hevents He Hin. rewrite Forall_forall in Hevents.
  specialize (Hevents e Hin). by destruct He as [->|[b ->]].
Qed.

(** C5.  Of the calls that [execute] adds to the trace: a call that found a
    transaction active never begins, commits or rolls back; a rollback is
    attempted exactly when the call rejects and had found no transaction
    active, that is, had opened the transaction itself; and the error of the
    try block is the one the call rejects with, whatever the rollback
    does. *)
Theorem rollback_iff_owner input w :
  let result := execute input w in
  ∃ events,
    added w result.2 events
    ∧ (EIsTransactionActive true ∈ events →
       (EBeginTransaction ∉ events) ∧ (ECommitTransaction ∉ events)
       ∧ (ERollbackTransaction ∉ events))
    ∧ (ERollbackTransaction ∈ events ↔
       is_ok result.1 = false ∧ EIsTransactionActive false ∈ events)
    ∧ (∀ e w', Forall (λ subject, validate subject = Ok tt) input →
               nothingToExecute input = false →
               executeTry (set_started false (installed input w)) = (Err e, w') →
               result.1 = Err e).
Proof.
  intros result. subst result.
  destruct (execute input w) as [r wf] eqn:E. simpl.
  unfold execute in E. rewrite run_bind in E.
  destruct (run_validate input w) as (r0 & Hvalidate & Hvalid). rewrite Hvalidate in E.
  destruct r0 as [[]|e0].
  2: { injection E as <- <-. exists []. unfold added. rewrite app_nil_r.
       split; [done|]. split; [by intros ?%elem_of_nil|].
       split; [split; [by intros ?%elem_of_nil | by intros [_ ?%elem_of_nil]]|].
       intros e w' Hall. by specialize (Hvalid Hall). }
  rewrite run_modify_bind in E.
  destruct (nothingToExecute input) eqn:Hnothing.
  { injection E as <- <-. exists []. unfold added. simpl. rewrite app_nil_r.
    split; [done|]. split; [by intros ?%elem_of_nil|].
    split; [split; [by intros ?%elem_of_nil | by intros [_ ?%elem_of_nil]]|done]. }
  rewrite run_modify_bind in E.
  destruct (try_shape (set_started false (installed input w)) eq_refl)
    as (events & Hadded & Hshape).
  rewrite E in Hadded, Hshape. simpl in Hadded, Hshape.
  exists events. split; [exact Hadded|].
  assert (∀ e w', executeTry (set_started false (installed input w)) = (Err e, w') →
                  r = Err e) as Hswallow.
  { intros e w' Htry. unfold try_catch in E. rewrite Htry in E.
    destruct (run_catch e w') as (w'' & Hcatch & _). rewrite Hcatch in E. congruence. }
  destruct Hshape as [[-> Hr]|[(rest & -> & Hrest)|[(rest & -> & Hrest & Hr)
                                                   |(rest & -> & Hrest & Hr)]]].
  - split; [by intros [?|?%elem_of_nil]%elem_of_cons|].
    split; [|by eauto].
    split; [by intros [?|?%elem_of_nil]%elem_of_cons|].
    by intros [_ [?|?%elem_of_nil]%elem_of_cons].
  - pose proof (silent_not_transactional rest EBeginTransaction Hrest I).
    pose proof (silent_not_transactional rest ECommitTransaction Hrest I).
    pose proof (silent_not_transactional rest ERollbackTransaction Hrest I).
    pose proof (silent_not_transactional rest (EIsTransactionActive false) Hrest I).
    rewrite !elem_of_cons. split; [intuition (try congruence)|]. split; [intuition (try congruence)|by eauto].
  - pose proof (afterOpening_not_in rest ERollbackTransaction Hrest (or_introl eq_refl)).
    pose proof (afterOpening_not_in rest (EIsTransactionActive true) Hrest
                  (or_intror (ex_intro _ true eq_refl))).
    rewrite !elem_of_cons. rewrite Hr. split; [intuition (try congruence)|]. split; [intuition (try congruence)|by eauto].
  - pose proof (afterOpening_not_in rest (EIsTransactionActive true) Hrest
                  (or_intror (ex_intro _ true eq_refl))).
    rewrite !elem_of_cons, !elem_of_app, !elem_of_cons, !elem_of_nil. rewrite Hr.
    split; [intuition (try congruence)|]. split; [intuition (try congruence)|by eauto].
Qed.

Lemma preserves_open_entities :
  (∀ ins upd rem h, (broadcastBeforeEventsForAll ins upd rem h).2 = h) →
  preserves (sameEntities (Q := Q)) executeOpen.
Proof.
  intros Hbefore. unfold executeOpen.
  apply preserves_bind; [tc_solve | done |]. intros _.
  apply preserves_bind; [tc_solve | done |]. intros active.
  apply preserves_bind; [tc_solve | |].
  { destruct (negb active); [|done].
    apply preserves_bind; [tc_solve | done |]. intros _ w'.
    unfold queryRunner_beginTransaction, call. by destruct (beginTransaction _). }
  intros _. apply preserves_bind; [tc_solve | |].
  { intros w'. unfold broadcaster_broadcastBeforeEventsForAll. lazy zeta.
    specialize (Hbefore (subjectsOf (insertSubjects w') w') (subjectsOf (updateSubjects w') w')
                        (subjectsOf (removeSubjects w') w') (entities w')).
    destruct (broadcastBeforeEventsForAll _ _ _ _) as [r h]. simpl in *.
    by rewrite Hbefore. }
  intros _. frame.
Qed.

(** When the call gets as far as the phases and a phase rejects, the call
    rejects with that error and the refresh of the entities is not run. *)
Lemma run_failed_phases input w w0 e w1 :
  Forall (λ subject, validate subject = Ok tt) input →
  nothingToExecute input = false →
  executeOpen (set_started false (installed input w)) = (Ok tt, w0) →
  executeOperations w0 = (Err e, w1) →
  (execute input w).1 = Err e
  ∧ entities (execute input w).2 = entities w0
  ∧ ((∀ ins upd rem h, (broadcastBeforeEventsForAll ins upd rem h).2 = h) →
     entities (execute input w).2 = entities w).
Proof.
  intros Hvalid Hnothing Hopen Hoperations.
  assert (executeTry (set_started false (installed input w)) = (Err e, w1)) as Htry.
  { unfold executeTry. rewrite (run_bind_ok _ _ _ _ _ Hopen).
    by rewrite (run_bind_err _ _ _ _ _ Hoperations). }
  destruct (run_catch e w1) as (w' & Hcatch & _ & Hentities).
  assert (execute input w = (Err e, w')) as ->.
  { unfold execute. destruct (run_validate input w) as (r0 & Hvalidate & Hok).
    rewrite (Hok Hvalid) in Hvalidate. rewrite (run_bind_ok _ _ _ _ _ Hvalidate).
    rewrite run_modify_bind, Hnothing, run_modify_bind. unfold try_catch.
    by rewrite Htry. }
  pose proof (preserves_executeOperations sameEntities w0) as Hphases.
  rewrite Hoperations in Hphases. unfold sameEntities in Hphases. simpl in *.
  split; [done|]. split; [congruence|].
  intros Hbefore.
  pose proof (preserves_open_entities Hbefore (set_started false (installed input w)))
    as Hsame.
  rewrite Hopen in Hsame. unfold sameEntities in Hsame. simpl in Hsame. congruence.
Qed.

End Entry2.

Section Audit.
Context {Q : Type} `{!QueryRunner Q} `{!Collaborators}.
Context (rejections : Q → nat) `{!Audits rejections}.
Implicit Types w : World Q.

#[local] Instance sameRejections_preorder : PreOrder (sameRejections rejections).
Proof.
  split; [by intros w|]. intros w1 w2 w3 H12 H23. unfold sameRejections in *. congruence.
Qed.

#[local] Instance sameRejections_ignores_accepted : IgnoresAccepted (sameRejections rejections).
Proof. intros q w Hq. unfold sameRejections. simpl. by rewrite (audited _ _ _ Hq). Qed.

#[local] Instance sameRejections_ignores_subjects : IgnoresSubjects (sameRejections rejections).
Proof. by intros l w. Qed.

#[local] Instance sameRejections_ignores_events (P : Event → Prop) :
  IgnoresEvents P (sameRejections rejections).
Proof. by intros e w _. Qed.

(** Phases that return have had all their statements accepted. *)
Lemma run_phases_accepted w :
  is_ok (executeOperations w).1 = true →
  rejections (runner (executeOperations w).2) = rejections (runner w).
Proof.
  intros Hok. pose proof (ensures_executeOperations (sameRejections rejections) w) as Hsame.
  destruct (executeOperations w) as [[[]|e] w']; [|done]. by destruct (Hsame eq_refl).
Qed.

(** C6.  The query runner keeps the count of the statements it rejects.
    When the call gets as far as the phases and a statement sent during the
    phases is rejected, the phases reject, the call rejects with their error,
    and the refresh of the entities is not run: the entities are those the
    phases started from, so no generated id, timestamp or version was written
    onto them; and when the subscribers of the "before" events leave the
    entities alone, they are those the caller supplied. *)
Theorem failed_phases_skip_materialization input w w0 :
  Forall (λ subject, validate subject = Ok tt) input →
  nothingToExecute input = false →
  executeOpen (set_started false (installed input w)) = (Ok tt, w0) →
  rejections (runner (executeOperations w0).2) ≠ rejections (runner w0) →
  (∃ e, (executeOperations w0).1 = Err e ∧ (execute input w).1 = Err e)
  ∧ entities (execute input w).2 = entities w0
  ∧ ((∀ ins upd rem h, (broadcastBeforeEventsForAll ins upd rem h).2 = h) →
     entities (execute input w).2 = entities w).
Proof.
  intros Hvalid Hnothing Hopen Hrejected.
  pose proof (run_phases_accepted w0) as Haccepted.
  destruct (executeOperations w0) as [[[]|e] w1] eqn:Hoperations;
    [by destruct Hrejected; apply Haccepted|].
  destruct (run_failed_phases input w w0 e w1 Hvalid Hnothing Hopen Hoperations)
    as (Hresult & Hentities & Hsupplied).
  split; [by exists e|]. by split.
Qed.

End Audit.

(** The counting query runner audits its statements. *)
Section Counted.
Context {Q : Type} `{!QueryRunner Q}.

#[global] Instance counted_audits : Audits (QueryRunner0 := counted) (snd : Q * nat → nat).
Proof.
  intros q ok q' Hq. destruct Hq; simpl; unfold counting;
    match goal with |- context [let '(_, _) := ?x in _] => destruct x as [[]] end; done.
Qed.

End Counted.



(** ** Further properties of the entry point *)

Section EntryPoint.
Context {Q : Type} `{!QueryRunner Q} `{!Collaborators}.
Implicit Types w : World Q.

(** X1.  A batch of valid subjects none of which has anything to do (no
    insert, update, removal, relation update or junction change) returns
    once the fields of the executor are set: no collaborator is called, no
    transaction opened, and the entities are as before. *)
Theorem execute_idle_batch_is_silent input w :
  Forall (λ subject, validate subject = Ok tt) input →
  nothingToExecute input = true →
  execute input w = (Ok tt, installed input w)
  ∧ trace (execute input w).2 = trace w
  ∧ runner (execute input w).2 = runner w
  ∧ entities (execute input w).2 = entities w.
Proof.
  intros Hvalid Hnothing.
  assert (execute input w = (Ok tt, installed input w)) as ->; [|done].
  unfold execute. rewrite run_bind.
  destruct (run_validate input w) as (r & -> & Hr). rewrite (Hr Hvalid).
  by rewrite run_modify_bind, Hnothing.
Qed.

(** X2.  The subjects are validated in order before anything else: the
    error of the first subject that fails validation is thrown as it is,
    outside the try block, so that no collaborator is called, no rollback
    attempted, and not even the fields of the executor are set. *)
Theorem execute_rejects_invalid_subject valid subject rest e w :
  Forall (λ subject, validate subject = Ok tt) valid →
  validate subject = Err e →
  execute (valid ++ subject :: rest) w = (Err e, w).
Proof.
  intros Hvalid Hinvalid. unfold execute. rewrite run_bind.
  assert (forEach (λ subject, lift (validate subject)) (valid ++ subject :: rest) w
          = (Err e, w)) as ->; [|done].
  induction Hvalid as [|s valid Hs _ IH]; simpl.
  - rewrite run_bind. unfold lift at 1. by rewrite Hinvalid.
  - rewrite run_bind. unfold lift at 1. by rewrite Hs.
Qed.

(** X3.  The seven phases call the query runner for inserts, updates,
    deletes and closure-table inserts, and the driver for the values to
    persist, and nothing else: the provider, the broadcaster and the
    transaction of the query runner are left alone, no entity is written
    and the ownership of the transaction is as it was. *)
Theorem phases_send_statements_only w :
  let w' := (executeOperations w).2 in
  (∃ events, added w w' events ∧ Forall operation events)
  ∧ entities w' = entities w
  ∧ isTransactionStartedByItself w' = isTransactionStartedByItself w.
Proof.
  intros w'. subst w'.
  pose proof (only_ignores (Q := Q) operation operation (λ e He, He)) as Hself.
  destruct (preserves_executeOperations (only operation) w) as [Hflag Hevents].
  split; [exact Hevents|]. split; [|exact Hflag].
  apply (preserves_executeOperations sameEntities).
Qed.

(** X17.  When the provider has no query runner to give, the call rejects
    with the error of the provider, having called no other collaborator:
    no transaction was begun, so none is rolled back. *)
Theorem execute_without_query_runner input w e :
  Forall (λ subject, validate subject = Ok tt) input →
  nothingToExecute input = false →
  provide = Err e →
  (execute input w).1 = Err e
  ∧ added w (execute input w).2 [EProvide]
  ∧ entities (execute input w).2 = entities w
  ∧ runner (execute input w).2 = runner w.
Proof.
  intros Hvalid Hnothing Hprovide.
  assert (execute input w
          = (Err e, add_event EProvide (set_started false (installed input w)))) as ->;
    [|done].
  unfold execute. rewrite run_bind.
  destruct (run_validate input w) as (r & -> & Hr). rewrite (Hr Hvalid).
  rewrite run_modify_bind, Hnothing, run_modify_bind.
  unfold try_catch. rewrite run_executeTry, run_bind.
  unfold queryRunnerProvider_provide. rewrite Hprovide.
  unfold executeCatch. by rewrite run_world_bind.
Qed.

End EntryPoint.

(** ** The transaction of a WebSQL connection *)

Section WebsqlTransaction.
Import WebsqlQueryRunner.

(** X4.  On a connection that is not released and has no transaction
    active, [beginTransaction] succeeds and marks the transaction active;
    from there both [commitTransaction] and [rollbackTransaction] succeed
    and give the connection back as it was.  A second begin fails with
    TransactionAlreadyStartedError, and a commit or a rollback without a
    begin with TransactionNotStartedError, the connection unchanged. *)
Theorem transaction_round_trip (q : State) :
  isReleased q = false →
  isTransactionActive q = false →
  let q' := (beginTransaction q).2 in
  beginTransaction q = (Ok tt, q')
  ∧ isTransactionActive q' = true
  ∧ commitTransaction q' = (Ok tt, q)
  ∧ rollbackTransaction q' = (Ok tt, q)
  ∧ beginTransaction q' = (Err TransactionAlreadyStartedError, q')
  ∧ commitTransaction q = (Err TransactionNotStartedError, q)
  ∧ rollbackTransaction q = (Err TransactionNotStartedError, q).
Proof.
  destruct q as [released active tables script]. simpl. intros -> ->.
  by unfold beginTransaction, commitTransaction, rollbackTransaction.
Qed.

(** X5.  Once the connection is released every operation of the query
    runner throws QueryRunnerAlreadyReleasedError before anything is handed
    to the engine: the transaction state, the tables and the replies still
    to come are untouched. *)
Theorem released_runner_refuses (q : State) tableName keyValues generatedColumn
    conditions newEntityId parentId hasLevel :
  isReleased q = true →
  beginTransaction q = (Err QueryRunnerAlreadyReleasedError, q)
  ∧ commitTransaction q = (Err QueryRunnerAlreadyReleasedError, q)
  ∧ rollbackTransaction q = (Err QueryRunnerAlreadyReleasedError, q)
  ∧ insert tableName keyValues generatedColumn q = (Err QueryRunnerAlreadyReleasedError, q)
  ∧ update tableName keyValues conditions q = (Err QueryRunnerAlreadyReleasedError, q)
  ∧ delete tableName (Some conditions) q = (Err QueryRunnerAlreadyReleasedError, q)
  ∧ insertIntoClosureTable tableName newEntityId parentId hasLevel q
    = (Err QueryRunnerAlreadyReleasedError, q).
Proof.
  intros Hreleased.
  unfold beginTransaction, commitTransaction, rollbackTransaction, insert, update, delete,
    insertIntoClosureTable.
  by rewrite Hreleased.
Qed.

End WebsqlTransaction.


(** ** The calls of a successful run *)

Section SuccessfulRun.
Context {Q : Type} `{!QueryRunner Q} `{!Collaborators}.
Implicit Types w : World Q.

#[global] Instance quiet_preorder : PreOrder (quiet (Q := Q)).
Proof.
  split; [done|]. intros w1 w2 w3 [Ht1 Hf1] [Ht2 Hf2]. split; congruence.
Qed.

#[global] Instance quiet_ignores_runner : IgnoresRunner (quiet (Q := Q)).
Proof. done. Qed.

#[global] Instance quiet_ignores_subjects : IgnoresSubjects (quiet (Q := Q)).
Proof. done. Qed.

#[global] Instance quiet_ignores_entities : IgnoresEntities (quiet (Q := Q)).
Proof. done. Qed.

Lemma run_broadcastBefore w :
  ∃ r ins upd rem h,
    broadcaster_broadcastBeforeEventsForAll w
    = (r, set_entities h (add_event (EBroadcastBefore ins upd rem) w)).
Proof.
  unfold broadcaster_broadcastBeforeEventsForAll. lazy zeta.
  destruct (broadcastBeforeEventsForAll _ _ _ _) as [r h]. by eexists _, _, _, _, _.
Qed.

Lemma run_broadcastAfter w :
  ∃ r ins upd rem h,
    broadcaster_broadcastAfterEventsForAll w
    = (r, set_entities h (add_event (EBroadcastAfter ins upd rem) w)).
Proof.
  unfold broadcaster_broadcastAfterEventsForAll. lazy zeta.
  destruct (broadcastAfterEventsForAll _ _ _ _) as [r h]. by eexists _, _, _, _, _.
Qed.

(** The refresh of the entities and the "after" broadcast, when they
    succeed. *)
Lemma run_finish_ok w wf :
  (updateSpecialColumnsInPersistedEntities ≫= λ _, broadcaster_broadcastAfterEventsForAll) w
  = (Ok tt, wf) →
  ∃ ins upd rem, trace wf = trace w ++ [EBroadcastAfter ins upd rem].
Proof.
  intros E. rewrite run_bind in E.
  destruct (preserves_refresh (quiet (Q := Q)) w) as [Ht _].
  destruct (updateSpecialColumnsInPersistedEntities w) as [[[]|e] w1]; [|done].
  simpl in Ht.
  destruct (run_broadcastAfter w1) as (r & ins & upd & rem & h & E1).
  rewrite E1 in E. injection E as -> <-.
  exists ins, upd, rem. simpl. by rewrite Ht.
Qed.

(** From the "before" broadcast to the "after" broadcast, when all of it
    succeeds. *)
Lemma run_body_ok w wf :
  (broadcaster_broadcastBeforeEventsForAll ≫= λ _,
   world ≫= λ w,
   forEach (λ i, h ← heap; modify_subject i (recompute h)) (updateSubjects w) ≫= λ _,
   executeOperations ≫= λ _, executeClose) w = (Ok tt, wf) →
  ∃ ins upd rem ins' upd' rem' operations,
    Forall operation operations
    ∧ added w wf
        (EBroadcastBefore ins upd rem :: operations
         ++ (if isTransactionStartedByItself w then [ECommitTransaction] else [])
         ++ [EBroadcastAfter ins' upd' rem']).
Proof.
  intros E. rewrite run_bind in E.
  destruct (run_broadcastBefore w) as (r1 & ins & upd & rem & h1 & E1). rewrite E1 in E.
  destruct r1 as [[]|e]; [|done].
  set (w1 := set_entities h1 _) in E. rewrite run_world_bind, run_bind in E.
  assert (preserves (quiet (Q := Q))
            (forEach (λ i, h ← heap; modify_subject i (recompute h)) (updateSubjects w1)))
    as H2 by frame.
  destruct (H2 w1) as [Ht2 Hf2].
  destruct (forEach _ _ w1) as [[[]|e] w2]; [|done]. simpl in Ht2, Hf2.
  rewrite run_bind in E.
  destruct (preserves_executeOperations (only operation) w2)
    as (Hf3 & operations & Ht3 & Hoperations).
  destruct (executeOperations w2) as [[[]|e] w3]; [|done]. simpl in Hf3, Ht3.
  unfold executeClose in E. rewrite run_world_bind, run_bind in E.
  assert (isTransactionStartedByItself w3 = isTransactionStartedByItself w) as Hf
    by (by rewrite Hf3, Hf2).
  rewrite Hf in E.
  destruct (isTransactionStartedByItself w).
  - unfold queryRunner_commitTransaction, call in E.
    destruct (commitTransaction (runner w3)) as [[[]|e] q]; simpl in E; [|done].
    apply run_finish_ok in E as (ins' & upd' & rem' & Ht5).
    exists ins, upd, rem, ins', upd', rem', operations. split; [done|].
    unfold added in *. rewrite Ht5. simpl. rewrite Ht3, Ht2. subst w1. simpl.
    by rewrite <- !app_assoc.
  - simpl in E. apply run_finish_ok in E as (ins' & upd' & rem' & Ht5).
    exists ins, upd, rem, ins', upd', rem', operations. split; [done|].
    unfold added in *. rewrite Ht5, Ht3, Ht2. subst w1. simpl.
    by rewrite <- !app_assoc.
Qed.

(** X6.  A call that has something to do and succeeds has made these
    calls, in this order: the provider, the query of the transaction state,
    the begin when no transaction was active, the "before" broadcast, the
    statements of the phases, the commit when it had begun the transaction,
    and the "after" broadcast.  So every statement is sent inside the
    transaction, and the "after" events are broadcast once it is committed. *)
Theorem successful_run_calls input w :
  nothingToExecute input = false →
  (execute input w).1 = Ok tt →
  let joined := isTransactionActive (runner w) in
  ∃ ins upd rem ins' upd' rem' operations,
    Forall operation operations
    ∧ added w (execute input w).2
        (EProvide :: EIsTransactionActive joined
         :: (if joined then [] else [EBeginTransaction])
         ++ EBroadcastBefore ins upd rem :: operations
         ++ (if joined then [] else [ECommitTransaction])
         ++ [EBroadcastAfter ins' upd' rem']).
Proof.
  intros Hnothing Hok joined.
  destruct (execute input w) as [r wf] eqn:E. simpl in Hok. subst r. simpl.
  unfold execute in E. rewrite run_bind in E.
  destruct (run_validate input w) as (r0 & Hvalidate & _). rewrite Hvalidate in E.
  destruct r0 as [[]|e0]; [|done].
  rewrite run_modify_bind, Hnothing, run_modify_bind in E.
  set (w0 := set_started false (installed input w)) in E.
  unfold try_catch in E.
  destruct (executeTry w0) as [[[]|e] w'] eqn:Etry.
  2: { destruct (run_catch e w') as (w'' & Hcatch & _). by rewrite Hcatch in E. }
  injection E as <-.
  rewrite run_executeTry, run_bind in Etry. unfold queryRunnerProvider_provide in Etry.
  destruct provide as [[]|e]; [|done].
  rewrite run_bind in Etry. unfold queryRunner_isTransactionActive in Etry.
  lazy zeta in Etry. simpl runner in Etry. fold joined in Etry.
  destruct joined; simpl negb in Etry; lazy iota in Etry.
  - rewrite run_ret_bind in Etry.
    apply run_body_ok in Etry as (ins & upd & rem & ins' & upd' & rem' & ops & Hops & Ht).
    exists ins, upd, rem, ins', upd', rem', ops. split; [done|].
    unfold added in *. rewrite Ht. simpl. by rewrite <- !app_assoc.
  - rewrite (run_bind (modify _ ≫= _)), run_modify_bind in Etry.
    unfold queryRunner_beginTransaction, call in Etry.
    destruct (beginTransaction _) as [[[]|e] q]; simpl in Etry; [|done].
    apply run_body_ok in Etry as (ins & upd & rem & ins' & upd' & rem' & ops & Hops & Ht).
    exists ins, upd, rem, ins', upd', rem', ops. split; [done|].
    unfold added in *. rewrite Ht. simpl. by rewrite <- !app_assoc.
Qed.

End SuccessfulRun.


(** ** The executor on a WebSQL connection *)

Section OnWebsql.
Context `{!Collaborators}.
Implicit Types w : World WebsqlQueryRunner.State.
Import Reading.

#[global] Instance steady_preorder : PreOrder steady.
Proof.
  split; [done|]. intros w1 w2 w3 [Hf1 Hc1] [Hf2 Hc2]. split; congruence.
Qed.

#[global] Instance steady_ignores_events (P : Event → Prop) : IgnoresEvents P steady.
Proof. done. Qed.

#[global] Instance steady_ignores_subjects : IgnoresSubjects steady.
Proof. done. Qed.

#[global] Instance steady_ignores_entities : IgnoresEntities steady.
Proof. done. Qed.

Lemma executeSql_connectionState q :
  connectionState (WebsqlQueryRunner.executeSql q).2 = connectionState q.
Proof.
  unfold WebsqlQueryRunner.executeSql.
  by destruct (WebsqlQueryRunner.replies q) as [|[] ?].
Qed.

(** A statement changes neither the release state nor the transaction
    state of the connection. *)
Lemma statement_connectionState q q' :
  statement q q' → connectionState q' = connectionState q.
Proof.
  intros [t kv g|t v c|t c|t id p l]; simpl.
  - unfold WebsqlQueryRunner.insert.
    destruct (WebsqlQueryRunner.isReleased q); [done|].
    pose proof (executeSql_connectionState q).
    by destruct (WebsqlQueryRunner.executeSql q) as [[?|?] ?].
  - unfold WebsqlQueryRunner.update.
    destruct (WebsqlQueryRunner.isReleased q); [done|].
    pose proof (executeSql_connectionState q).
    by destruct (WebsqlQueryRunner.executeSql q) as [[?|?] ?].
  - unfold WebsqlQueryRunner.delete.
    destruct (WebsqlQueryRunner.isReleased q); [done|]. destruct c; [|done].
    pose proof (executeSql_connectionState q).
    by destruct (WebsqlQueryRunner.executeSql q) as [[?|?] ?].
  - unfold WebsqlQueryRunner.insertIntoClosureTable.
    destruct (WebsqlQueryRunner.isReleased q); [done|].
    destruct (WebsqlQueryRunner.sqlInteger id); [|done].
    destruct (WebsqlQueryRunner.sqlInteger p); [|done].
    pose proof (executeSql_connectionState q) as H1.
    destruct (WebsqlQueryRunner.executeSql q) as [[?|?] q1]; [|done].
    match goal with
    | |- context [WebsqlQueryRunner.executeSql ?q2] =>
        pose proof (executeSql_connectionState q2) as H2;
        destruct (WebsqlQueryRunner.executeSql q2) as [[?|?] q3]
    end; simpl in *; by rewrite H2, <- H1.
Qed.

#[global] Instance steady_ignores_statements : IgnoresStatements steady.
Proof. intros q w Hq. split; [done|]. simpl. by apply statement_connectionState. Qed.

Lemma preserves_finish_steady :
  preserves steady
    (updateSpecialColumnsInPersistedEntities ≫= λ _, broadcaster_broadcastAfterEventsForAll).
Proof.
  apply preserves_bind; [tc_solve | apply preserves_refresh; tc_solve |].
  intros _. by apply (preserves_broadcastAfter _ (λ _, True)).
Qed.

(** From the "before" broadcast to the last phase, and on to [k]: either a
    step before [k] fails, or [k] is run. *)
Lemma run_body_steady (k : M WebsqlQueryRunner.State unit) w :
  let m := broadcaster_broadcastBeforeEventsForAll ≫= λ _,
           world ≫= λ w,
           forEach (λ i, h ← heap; modify_subject i (recompute h)) (updateSubjects w) ≫= λ _,
           executeOperations ≫= λ _, k in
  (is_ok (m w).1 = false ∧ steady w (m w).2)
  ∨ (∃ w', steady w w' ∧ m w = k w').
Proof.
  intros m. subst m. rewrite run_bind.
  pose proof (preserves_broadcastBefore steady (λ _, True) (λ _ _ _, I) w) as H1.
  destruct (broadcaster_broadcastBeforeEventsForAll w) as [[[]|e] w1]; [|by left].
  rewrite run_world_bind, run_bind.
  assert (preserves steady
            (forEach (λ i, h ← heap; modify_subject i (recompute h)) (updateSubjects w1)))
    as H2 by frame.
  specialize (H2 w1).
  destruct (forEach _ _ w1) as [[[]|e] w2]; simpl in *;
    [|left; split; [done | by etransitivity]].
  rewrite run_bind.
  pose proof (preserves_executeOperations steady w2) as H3.
  destruct (executeOperations w2) as [[[]|e] w3]; simpl in *.
  - right. exists w3. split; [|done]. by do 2 (etransitivity; [eassumption|]).
  - left. split; [done|]. by do 2 (etransitivity; [eassumption|]).
Qed.

Lemma close_joined_steady w :
  isTransactionStartedByItself w = false → steady w (executeClose w).2.
Proof.
  intros Hjoined. unfold executeClose. rewrite run_world_bind, Hjoined.
  apply preserves_finish_steady.
Qed.

Lemma close_owner_steady w :
  isTransactionStartedByItself w = true →
  connectionState (runner w) = (false, true) →
  isTransactionStartedByItself (executeClose w).2 = true
  ∧ connectionState (runner (executeClose w).2) = (false, false).
Proof.
  intros Howner [= Hreleased Hactive]. unfold executeClose.
  rewrite run_world_bind, Howner, run_bind.
  unfold queryRunner_commitTransaction, call. simpl.
  unfold WebsqlQueryRunner.commitTransaction. rewrite Hreleased, Hactive. simpl.
  match goal with
  | |- context [(_ ≫= _) ?w1] => destruct (preserves_finish_steady w1) as [Hf Hc]
  end.
  simpl in *. split; [by rewrite Hf|]. rewrite Hc. unfold connectionState. simpl.
  by rewrite Hreleased.
Qed.

Lemma catch_connection error w :
  runner (executeCatch error w).2
  = if isTransactionStartedByItself w
    then (WebsqlQueryRunner.rollbackTransaction (runner w)).2
    else runner w.
Proof.
  unfold executeCatch. rewrite run_world_bind.
  destruct (isTransactionStartedByItself w); [|done].
  rewrite run_bind. unfold try_catch, queryRunner_rollbackTransaction, call. simpl.
  by destruct (WebsqlQueryRunner.rollbackTransaction (runner w)) as [[[]|e] q].
Qed.

Lemma rollback_connectionState q :
  connectionState (WebsqlQueryRunner.rollbackTransaction q).2
  = ((connectionState q).1, (connectionState q).1 && (connectionState q).2).
Proof.
  unfold WebsqlQueryRunner.rollbackTransaction, connectionState. simpl.
  by destruct (WebsqlQueryRunner.isReleased q) eqn:Hr,
    (WebsqlQueryRunner.isTransactionActive q) eqn:Ha; simpl; rewrite ?Hr, ?Ha.
Qed.

Ltac final E := apply (f_equal snd) in E; simpl snd in E; subst.

(** X7.  Whatever the batch and however the call ends, [execute] leaves a
    WebSQL connection in the state it found it in: a transaction that was
    active is still active, since the call joined it and neither committed
    nor rolled back, and when none was active none is left open, the call
    having committed or rolled back the one it began.  The release state
    is untouched. *)
Theorem execute_restores_connection input w :
  connectionState (runner (execute input w).2) = connectionState (runner w).
Proof.
  destruct (execute input w) as [r wf] eqn:E. simpl.
  unfold execute in E. rewrite run_bind in E.
  destruct (run_validate input w) as (r0 & Hvalidate & _). rewrite Hvalidate in E.
  destruct r0 as [[]|e0]; [|by injection E as <- <-].
  rewrite run_modify_bind in E.
  destruct (nothingToExecute input); [by injection E as <- <-|].
  rewrite run_modify_bind in E.
  set (w0 := set_started false (installed input w)) in E.
  assert (connectionState (runner w0) = connectionState (runner w)) as <- by done.
  assert (isTransactionStartedByItself w0 = false) as Hflag by done.
  clearbody w0. clear Hvalidate w.
  unfold try_catch in E. rewrite run_executeTry, run_bind in E.
  unfold queryRunnerProvider_provide in E.
  destruct provide as [[]|e].
  2: { final E. rewrite catch_connection. simpl. by rewrite Hflag. }
  rewrite run_bind in E. unfold queryRunner_isTransactionActive in E.
  lazy zeta in E. simpl runner in E. simpl isTransactionActive in E.
  destruct (WebsqlQueryRunner.isTransactionActive (runner w0)) eqn:Hactive;
    simpl negb in E; lazy iota in E.
  - rewrite run_ret_bind in E.
    match type of E with context [(_ ≫= _) ?x] => set (w3 := x) in E end.
    pose proof (run_body_steady executeClose w3) as Hbody. lazy zeta in Hbody.
    match type of E with
    | context [(broadcaster_broadcastBeforeEventsForAll ≫= ?f) w3] =>
        destruct ((broadcaster_broadcastBeforeEventsForAll ≫= f) w3) as [rb wb]
    end.
    simpl in Hbody.
    assert (isTransactionStartedByItself wb = false
            ∧ connectionState (runner wb) = connectionState (runner w3)) as [Hf Hc].
    { destruct Hbody as [[_ [-> ->]]|(w' & [Hf Hc] & Hrun)]; [done|].
      assert (wb = (executeClose w').2) as -> by (by rewrite <- Hrun).
      destruct (close_joined_steady w') as [-> ->]; by rewrite ?Hf, ?Hc. }
    destruct rb as [[]|e]; final E; [done|].
    rewrite catch_connection, Hf. done.
  - rewrite (run_bind (modify _ ≫= _)), run_modify_bind in E.
    unfold queryRunner_beginTransaction, call in E. simpl in E.
    unfold WebsqlQueryRunner.beginTransaction in E. rewrite Hactive in E.
    destruct (WebsqlQueryRunner.isReleased (runner w0)) eqn:Hreleased; simpl in E.
    { final E. rewrite catch_connection. simpl.
      rewrite rollback_connectionState. unfold connectionState.
      by rewrite Hreleased, Hactive. }
    match type of E with context [(_ ≫= _) ?x] => set (w5 := x) in E end.
    assert (connectionState (runner w5) = (false, true)) as Hc5
      by (unfold connectionState; simpl; by rewrite Hreleased).
    assert (isTransactionStartedByItself w5 = true) as Hf5 by done.
    assert (connectionState (runner w0) = (false, false)) as ->
      by (unfold connectionState; by rewrite Hreleased, Hactive).
    pose proof (run_body_steady executeClose w5) as Hbody. lazy zeta in Hbody.
    match type of E with
    | context [(broadcaster_broadcastBeforeEventsForAll ≫= ?f) w5] =>
        destruct ((broadcaster_broadcastBeforeEventsForAll ≫= f) w5) as [rb wb]
    end.
    clearbody w5. simpl in Hbody.
    assert (isTransactionStartedByItself wb = true
            ∧ (is_ok rb = false ∧ connectionState (runner wb) = (false, true)
               ∨ connectionState (runner wb) = (false, false))) as [Hf Hc].
    { destruct Hbody as [[Hfail [-> ->]]|(w' & [Hf Hc] & Hrun)]; [by auto|].
      assert (wb = (executeClose w').2) as -> by (by rewrite <- Hrun).
      destruct (close_owner_steady w') as [-> ->]; by rewrite ?Hf, ?Hc; auto. }
    destruct rb as [[]|e]; final E.
    + by destruct Hc as [[? _] | ->].
    + rewrite catch_connection, Hf, rollback_connectionState.
      by destruct Hc as [[_ ->] | ->].
Qed.

End OnWebsql.


Section OnReleasedConnection.
Context `{!Collaborators}.
Implicit Types w : World WebsqlQueryRunner.State.

(** X8.  On a released WebSQL connection without active transaction a
    call with something to do fails at the begin of the transaction: it
    rejects with QueryRunnerAlreadyReleasedError after the attempt to roll
    back, which fails too and is swallowed; the "before" events are not
    broadcast, no statement is sent and no entity is written. *)
Theorem execute_on_released_connection input w :
  Forall (λ subject, validate subject = Ok tt) input →
  nothingToExecute input = false →
  provide = Ok tt →
  WebsqlQueryRunner.isReleased (runner w) = true →
  WebsqlQueryRunner.isTransactionActive (runner w) = false →
  (execute input w).1 = Err QueryRunnerAlreadyReleasedError
  ∧ added w (execute input w).2
      [EProvide; EIsTransactionActive false; EBeginTransaction; ERollbackTransaction]
  ∧ entities (execute input w).2 = entities w
  ∧ runner (execute input w).2 = runner w.
Proof.
  intros Hvalid Hnothing Hprovide Hreleased Hactive.
  destruct (execute input w) as [r wf] eqn:E. simpl.
  unfold execute in E. rewrite run_bind in E.
  destruct (run_validate input w) as (r0 & -> & Hr) in E. rewrite (Hr Hvalid) in E.
  rewrite run_modify_bind, Hnothing, run_modify_bind in E.
  unfold try_catch in E. rewrite run_executeTry, run_bind in E.
  unfold queryRunnerProvider_provide in E. rewrite Hprovide in E.
  rewrite run_bind in E. unfold queryRunner_isTransactionActive in E.
  lazy zeta in E. simpl in E. rewrite Hactive in E. simpl in E.
  rewrite (run_bind (modify _ ≫= _)), run_modify_bind in E.
  unfold queryRunner_beginTransaction, call in E. simpl in E.
  unfold WebsqlQueryRunner.beginTransaction in E. rewrite Hreleased in E. simpl in E.
  unfold executeCatch in E. rewrite run_world_bind in E. simpl in E.
  rewrite run_bind in E.
  unfold try_catch, queryRunner_rollbackTransaction, call in E. simpl in E.
  unfold WebsqlQueryRunner.rollbackTransaction in E. rewrite Hreleased in E. simpl in E.
  injection E as <- <-. split; [done|]. split; [|done].
  unfold added. simpl. by rewrite <- !app_assoc.
Qed.

End OnReleasedConnection.

Section ClosureRoot.
Import WebsqlQueryRunner.

(** X9.  A closure-table insert under a parent id that no row of the table
    has as descendant, as the id 0 handed over for an entity without parent,
    adds the self-referencing row of the new entity and nothing else, and
    answers the level 1. *)
Theorem closure_insert_of_root (q : State) tableName (c p : Z) tracked rows :
  Reading.accepting q →
  closureTables q !! tableName = Some rows →
  Forall (λ row, descendant row ≠ p) rows →
  c ≠ p →
  let result := insertIntoClosureTable tableName (VNum c) (VNum p) tracked q in
  result.1 = Ok (VNum 1)
  ∧ closureTables result.2 !! tableName
    = Some (rows ++ [ {| ancestor := c; descendant := c;
                         level := if tracked then Some 1 else None |} ]).
Proof.
  intros Haccepting Hrows Hnone Hc result. subst result.
  unfold insertIntoClosureTable.
  destruct Haccepting as [Hreleased Hreplies]. rewrite Hreleased.
  destruct (executeSql_accepting q) as (v1 & q1 & -> & Htables1 & Hacc1); [done|].
  rewrite Htables1, Hrows. simpl.
  set (rows' := rows ++ closureRowsFor rows c p tracked).
  destruct (executeSql_accepting (set_closureTable tableName rows' q1))
    as (v2 & q2 & -> & Htables2 & Hacc2); [by destruct Hacc1|].
  rewrite Htables2. simpl. rewrite lookup_insert_eq. simpl.
  unfold rows'. rewrite (maxLevel_after_insert _ _ _ _ Hc).
  unfold maxLevel. rewrite (filter_descendant_other _ _ Hnone). simpl.
  split; [done|]. rewrite Htables2. simpl. rewrite lookup_insert_eq.
  unfold rows', closureRowsFor. by rewrite (filter_descendant_other _ _ Hnone).
Qed.

End ClosureRoot.


(** ** Removal from junction tables, and relation updates *)

Section JunctionRemoval.
Context {Q : Type} `{!QueryRunner Q} `{!Collaborators}.
Implicit Types w : World Q.

Lemma run_junction_deletes tableName (ownColumn relateColumn : ColumnMetadata) ownId
    relationIds :
  ∀ w, ∃ promises w',
    mapM (λ relationId,
            ownColumn ← some (Some ownColumn);
            relateColumn ← some (Some relateColumn);
            async (queryRunner_delete tableName
                     (Some (obj_set (column_fullName relateColumn) relationId
                              (obj_set (column_fullName ownColumn) ownId [])))))
         relationIds w
    = (Ok promises, w')
    ∧ added w w' ((λ relationId,
                     EDelete tableName
                       (Some (obj_set (column_fullName relateColumn) relationId
                                (obj_set (column_fullName ownColumn) ownId []))))
                  <$> relationIds).
Proof.
  induction relationIds as [|id ids IH]; intros w.
  - exists [], w. split; [done|]. unfold added. simpl. by rewrite app_nil_r.
  - cbn [mapM]. rewrite run_bind. lazy beta.
    rewrite (run_some_bind _ _ ownColumn _ eq_refl).
    rewrite (run_some_bind _ _ relateColumn _ eq_refl).
    unfold async at 1, queryRunner_delete at 1, call at 1.
    destruct (runner_delete _ _ (runner w)) as [r q]. lazy beta iota zeta.
    set (w1 := set_runner q _).
    destruct (IH w1) as (promises & w' & Hrun & Hadded).
    rewrite run_bind, Hrun. eexists _, w'. split; [done|].
    unfold added in *. rewrite Hadded, fmap_cons. subst w1. cbn [trace set_runner add_event].
    by rewrite <- app_assoc.
Qed.

(** X10.  For a pending junction removal one delete is sent to the junction
    table per relation id, keyed by the own id under the first junction
    column and the relation id under the second one on the owning side, and
    the other way round on the inverse side.  The own id is taken as the
    relation reads it from the entity (or from the database entity when the
    subject has no entity) and is not checked, and every delete is sent
    whatever the answers to the earlier ones. *)
Theorem junction_deletes_per_relation_id w i s junctionRemove junction ownColumn
    relateColumn ownId :
  let relation := junctionRemove_relation junctionRemove in
  subjects w !! i = Some s →
  getOwnEntityRelationId relation (entities w)
    (if hasEntity s then object_value (entity s) else object_value (databaseEntity s))
  = Ok ownId →
  junctionEntityMetadata relation = Some junction →
  (if isOwning relation then columns junction !! 0%nat else columns junction !! 1%nat)
  = Some ownColumn →
  (if isOwning relation then columns junction !! 1%nat else columns junction !! 0%nat)
  = Some relateColumn →
  added w (removeJunctions i junctionRemove w).2
    ((λ relationId,
        EDelete (table_name (table junction))
          (Some (obj_set (column_fullName relateColumn) relationId
                   (obj_set (column_fullName ownColumn) ownId []))))
     <$> junctionRelationIds junctionRemove).
Proof.
  intros relation Hs HownId Hjunction Hown Hrelate.
  unfold removeJunctions. fold relation.
  rewrite (run_deref_bind _ _ _ _ Hs). lazy zeta.
  rewrite run_heap_bind, (run_lift_bind _ _ _ _ HownId), (run_some_bind _ _ _ _ Hjunction).
  rewrite Hown, Hrelate.
  destruct (run_junction_deletes (table_name (table junction)) ownColumn relateColumn
              ownId (junctionRelationIds junctionRemove) w)
    as (promises & w' & Hrun & Hadded).
  rewrite run_bind, Hrun, run_bind. unfold Promise_all, lift.
  by destruct (settle promises).
Qed.

End JunctionRemoval.


(** ** The refresh of the entities after persistence *)

Section Refresh.
Context {Q : Type} `{!QueryRunner Q} `{!Collaborators}.
Implicit Types w : World Q.

#[global] Instance entitiesOnly_preorder : PreOrder (entitiesOnly (Q := Q)).
Proof.
  split; [done|]. intros w1 w2 w3 (? & ? & ?) (? & ? & ?). repeat split; congruence.
Qed.

#[global] Instance entitiesOnly_ignores_entities : IgnoresEntities (entitiesOnly (Q := Q)).
Proof. done. Qed.

#[global] Instance untouched_preorder l store : PreOrder (untouched (Q := Q) l store).
Proof.
  split; [done|]. intros w1 w2 w3 H1 H2 Hstore.
  destruct (H1 Hstore) as [Hstore2 He1]. destruct (H2 Hstore2) as [Hstore3 He2].
  split; [done | congruence].
Qed.

Lemma preserves_set_other l store o p v :
  o ≠ Some l → preserves (untouched (Q := Q) l store) (set o p v).
Proof.
  intros Ho. destruct o as [l0|]; [|apply preserves_throw; tc_solve].
  intros w Hstore. split; [done|]. simpl. unfold assign.
  rewrite lookup_insert_ne; [done | congruence].
Qed.

Lemma preserves_forEach_in {A} (R : relation (World Q)) `{!PreOrder R}
    (f : A → M Q unit) l :
  (∀ a, a ∈ l → preserves R (f a)) → preserves R (forEach f l).
Proof.
  induction l as [|a l IH]; intros Hf; simpl; [apply preserves_ret; tc_solve|].
  apply preserves_bind; [done | apply Hf; by left |].
  intros _. apply IH. intros b Hb. apply Hf. by right.
Qed.

(** A step that starts by reading the Subject [i], and goes on in a way
    that keeps the relation when the Subject is none of [l]. *)
Lemma preserves_deref_other {A} l store i (rest : Subject → M Q A) :
  (∀ s, store !! i = Some s → entity s ≠ Some l) →
  (∀ s, entity s ≠ Some l → preserves (untouched l store) (rest s)) →
  preserves (untouched l store) (deref i ≫= rest).
Proof.
  intros Hi Hrest w Hstore. rewrite run_bind. unfold deref. rewrite Hstore.
  destruct (store !! i) as [s|] eqn:Hs; [|done].
  by apply Hrest; [apply Hi|].
Qed.

End Refresh.

(** Frame steps for an entity that the computation does not write. *)
Ltac frame_other :=
  repeat first [ apply preserves_set_other; assumption | frame_step ].

Section RefreshedEntities.
Context {Q : Type} `{!QueryRunner Q} `{!Collaborators}.
Implicit Types w : World Q.

(** X11.  The refresh of the entities after persistence calls no
    collaborator and changes no Subject, and it writes to the entities of
    the insert, update and remove subjects only: an entity that none of
    them stands for is left as it is. *)
Theorem refresh_is_local w l :
  (∀ i s, i ∈ insertSubjects w ++ updateSubjects w ++ removeSubjects w →
          subjects w !! i = Some s → entity s ≠ Some l) →
  let w' := (updateSpecialColumnsInPersistedEntities w).2 in
  entities w' !! l = entities w !! l
  ∧ trace w' = trace w
  ∧ runner w' = runner w
  ∧ subjects w' = subjects w.
Proof.
  intros Hother w'. subst w'.
  destruct (preserves_refresh (entitiesOnly (Q := Q)) w) as (Htrace & Hrunner & Hsubjects).
  split; [|done].
  assert (untouched l (subjects w) w (updateSpecialColumnsInPersistedEntities w).2)
    as Huntouched; [|by destruct (Huntouched eq_refl)].
  unfold updateSpecialColumnsInPersistedEntities. rewrite run_world_bind.
  revert Hother.
  generalize (insertSubjects w), (updateSubjects w), (removeSubjects w).
  intros ins upd rem Hother.
  assert (∀ i, i ∈ ins ++ upd ++ rem →
               ∀ s, subjects w !! i = Some s → entity s ≠ Some l) as Hin by eauto.
  clear Hother. generalize w at 2 3.
  apply preserves_bind; [tc_solve | | intros _; apply preserves_bind; [tc_solve | | intros _]].
  - apply preserves_forEach_in; [tc_solve|]. intros i Hi.
    apply preserves_deref_other; [apply Hin; set_solver|].
    intros s Hs. frame_other.
  - apply preserves_forEach_in; [tc_solve|]. intros i Hi.
    apply preserves_deref_other; [apply Hin; set_solver|].
    intros s Hs. frame_other.
  - apply preserves_forEach_in; [tc_solve|]. intros i Hi.
    apply preserves_deref_other; [apply Hin; set_solver|].
    intros s Hs. frame_other.
Qed.

Lemma assign_undefined_keeps (h : Heap) l p l0 p0 :
  property h (VRef l) p = Ok VUndefined →
  property (assign h l0 p0 VUndefined) (VRef l) p = Ok VUndefined.
Proof.
  unfold property, assign. intros [= Hp]. f_equal.
  destruct (decide (l0 = l)) as [->|Hl]; [|by rewrite lookup_insert_ne].
  rewrite lookup_insert_eq. simpl.
  destruct (decide (p0 = p)) as [->|Hne]; [by rewrite lookup_insert_eq|].
  rewrite lookup_insert_ne; [|done].
  by destruct (h !! l).
Qed.

Lemma assign_reads_back (h : Heap) l p v : property (assign h l p v) (VRef l) p = Ok v.
Proof. unfold property, assign. by rewrite lookup_insert_eq; simpl; rewrite lookup_insert_eq. Qed.

(** The ids of one entity are cleared (lines 1019-1021). *)
Lemma run_clear_columns l0 cols :
  ∀ w, ∃ w',
    forEach (λ primaryColumn, set (Some l0) (column_propertyName primaryColumn) VUndefined)
            cols w
    = (Ok tt, w')
    ∧ subjects w' = subjects w
    ∧ (∀ l p, property (entities w) (VRef l) p = Ok VUndefined →
              property (entities w') (VRef l) p = Ok VUndefined)
    ∧ (∀ c, c ∈ cols →
            property (entities w') (VRef l0) (column_propertyName c) = Ok VUndefined).
Proof.
  induction cols as [|c cols IH]; intros w.
  - exists w. repeat split; [done|]. by intros c ?%elem_of_nil.
  - cbn [forEach set]. rewrite run_modify_bind.
    set (w1 := set_entities _ w).
    destruct (IH w1) as (w' & E & Hsubjects & Hkeeps & Hcleared).
    exists w'. split; [exact E|]. split; [done|]. split.
    + intros l p Hp. apply Hkeeps. by apply assign_undefined_keeps.
    + intros c' [->|Hc']%elem_of_cons; [|by apply Hcleared].
      apply Hkeeps. apply assign_reads_back.
Qed.

(** The loop over the remove subjects (lines 1016-1022). *)
Lemma run_clear_removed rem :
  ∀ w w',
    forEach (λ i,
               subject ← deref i;
               if hasEntity subject then
                 forEach (λ primaryColumn,
                            set (entity subject) (column_propertyName primaryColumn) VUndefined)
                         (primaryColumns (metadata subject))
               else mret tt)
            rem w
    = (Ok tt, w') →
    (∀ l p, property (entities w) (VRef l) p = Ok VUndefined →
            property (entities w') (VRef l) p = Ok VUndefined)
    ∧ (∀ i s l c, i ∈ rem → subjects w !! i = Some s → entity s = Some l →
                  c ∈ primaryColumns (metadata s) →
                  property (entities w') (VRef l) (column_propertyName c) = Ok VUndefined).
Proof.
  induction rem as [|j rem IH]; intros w w' E.
  - injection E as <-. split; [done|]. by intros i s l c ?%elem_of_nil.
  - cbn [forEach] in E. rewrite run_bind in E.
    destruct (subjects w !! j) as [sj|] eqn:Hj;
      [rewrite (run_deref_bind _ _ _ _ Hj) in E
      |unfold deref in E; rewrite run_bind, Hj in E; done].
    assert (∃ w1, (if hasEntity sj
                   then forEach (λ primaryColumn,
                                   set (entity sj) (column_propertyName primaryColumn)
                                       VUndefined)
                                (primaryColumns (metadata sj))
                   else mret tt) w = (Ok tt, w1)
                  ∧ subjects w1 = subjects w
                  ∧ (∀ l p, property (entities w) (VRef l) p = Ok VUndefined →
                            property (entities w1) (VRef l) p = Ok VUndefined)
                  ∧ (∀ l c, entity sj = Some l → c ∈ primaryColumns (metadata sj) →
                            property (entities w1) (VRef l) (column_propertyName c)
                            = Ok VUndefined))
      as (w1 & E1 & Hsubjects & Hkeeps & Hcleared).
    { clear E. unfold hasEntity. destruct (entity sj) as [l0|]; simpl.
      - destruct (run_clear_columns l0 (primaryColumns (metadata sj)) w)
          as (w1 & E1 & Hsubjects & Hkeeps & Hcleared).
        exists w1. split; [exact E1|]. split; [exact Hsubjects|]. split; [exact Hkeeps|].
        intros l c [= <-]. apply Hcleared.
      - exists w. split; [done|]. split; [done|]. split; [done|]. by intros l c [=]. }
    rewrite E1 in E. destruct (IH w1 w' E) as [Hkeeps' Hcleared'].
    split; [by auto|].
    intros i s l c [->|Hi]%elem_of_cons Hs Hl Hc.
    + assert (sj = s) as -> by congruence. by apply Hkeeps', Hcleared.
    + apply (Hcleared' i s); [done | by rewrite Hsubjects | done..].
Qed.

(** X12.  When the refresh succeeds, every primary column property of the
    entity of a remove subject reads undefined afterwards. *)
Theorem refresh_clears_removed_ids w i s l column :
  (updateSpecialColumnsInPersistedEntities w).1 = Ok tt →
  i ∈ removeSubjects w →
  subjects w !! i = Some s →
  entity s = Some l →
  column ∈ primaryColumns (metadata s) →
  property (entities (updateSpecialColumnsInPersistedEntities w).2) (VRef l)
           (column_propertyName column)
  = Ok VUndefined.
Proof.
  intros Hok Hi Hs Hl Hcolumn.
  destruct (updateSpecialColumnsInPersistedEntities w) as [r w'] eqn:E.
  simpl in Hok. subst r. simpl.
  unfold updateSpecialColumnsInPersistedEntities in E.
  rewrite run_world_bind, run_bind in E.
  match type of E with
  | context [forEach ?f (insertSubjects w) w] =>
      assert (preserves (entitiesOnly (Q := Q)) (forEach f (insertSubjects w))) as H1 by frame;
      destruct (H1 w) as (_ & _ & Hs1);
      destruct (forEach f (insertSubjects w) w) as [[[]|e] w1]; [|done]
  end.
  rewrite run_bind in E.
  match type of E with
  | context [forEach ?f (updateSubjects w) w1] =>
      assert (preserves (entitiesOnly (Q := Q)) (forEach f (updateSubjects w))) as H2 by frame;
      destruct (H2 w1) as (_ & _ & Hs2);
      destruct (forEach f (updateSubjects w) w1) as [[[]|e] w2]; [|done]
  end.
  simpl in Hs1, Hs2.
  destruct (run_clear_removed _ _ _ E) as [_ Hcleared].
  apply (Hcleared i s); [done | by rewrite Hs2, Hs1 | done..].
Qed.

End RefreshedEntities.


(** ** The inserts of one subject *)

Section InsertOrder.
Context {Q : Type} `{!QueryRunner Q} `{!Collaborators}.
Implicit Types w : World Q.

Lemma inserts_app events events' :
  Reading.inserts (events ++ events') = Reading.inserts events ++ Reading.inserts events'.
Proof. apply List.filter_app. Qed.

Lemma inserts_prepares events : Forall isPrepare events → Reading.inserts events = [].
Proof.
  induction 1 as [|e events He _ IH]; [done|].
  unfold Reading.inserts in *. simpl. rewrite IH. by destruct e.
Qed.

Lemma inserts_insert tableName keyValues generatedColumn events :
  Reading.inserts (EInsert tableName keyValues generatedColumn :: events)
  = EInsert tableName keyValues generatedColumn :: Reading.inserts events.
Proof. done. Qed.

Lemma run_ret {A} (a : A) w : (mret a : M Q A) w = (Ok a, w).
Proof. done. Qed.

(** The values of a row are collected with calls to the driver only. *)
Lemma run_collect m e d p v a w :
  ∃ events, added w (collectColumnsAndValues m e d p v a w).2 events
            ∧ Reading.inserts events = [].
Proof.
  pose proof (only_ignores (Q := Q) isPrepare isPrepare (λ e He, He)) as Hself.
  destruct (preserves_collectColumnsAndValues (only isPrepare) m e d p v a w)
    as (_ & events & Hadded & Hevents).
  exists events. split; [done | by apply inserts_prepares].
Qed.

(** What follows the inserts records the generated ids on the Subject and
    calls no collaborator. *)
Lemma run_record_ids i m (newlyGeneratedId' parentGeneratedId' : Value) w :
  trace (((if truthy parentGeneratedId'
           then modify_subject i (set_parentGeneratedId parentGeneratedId') else mret tt);;
          if truthy newlyGeneratedId' then
            if hasGeneratedColumn m
            then modify_subject i (set_newlyGeneratedId newlyGeneratedId')
            else if hasObjectIdColumn m
                 then modify_subject i (set_generatedObjectId newlyGeneratedId')
                 else mret tt
          else mret tt) w).2
  = trace w.
Proof.
  by destruct (truthy parentGeneratedId'), (truthy newlyGeneratedId'),
    (hasGeneratedColumn m), (hasObjectIdColumn m).
Qed.

(** X13.  A subject of a class-table child is inserted into the table of
    the parent first, with the values collected from the parent metadata;
    when these values cannot be collected nothing is inserted, and when the
    query runner rejects the insert the subject is not inserted into its own
    table and the error is the one of the query runner.  Once the insert is
    accepted the values of the own row are collected with the id it
    generated, and the subject is inserted into its own table with them,
    unless they cannot be collected.  Any other subject is inserted into its
    own table once, with the values collected from its metadata, or not at
    all when they cannot be collected. *)
Theorem insert_parent_table_first w i s already :
  subjects w !! i = Some s →
  let m := metadata s in
  let result := insert i already w in
  ∃ events, added w result.2 events ∧
    if isClassTableChild (table m) then
      ∀ parent, parentEntityMetadata m = Some parent →
        let first values :=
          EInsert (table_name (table parent)) values (generatedColumnIfExist parent) in
        let second values :=
          EInsert (table_name (table m)) values (generatedColumnIfExist m) in
        let collected :=
          collectColumnsAndValues parent (entityOf s) (date s) VUndefined
                                  (discriminatorValue m) already w in
        match collected.1 with
        | Err e => result.1 = Err e ∧ Reading.inserts events = []
        | Ok parentValues =>
            let answer :=
              runner_insert (table_name (table parent)) parentValues
                            (generatedColumnIfExist parent) (runner collected.2) in
            match answer.1 with
            | Err e => result.1 = Err e ∧ Reading.inserts events = [first parentValues]
            | Ok parentGeneratedId =>
                match (collectColumnsAndValues m (entityOf s) (date s) parentGeneratedId
                         VUndefined already
                         (set_runner answer.2 (add_event (first parentValues) collected.2))).1
                with
                | Err e => result.1 = Err e ∧ Reading.inserts events = [first parentValues]
                | Ok childValues =>
                    Reading.inserts events = [first parentValues; second childValues]
                end
            end
        end
    else
      match (collectColumnsAndValues m (entityOf s) (date s) VUndefined VUndefined
               already w).1 with
      | Err e => result.1 = Err e ∧ Reading.inserts events = []
      | Ok values =>
          Reading.inserts events
          = [EInsert (table_name (table m)) values (generatedColumnIfExist m)]
      end.
Proof.
  intros Hs m result. subst result.
  destruct (insert i already w) as [r wf] eqn:E. simpl.
  unfold insert in E. rewrite (run_deref_bind _ _ _ _ Hs) in E. lazy zeta in E.
  fold m in E. rewrite run_bind in E.
  destruct (isClassTableChild (table m)).
  - destruct (parentEntityMetadata m) as [parent|] eqn:Hparent.
    2: { simpl in E. injection E as <- <-. exists []. split; [|done].
         unfold added. by rewrite app_nil_r. }
    rewrite (run_some_bind _ _ _ _ eq_refl), run_bind in E.
    match type of E with
    | context [collectColumnsAndValues ?m0 ?e ?d ?p ?v ?a w] =>
        destruct (run_collect m0 e d p v a w) as (events1 & H1 & Hnone1);
        destruct (collectColumnsAndValues m0 e d p v a w) as [[parentValues|e1] w1] eqn:E1
    end; simpl in H1.
    2: { injection E as <- <-. exists events1. split; [done|].
         intros ? [= <-]. lazy zeta. by rewrite E1. }
    rewrite run_bind in E. unfold queryRunner_insert at 1, call at 1 in E.
    destruct (runner_insert _ _ _ (runner w1)) as [[id|e2] q2] eqn:E2.
    2: { injection E as <- <-. eexists. split.
         - unfold added in *. simpl. rewrite H1, <- app_assoc. done.
         - intros ? [= <-]. lazy zeta. rewrite E1. simpl. rewrite E2. simpl.
           repeat first [rewrite inserts_app | rewrite inserts_insert | rewrite Hnone1]; done. }
    lazy beta iota zeta in E. rewrite run_bind in E.
    match type of E with
    | context [collectColumnsAndValues ?m0 ?e ?d ?p ?v ?a ?w2] =>
        destruct (run_collect m0 e d p v a w2) as (events3 & H3 & Hnone3);
        destruct (collectColumnsAndValues m0 e d p v a w2) as [[childValues|e3] w3] eqn:E3
    end; simpl in H3.
    2: { injection E as <- <-. eexists. split.
         - unfold added in *. rewrite H3. simpl. rewrite H1, <- !app_assoc. done.
         - intros ? [= <-]. lazy zeta. rewrite E1. simpl. rewrite E2. simpl. rewrite E3.
           simpl. repeat first [rewrite inserts_app | rewrite inserts_insert | rewrite Hnone1 | rewrite Hnone3]; done. }
    rewrite run_bind in E. unfold queryRunner_insert at 1, call at 1 in E.
    destruct (runner_insert _ _ _ (runner w3)) as [[id'|e4] q4].
    + rewrite run_ret in E. lazy beta iota zeta in E.
      apply (f_equal (λ x, trace x.2)) in E. rewrite run_record_ids in E.
      simpl in E. eexists. split.
      * unfold added in *. rewrite <- E, H3. simpl. rewrite H1, <- !app_assoc. done.
      * intros ? [= <-]. lazy zeta. rewrite E1. simpl. rewrite E2. simpl. rewrite E3.
        simpl. repeat first [rewrite inserts_app | rewrite inserts_insert | rewrite Hnone1 | rewrite Hnone3]; done.
    + injection E as <- <-. eexists. split.
      * unfold added in *. simpl. rewrite H3. simpl. rewrite H1, <- !app_assoc. done.
      * intros ? [= <-]. lazy zeta. rewrite E1. simpl. rewrite E2. simpl. rewrite E3.
        simpl. repeat first [rewrite inserts_app | rewrite inserts_insert | rewrite Hnone1 | rewrite Hnone3]; done.
  - rewrite run_bind in E.
    match type of E with
    | context [collectColumnsAndValues ?m0 ?e ?d ?p ?v ?a w] =>
        destruct (run_collect m0 e d p v a w) as (events1 & H1 & Hnone1);
        destruct (collectColumnsAndValues m0 e d p v a w) as [[values|e1] w1] eqn:E1
    end; simpl in H1.
    2: { injection E as <- <-. exists events1. split; [done | done]. }
    rewrite run_bind in E. unfold queryRunner_insert at 1, call at 1 in E.
    destruct (runner_insert _ _ _ (runner w1)) as [[id|e2] q2].
    + rewrite run_ret in E. lazy beta iota zeta in E.
      apply (f_equal (λ x, trace x.2)) in E. rewrite run_record_ids in E.
      simpl in E. eexists. split.
      * unfold added in *. rewrite <- E, H1, <- !app_assoc. done.
      * simpl. repeat first [rewrite inserts_app | rewrite inserts_insert | rewrite Hnone1]; done.
    + injection E as <- <-. eexists. split.
      * unfold added in *. simpl. rewrite H1, <- !app_assoc. done.
      * simpl. repeat first [rewrite inserts_app | rewrite inserts_insert | rewrite Hnone1]; done.
Qed.

End InsertOrder.


(** ** The statements of one update *)

Section UpdateStatements.
Context {Q : Type} `{!QueryRunner Q} `{!Collaborators}.
Implicit Types w : World Q.

Lemma returns_ret {A} (a : A) (P : A → Prop) : P a → returns (mret a : M Q A) P.
Proof. by intros Ha w a' w' [= <- _]. Qed.

Lemma returns_bind {A B} (m : M Q A) (f : A → M Q B) (P : B → Prop) :
  (∀ a, returns (f a) P) → returns (m ≫= f) P.
Proof.
  intros Hf w b w' E. rewrite run_bind in E.
  destruct (m w) as [[a|e] w1]; [by eapply Hf | done].
Qed.

Lemma returns_seq {A B} (m : M Q A) (f : A → M Q B) (P0 : A → Prop) (P : B → Prop) :
  returns m P0 → (∀ a, P0 a → returns (f a) P) → returns (m ≫= f) P.
Proof.
  intros Hm Hf w b w' E. rewrite run_bind in E.
  destruct (m w) as [[a|e] w1] eqn:E1; [|done].
  eapply Hf; [|exact E]. by eapply Hm.
Qed.

Lemma returns_foldM {A S} (f : S → A → M Q S) (P : S → Prop) l :
  (∀ s a, P s → returns (f s a) P) → ∀ s, P s → returns (foldM f l s) P.
Proof.
  intros Hf. induction l as [|a l IH]; intros s Hs; simpl; [by apply returns_ret|].
  intros w s' w' E. rewrite run_bind in E.
  destruct (f s a w) as [[s1|e] w1] eqn:E1; [|done].
  eapply IH; [|exact E]. by eapply Hf.
Qed.

Ltac returns_step :=
  lazymatch goal with
  | |- returns (mbind _ _) _ => apply returns_bind; intros ?
  | |- returns (mret _) _ => apply returns_ret
  | |- returns (match ?x with _ => _ end) _ => destruct x
  end.

Lemma setValue_tables tableName metadata key value valueMaps :
  ∀ name, name ∈ valueMap_tableName <$> setValue tableName metadata key value valueMaps →
          name ∈ valueMap_tableName <$> valueMaps ∨ name = tableName.
Proof.
  induction valueMaps as [|valueMap rest IH]; intros name; cbn [setValue].
  - intros [->|?%elem_of_nil]%elem_of_cons; by auto.
  - destruct (String.eqb_spec (valueMap_tableName valueMap) tableName) as [Heq|Hne];
      rewrite !fmap_cons.
    + by left.
    + intros [->|Hin]%elem_of_cons; [left; by left|].
      destruct (IH _ Hin); [left; by right | by right].
Qed.

Lemma setValue_distinct tableName metadata key value valueMaps :
  Reading.distinctTables valueMaps →
  Reading.distinctTables (setValue tableName metadata key value valueMaps).
Proof.
  unfold Reading.distinctTables.
  induction valueMaps as [|valueMap rest IH]; cbn [setValue]; intros Hdistinct.
  - apply NoDup_singleton.
  - rewrite fmap_cons in Hdistinct. apply NoDup_cons in Hdistinct as [Hhead Hrest].
    destruct (String.eqb_spec (valueMap_tableName valueMap) tableName) as [Heq|Hne];
      rewrite fmap_cons.
    + by apply NoDup_cons.
    + apply NoDup_cons. split; [|by apply IH].
      intros [?|?]%setValue_tables; done.
Qed.

Lemma returns_updateSpecialColumns m entity' valueMaps :
  Reading.distinctTables valueMaps →
  returns (Q := Q) (updateSpecialColumns m entity' valueMaps) Reading.distinctTables.
Proof.
  intros Hdistinct. unfold updateSpecialColumns.
  apply (returns_seq _ _ Reading.distinctTables).
  - destruct (updateDateColumn m); repeat returns_step; [by apply setValue_distinct | done].
  - intros valueMaps1 Hdistinct1.
    destruct (versionColumn m); repeat returns_step; [by apply setValue_distinct | done].
Qed.

Lemma updatedTables_app events events' :
  Reading.updatedTables (events ++ events')
  = Reading.updatedTables events ++ Reading.updatedTables events'.
Proof. apply omap_app. Qed.

Lemma updatedTables_prepares events :
  Forall isPrepare events → Reading.updatedTables events = [].
Proof.
  induction 1 as [|e events He _ IH]; [done|].
  by destruct e.
Qed.

(** A step that calls the driver only, and what it returns. *)
Lemma run_stage {A} (m : M Q A) (P : A → Prop) w :
  preserves (only isPrepare) m → returns m P →
  ∃ events, added w (m w).2 events
            ∧ Reading.updatedTables events = []
            ∧ ∀ a, (m w).1 = Ok a → P a.
Proof.
  intros Hm HP. destruct (Hm w) as (_ & events & Hadded & Hevents).
  exists events. split; [done|]. split; [by apply updatedTables_prepares|].
  intros a Ha. destruct (m w) as [r w'] eqn:E. simpl in Ha. subst r. by eapply HP.
Qed.

(** The statements of the value maps (lines 779-785): one update per value
    map, up to the first one whose id map cannot be had. *)
Lemma run_update_statements entity' valueMaps :
  ∀ w, ∃ events,
    added w (mapM (λ valueMap,
                     h ← heap;
                     idMap ← lift (getDatabaseEntityIdMap (valueMap_metadata valueMap) h
                                     entity');
                     match idMap with
                     | None =>
                         throw (Thrown "Internal error. Cannot get id of the updating entity.")
                     | Some idMap =>
                         async (queryRunner_update (valueMap_tableName valueMap)
                                                   (valueMap_values valueMap) idMap)
                     end) valueMaps w).2 events
    ∧ Reading.updatedTables events `sublist_of` valueMap_tableName <$> valueMaps.
Proof.
  induction valueMaps as [|valueMap rest IH]; intros w.
  - exists []. split; [|done]. unfold added. simpl. by rewrite app_nil_r.
  - cbn [mapM]. rewrite run_bind, run_heap_bind. unfold lift at 1. rewrite run_bind.
    destruct (getDatabaseEntityIdMap _ _ _) as [[idMap|]|e].
    + unfold async at 1, queryRunner_update at 1, call at 1.
      destruct (runner_update _ _ _ (runner w)) as [r q]. lazy beta iota zeta.
      set (w1 := set_runner q _).
      destruct (IH w1) as (events & Hadded & Hsub).
      rewrite run_bind.
      destruct (mapM _ rest w1) as [[promises|e] w'];
        (eexists; split;
         [unfold added in *; simpl in *; rewrite Hadded; subst w1; simpl;
          rewrite <- app_assoc; reflexivity
         |simpl; by apply sublist_skip]).
    + exists []. split; [unfold added; simpl; by rewrite app_nil_r|].
      apply sublist_nil_l.
    + exists []. split; [unfold added; simpl; by rewrite app_nil_r|].
      apply sublist_nil_l.
Qed.

(** X14.  The update of one subject sends at most one update statement per
    table: the columns and relations that changed, the update date and the
    version are gathered into one value map per table before anything is
    sent. *)
Theorem update_one_statement_per_table w i :
  ∃ events, added w (update i w).2 events ∧ NoDup (Reading.updatedTables events).
Proof.
  pose proof (only_ignores (Q := Q) isPrepare isPrepare (λ e He, He)) as Hself.
  destruct (update i w) as [r wf] eqn:E. simpl.
  unfold update in E. rewrite run_bind in E. unfold deref at 1 in E.
  destruct (subjects w !! i) as [s|];
    [|injection E as <- <-; exists []; split; [unfold added; by rewrite app_nil_r | constructor]].
  lazy beta iota zeta in E. rewrite run_bind in E.
  match type of E with
  | context [foldM ?f ?l ?a w] =>
      destruct (run_stage (foldM f l a) Reading.distinctTables w) as (e1 & H1 & Hn1 & Hd1);
        [frame
        |apply returns_foldM; [|by unfold Reading.distinctTables; simpl; constructor]; intros;
         repeat returns_step; [by apply setValue_distinct | done]|];
      destruct (foldM f l a w) as [[valueMaps1|err] w1]
  end; simpl in H1, Hd1.
  2: { injection E as <- <-. exists e1. split; [done|]. rewrite Hn1. constructor. }
  specialize (Hd1 _ eq_refl). rewrite run_bind in E.
  match type of E with
  | context [foldM ?f ?l ?a w1] =>
      destruct (run_stage (foldM f l a) Reading.distinctTables w1) as (e2 & H2 & Hn2 & Hd2);
        [frame
        |apply returns_foldM; [|done]; intros;
         repeat returns_step; by apply setValue_distinct|];
      destruct (foldM f l a w1) as [[valueMaps2|err] w2]
  end; simpl in H2, Hd2.
  2: { injection E as <- <-. exists (e1 ++ e2).
       split; [unfold added in *; by rewrite H2, H1, app_assoc|].
       rewrite updatedTables_app, Hn1, Hn2. constructor. }
  specialize (Hd2 _ eq_refl).
  destruct valueMaps2 as [|valueMap rest].
  { injection E as <- <-. exists (e1 ++ e2).
    split; [unfold added in *; by rewrite H2, H1, app_assoc|].
    rewrite updatedTables_app, Hn1, Hn2. constructor. }
  rewrite run_bind in E.
  match type of E with
  | context [updateSpecialColumns ?m ?e ?v w2] =>
      destruct (run_stage (updateSpecialColumns m e v) Reading.distinctTables w2)
        as (e3 & H3 & Hn3 & Hd3);
        [frame | by apply returns_updateSpecialColumns|];
      destruct (updateSpecialColumns m e v w2) as [[valueMaps3|err] w3]
  end; simpl in H3, Hd3.
  2: { injection E as <- <-. exists (e1 ++ e2 ++ e3).
       split; [unfold added in *; by rewrite H3, H2, H1, !app_assoc|].
       rewrite !updatedTables_app, Hn1, Hn2, Hn3. constructor. }
  specialize (Hd3 _ eq_refl). rewrite run_bind in E.
  assert (∃ valueMaps4 e4 w4,
            (match parentEntityMetadata (metadata s) with
             | Some parent => updateSpecialColumns parent (object_value (entity s)) valueMaps3
             | None => mret valueMaps3
             end) w3 = (valueMaps4, w4)
            ∧ added w3 w4 e4 ∧ Reading.updatedTables e4 = []
            ∧ ∀ a, valueMaps4 = Ok a → Reading.distinctTables a)
    as (r4 & e4 & w4 & E4 & H4 & Hn4 & Hd4).
  { destruct (parentEntityMetadata (metadata s)) as [parent|].
    - destruct (run_stage (updateSpecialColumns parent (object_value (entity s)) valueMaps3)
                  Reading.distinctTables w3) as (e4 & H4 & Hn4 & Hd4);
        [frame | by apply returns_updateSpecialColumns|].
      destruct (updateSpecialColumns parent _ valueMaps3 w3) as [r4 w4].
      by exists r4, e4, w4.
    - exists (Ok valueMaps3), [], w3. repeat split; [|by intros a [= <-]].
      unfold added. by rewrite app_nil_r. }
  rewrite E4 in E. destruct r4 as [valueMaps4|err].
  2: { injection E as <- <-. exists (e1 ++ e2 ++ e3 ++ e4).
       split; [unfold added in *; by rewrite H4, H3, H2, H1, !app_assoc|].
       rewrite !updatedTables_app, Hn1, Hn2, Hn3, Hn4. constructor. }
  specialize (Hd4 _ eq_refl). rewrite run_bind in E.
  destruct (run_update_statements (object_value (entity s)) valueMaps4 w4)
    as (e5 & H5 & Hsub).
  assert (trace wf = trace w ++ e1 ++ e2 ++ e3 ++ e4 ++ e5) as Htrace.
  { destruct (mapM _ valueMaps4 w4) as [[promises|err] w5]; simpl in H5.
    - rewrite run_bind in E. unfold Promise_all, lift in E.
      destruct (settle promises); injection E as <- <-;
        unfold added in *; by rewrite H5, H4, H3, H2, H1, !app_assoc.
    - injection E as <- <-. unfold added in *. by rewrite H5, H4, H3, H2, H1, !app_assoc. }
  exists (e1 ++ e2 ++ e3 ++ e4 ++ e5). split; [done|].
  rewrite !updatedTables_app, Hn1, Hn2, Hn3, Hn4. simpl.
  by eapply sublist_NoDup.
Qed.

End UpdateStatements.


(** ** Relation-only updates, and the closure phase *)

Section RelationUpdates.
Context {Q : Type} `{!QueryRunner Q} `{!Collaborators}.
Implicit Types w : World Q.

Lemma run_relation_values updates :
  Forall (λ setRelation,
            truthy (relationUpdate_value setRelation) = true →
            is_Some (joinColumn (relationUpdate_relation setRelation))) updates →
  ∀ w values,
    foldM (λ values setRelation,
             value ←
               (if truthy (relationUpdate_value setRelation)
                then
                  joinColumn ← some (joinColumn (relationUpdate_relation setRelation));
                  get (relationUpdate_value setRelation)
                      (column_propertyName (joinColumn_referencedColumn joinColumn))
                else mret VNull);
             mret (obj_set (relation_name (relationUpdate_relation setRelation)) value values))
          updates values w
    = (Ok (fold_left
             (λ values setRelation,
                obj_set (relation_name (relationUpdate_relation setRelation))
                  (if truthy (relationUpdate_value setRelation)
                   then match joinColumn (relationUpdate_relation setRelation) with
                        | Some join =>
                            match property (entities w) (relationUpdate_value setRelation)
                                    (column_propertyName (joinColumn_referencedColumn join))
                            with
                            | Ok value => value
                            | Err _ => VUndefined
                            end
                        | None => VUndefined
                        end
                   else VNull)
                  values)
             updates values), w).
Proof.
  induction 1 as [|u updates Hu _ IH]; intros w values; [done|].
  cbn [foldM fold_left]. rewrite run_bind, run_bind.
  destruct (truthy (relationUpdate_value u)) eqn:Htruthy.
  - destruct (Hu eq_refl) as [join Hjoin]. rewrite Hjoin.
    rewrite (run_some_bind _ _ _ _ eq_refl). unfold get.
    destruct (relationUpdate_value u) eqn:Hvalue; try done; simpl; apply IH.
  - rewrite run_ret. lazy beta iota. rewrite run_ret. apply IH.
Qed.

(** X15.  A relation-only update sends one update statement to the table
    of the subject, keyed by the id map of its database entity; under the
    name of each updated relation it carries the referenced column of the
    value, or NULL when the relation was unset, and the call ends as the
    statement does.  Without an id map an internal error is thrown before
    anything is sent. *)
Theorem relation_update_statement w i s idMap :
  subjects w !! i = Some s →
  Forall (λ setRelation,
            truthy (relationUpdate_value setRelation) = true →
            is_Some (joinColumn (relationUpdate_relation setRelation)))
         (relationUpdates s) →
  getDatabaseEntityIdMap (metadata s) (entities w) (object_value (databaseEntity s))
  = Ok idMap →
  match idMap with
  | Some idMap =>
      let tableName := table_name (table (metadata s)) in
      let values := Reading.relationValues (entities w) (relationUpdates s) in
      added w (updateRelations i w).2 [EUpdate tableName values idMap]
      ∧ (updateRelations i w).1 = (runner_update tableName values idMap (runner w)).1
  | None =>
      updateRelations i w
      = (Err (Thrown "Internal error. Cannot get id of the updating entity."), w)
  end.
Proof.
  intros Hs Hjoins HidMap. unfold updateRelations.
  rewrite (run_deref_bind _ _ _ _ Hs), run_bind, (run_relation_values _ Hjoins).
  lazy beta iota. rewrite run_heap_bind, (run_lift_bind _ _ _ _ HidMap).
  destruct idMap as [idMap|]; [|done].
  unfold queryRunner_update, call, Reading.relationValues.
  by destruct (runner_update _ _ _ (runner w)).
Qed.

(** X16.  The closure phase concerns the insert subjects of closure tables
    only: when no insert subject has a closure table the phase sends
    nothing and leaves everything as it is. *)
Theorem closure_phase_skips_other_tables w :
  Forall (λ i, ∃ s, subjects w !! i = Some s ∧ isClosure (table (metadata s)) = false)
         (insertSubjects w) →
  executeInsertClosureTableOperations w = (Ok tt, w).
Proof.
  intros Hother. unfold executeInsertClosureTableOperations.
  rewrite run_world_bind, run_bind.
  assert (∀ acc, foldM (λ acc i, s ← deref i;
                                 mret (if isClosure (table (metadata s))
                                       then acc ++ [i] else acc))
                       (insertSubjects w) acc w = (Ok acc, w)) as ->; [|done].
  induction Hother as [|i l (s & Hs & Hclosure) _ IH]; intros acc; [done|].
  cbn [foldM]. rewrite run_bind, (run_deref_bind _ _ _ _ Hs), Hclosure, run_ret.
  apply IH.
Qed.

End RelationUpdates.


(** ** What the refresh writes *)

Section RefreshWrites.
Context {Q : Type} `{!QueryRunner Q} `{!Collaborators}.
Implicit Types w : World Q.

#[global] Instance sameProperty_preorder l p : PreOrder (sameProperty (Q := Q) l p).
Proof. split; [done|]. intros w1 w2 w3. unfold sameProperty. congruence. Qed.

Lemma preserves_set_property l p o p0 v :
  p0 ≠ p → preserves (sameProperty (Q := Q) l p) (set o p0 v).
Proof.
  intros Hne. destruct o as [l0|]; [|apply preserves_throw; tc_solve].
  intros w. unfold sameProperty. simpl. unfold property, assign. f_equal.
  destruct (decide (l0 = l)) as [->|Hl]; [|by rewrite lookup_insert_ne].
  rewrite lookup_insert_eq. simpl. rewrite lookup_insert_ne; [|done].
  by destruct (entities w !! l).
Qed.

Lemma property_same_entity (h h' : Heap) l p :
  h' !! l = h !! l → property h' (VRef l) p = property h (VRef l) p.
Proof. unfold property. by intros ->. Qed.

Lemma assign_same_keeps (h : Heap) l p l0 p0 v :
  property h (VRef l) p = Ok v → property (assign h l0 p0 v) (VRef l) p = Ok v.
Proof.
  unfold property, assign. intros [= Hp]. f_equal.
  destruct (decide (l0 = l)) as [->|Hl]; [|by rewrite lookup_insert_ne].
  rewrite lookup_insert_eq. simpl.
  destruct (decide (p0 = p)) as [->|Hne]; [by rewrite lookup_insert_eq|].
  rewrite lookup_insert_ne; [|done].
  by destruct (h !! l).
Qed.

(** One value is written to all the columns (lines 982-985). *)
Lemma run_write_columns l0 v cols :
  ∀ w, ∃ w',
    forEach (λ primaryColumn, set (Some l0) (column_propertyName primaryColumn) v) cols w
    = (Ok tt, w')
    ∧ (∀ l p, property (entities w) (VRef l) p = Ok v →
              property (entities w') (VRef l) p = Ok v)
    ∧ (∀ c, c ∈ cols → property (entities w') (VRef l0) (column_propertyName c) = Ok v).
Proof.
  induction cols as [|c cols IH]; intros w.
  - exists w. repeat split; [done|]. by intros c ?%elem_of_nil.
  - cbn [forEach set]. rewrite run_modify_bind.
    set (w1 := set_entities _ w).
    destruct (IH w1) as (w' & E & Hkeeps & Hwritten).
    exists w'. split; [exact E|]. split.
    + intros l p Hp. apply Hkeeps. by apply assign_same_keeps.
    + intros c' [->|Hc']%elem_of_cons; [|by apply Hwritten].
      apply Hkeeps. apply assign_reads_back.
Qed.

Lemma run_forEach_split {A} (f : A → M Q unit) pre a post :
  ∀ w w', forEach f (pre ++ a :: post) w = (Ok tt, w') →
          ∃ w1 w2, forEach f pre w = (Ok tt, w1)
                   ∧ f a w1 = (Ok tt, w2)
                   ∧ forEach f post w2 = (Ok tt, w').
Proof.
  induction pre as [|b pre IH]; intros w w' E.
  - cbn [app forEach] in E. rewrite run_bind in E.
    destruct (f a w) as [[[]|e] w2] eqn:Ea; [|done]. by exists w, w2.
  - cbn [app forEach] in E. rewrite run_bind in E.
    destruct (f b w) as [[[]|e] wb] eqn:Eb; [|done].
    destruct (IH wb w' E) as (w1 & w2 & E1 & Ea & E2).
    exists w1, w2. split; [|done]. cbn [forEach]. by rewrite run_bind, Eb.
Qed.

(** The refresh of one insert subject (lines 978-1001), from the loop over
    the primary columns on. *)
Lemma run_refresh_inserted s l column w w' :
  entity s = Some l →
  column ∈ primaryColumns (metadata s) →
  truthy (newlyGeneratedId s) = true →
  column_propertyName column ∉ Reading.refreshedLater s →
  (forEach (λ primaryColumn,
              if truthy (newlyGeneratedId s)
              then set (entity s) (column_propertyName primaryColumn) (newlyGeneratedId s)
              else mret tt)
           (primaryColumns (metadata s));;
   forEach (λ primaryColumn,
              if truthy (parentGeneratedId s)
              then set (entity s) (column_propertyName primaryColumn) (parentGeneratedId s)
              else mret tt)
           (parentPrimaryColumns (metadata s));;
   match updateDateColumn (metadata s) with
   | Some column => set (entity s) (column_propertyName column) (date s)
   | None => mret tt
   end;;
   match createDateColumn (metadata s) with
   | Some column => set (entity s) (column_propertyName column) (date s)
   | None => mret tt
   end;;
   match versionColumn (metadata s) with
   | Some column => set (entity s) (column_propertyName column) (VNum 1)
   | None => mret tt
   end;;
   match treeLevelColumn (metadata s) with
   | Some column => set (entity s) (column_propertyName column) (treeLevel s)
   | None => mret tt
   end) w = (Ok tt, w') →
  property (entities w') (VRef l) (column_propertyName column) = Ok (newlyGeneratedId s).
Proof.
  intros Hentity Hcolumn Htruthy Hlater E.
  rewrite Htruthy, Hentity, run_bind in E.
  destruct (run_write_columns l (newlyGeneratedId s) (primaryColumns (metadata s)) w)
    as (w1 & E1 & _ & Hwritten).
  rewrite E1 in E. rewrite <- (Hwritten _ Hcolumn).
  apply (f_equal snd) in E. simpl in E. subst w'.
  unfold Reading.refreshedLater in Hlater. rewrite !not_elem_of_app in Hlater.
  destruct Hlater as (Hparent & HupdateDate & HcreateDate & Hversion & Hlevel).
  match goal with
  | |- property (entities (?m w1).2) _ _ = _ =>
      assert (preserves (sameProperty l (column_propertyName column)) m) as Hm;
        [|exact (Hm w1)]
  end.
  apply preserves_bind; [tc_solve| |intros _].
  { destruct (truthy (parentGeneratedId s)); [|frame].
    apply preserves_forEach_in; [tc_solve|]. intros c Hc.
    apply (preserves_set_property l _ (Some l) (column_propertyName c)).
    intros Heq. apply Hparent.
    rewrite <- Heq. by apply list_elem_of_fmap_2. }
  apply preserves_bind; [tc_solve| |intros _].
  { destruct (updateDateColumn (metadata s)) as [c|]; [|frame].
    apply (preserves_set_property l _ (Some l) (column_propertyName c)).
    intros Heq. apply HupdateDate. simpl. rewrite Heq. by left. }
  apply preserves_bind; [tc_solve| |intros _].
  { destruct (createDateColumn (metadata s)) as [c|]; [|frame].
    apply (preserves_set_property l _ (Some l) (column_propertyName c)).
    intros Heq. apply HcreateDate. simpl. rewrite Heq. by left. }
  apply preserves_bind; [tc_solve| |intros _].
  { destruct (versionColumn (metadata s)) as [c|]; [|frame].
    apply (preserves_set_property l _ (Some l) (column_propertyName c)).
    intros Heq. apply Hversion. simpl. rewrite Heq. by left. }
  destruct (treeLevelColumn (metadata s)) as [c|]; [|frame].
  apply (preserves_set_property l _ (Some l) (column_propertyName c)).
  intros Heq. apply Hlevel. simpl. rewrite Heq. by left.
Qed.

(** The steps of a loop of the refresh on subjects that do not stand for
    the entity at [l]. *)
Ltac others Halone :=
  apply preserves_forEach_in; [tc_solve|]; intros ? ?;
  apply preserves_deref_other;
    [intros ? ?; eapply Halone; [|eassumption]; set_solver
    |intros ? ?; frame_other].

(** X18.  After a successful refresh the generated id of an insert subject
    is on its entity: every primary-column property reads the newly
    generated id, provided that the entity is the entity of no other insert,
    update or remove subject and that the property is none of those written
    later for the same subject (parent primary columns when a parent id was
    generated, the two dates, the version and the tree level). *)
Theorem refresh_writes_generated_id w i s l column pre post :
  (updateSpecialColumnsInPersistedEntities w).1 = Ok tt →
  insertSubjects w = pre ++ i :: post →
  subjects w !! i = Some s →
  entity s = Some l →
  (∀ j s', j ∈ pre ++ post ++ updateSubjects w ++ removeSubjects w →
           subjects w !! j = Some s' → entity s' ≠ Some l) →
  column ∈ primaryColumns (metadata s) →
  truthy (newlyGeneratedId s) = true →
  column_propertyName column ∉ Reading.refreshedLater s →
  property (entities (updateSpecialColumnsInPersistedEntities w).2) (VRef l)
           (column_propertyName column)
  = Ok (newlyGeneratedId s).
Proof.
  intros Hok Hpos Hs Hentity Halone Hcolumn Htruthy Hlater.
  destruct (updateSpecialColumnsInPersistedEntities w) as [r w'] eqn:E.
  simpl in Hok. subst r. simpl.
  unfold updateSpecialColumnsInPersistedEntities in E.
  rewrite run_world_bind, Hpos, run_bind in E.
  match type of E with
  | context [forEach ?f (pre ++ i :: post) w] =>
      assert (preserves (untouched l (subjects w)) (forEach f pre)) as Hpre
        by others Halone;
      assert (preserves (untouched l (subjects w)) (forEach f post)) as Hpost
        by others Halone;
      assert (preserves (entitiesOnly (Q := Q)) (f i)) as Hbody by frame;
      destruct (forEach f (pre ++ i :: post) w) as [[[]|e] wa] eqn:E1; [|done];
      apply run_forEach_split in E1 as (w1 & w2 & Epre & Ebody & Epost)
  end.
  specialize (Hpre w eq_refl). rewrite Epre in Hpre. destruct Hpre as [Hs1 He1].
  specialize (Hbody w1). lazy beta in Hbody, Ebody. rewrite Ebody in Hbody.
  destruct Hbody as (_ & _ & Hs2).
  simpl in Hs1, He1, Hs2.
  assert (subjects w1 !! i = Some s) as Hs' by (by rewrite Hs1).
  lazy beta in Ebody. rewrite (run_deref_bind _ _ _ _ Hs') in Ebody. lazy zeta in Ebody.
  rewrite run_bind in Ebody.
  match type of Ebody with
  | (let (_, _) := ?x in _) = _ => destruct x as [[[]|e] wo]; [|done]
  end.
  apply (run_refresh_inserted s l column) in Ebody; [|done..].
  assert (subjects w2 = subjects w) as Hs2' by congruence.
  specialize (Hpost w2 Hs2'). rewrite Epost in Hpost. destruct Hpost as [Hsa Hea].
  simpl in Hsa, Hea.
  rewrite run_bind in E.
  match type of E with
  | context [forEach ?f (updateSubjects w) wa] =>
      assert (preserves (untouched l (subjects w)) (forEach f (updateSubjects w))) as Hupd
        by others Halone;
      specialize (Hupd wa Hsa);
      destruct (forEach f (updateSubjects w) wa) as [[[]|e] wb]; [|done]
  end.
  destruct Hupd as [Hsb Heb]. simpl in Hsb, Heb.
  match type of E with
  | forEach ?f (removeSubjects w) wb = _ =>
      assert (preserves (untouched l (subjects w)) (forEach f (removeSubjects w))) as Hrem
        by others Halone;
      specialize (Hrem wb Hsb); rewrite E in Hrem
  end.
  destruct Hrem as [_ Hew]. simpl in Hew.
  rewrite <- Ebody. apply property_same_entity. congruence.
Qed.

(** The refresh of one update subject (lines 1009-1014). *)
Lemma run_refresh_updated s l column (n : Z) w w' :
  entity s = Some l →
  versionColumn (metadata s) = Some column →
  (∀ c, updateDateColumn (metadata s) = Some c →
        column_propertyName c ≠ column_propertyName column) →
  property (entities w) (VRef l) (column_propertyName column) = Ok (VNum n) →
  (match updateDateColumn (metadata s) with
   | Some column => set (entity s) (column_propertyName column) (date s)
   | None => mret tt
   end;;
   match versionColumn (metadata s) with
   | Some column =>
       version ← get (entityOf s) (column_propertyName column);
       set (entity s) (column_propertyName column) (increment version)
   | None => mret tt
   end) w = (Ok tt, w') →
  property (entities w') (VRef l) (column_propertyName column) = Ok (VNum (n + 1)).
Proof.
  intros Hentity Hversion Hdate Hbefore E.
  unfold entityOf in E. rewrite Hversion, Hentity, run_bind in E.
  assert (preserves (sameProperty (Q := Q) l (column_propertyName column))
            (match updateDateColumn (metadata s) with
             | Some column => set (Some l) (column_propertyName column) (date s)
             | None => mret tt
             end)) as Hsame.
  { destruct (updateDateColumn (metadata s)) as [c|]; [|frame].
    apply preserves_set_property. by apply Hdate. }
  specialize (Hsame w). unfold sameProperty in Hsame.
  match type of E with
  | (let (_, _) := ?x in _) = _ => destruct x as [[[]|e] w1]; [|done]
  end.
  assert (property (entities w1) (VRef l) (column_propertyName column) = Ok (VNum n))
    as Hthen by (rewrite <- Hbefore; exact Hsame).
  rewrite run_bind in E. unfold get in E. simpl object_value in E. rewrite Hthen in E.
  apply (f_equal snd) in E. simpl in E. subst w'. apply assign_reads_back.
Qed.

(** X19.  After a successful refresh the numeric version on the entity of an
    update subject is the version it had plus one, whether or not an update
    statement was sent for the subject.  The version is an integer that the
    numbers of JavaScript carry exactly together with its successor; the
    entity is the entity of no other insert, update or remove subject, and
    the update date is kept in another property. *)
Theorem refresh_increments_version w i s l column (n : Z) pre post :
  (updateSpecialColumnsInPersistedEntities w).1 = Ok tt →
  updateSubjects w = pre ++ i :: post →
  subjects w !! i = Some s →
  entity s = Some l →
  (∀ j s', j ∈ insertSubjects w ++ pre ++ post ++ removeSubjects w →
           subjects w !! j = Some s' → entity s' ≠ Some l) →
  versionColumn (metadata s) = Some column →
  (∀ c, updateDateColumn (metadata s) = Some c →
        column_propertyName c ≠ column_propertyName column) →
  property (entities w) (VRef l) (column_propertyName column) = Ok (VNum n) →
  - 2 ^ 53 ≤ n < 2 ^ 53 →
  property (entities (updateSpecialColumnsInPersistedEntities w).2) (VRef l)
           (column_propertyName column)
  = Ok (VNum (n + 1)).
Proof.
  intros Hok Hpos Hs Hentity Halone Hversion Hdate Hbefore _.
  destruct (updateSpecialColumnsInPersistedEntities w) as [r w'] eqn:E.
  simpl in Hok. subst r. simpl.
  unfold updateSpecialColumnsInPersistedEntities in E.
  rewrite run_world_bind, Hpos, run_bind in E.
  match type of E with
  | context [forEach ?f (insertSubjects w) w] =>
      assert (preserves (untouched l (subjects w)) (forEach f (insertSubjects w))) as Hins
        by others Halone;
      specialize (Hins w eq_refl);
      destruct (forEach f (insertSubjects w) w) as [[[]|e] wi]; [|done]
  end.
  destruct Hins as [Hsi Hei]. simpl in Hsi, Hei.
  rewrite run_bind in E.
  match type of E with
  | context [forEach ?f (pre ++ i :: post) wi] =>
      assert (preserves (untouched l (subjects w)) (forEach f pre)) as Hpre
        by others Halone;
      assert (preserves (untouched l (subjects w)) (forEach f post)) as Hpost
        by others Halone;
      assert (preserves (entitiesOnly (Q := Q)) (f i)) as Hbody by frame;
      destruct (forEach f (pre ++ i :: post) wi) as [[[]|e] wa] eqn:E1; [|done];
      apply run_forEach_split in E1 as (w1 & w2 & Epre & Ebody & Epost)
  end.
  specialize (Hpre wi Hsi). rewrite Epre in Hpre. destruct Hpre as [Hs1 He1].
  specialize (Hbody w1). lazy beta in Hbody, Ebody. rewrite Ebody in Hbody.
  destruct Hbody as (_ & _ & Hs2).
  simpl in Hs1, He1, Hs2.
  assert (subjects w1 !! i = Some s) as Hs' by (by rewrite Hs1).
  rewrite (run_deref_bind _ _ _ _ Hs') in Ebody. lazy zeta in Ebody.
  apply (run_refresh_updated s l column n) in Ebody; [|done..|].
  2: { rewrite <- Hbefore. apply property_same_entity. congruence. }
  assert (subjects w2 = subjects w) as Hs2' by congruence.
  specialize (Hpost w2 Hs2'). rewrite Epost in Hpost. destruct Hpost as [Hsa Hea].
  simpl in Hsa, Hea.
  match type of E with
  | forEach ?f (removeSubjects w) wa = _ =>
      assert (preserves (untouched l (subjects w)) (forEach f (removeSubjects w))) as Hrem
        by others Halone;
      specialize (Hrem wa Hsa); rewrite E in Hrem
  end.
  destruct Hrem as [_ Hew]. simpl in Hew.
  rewrite <- Ebody. apply property_same_entity. congruence.
Qed.

End RefreshWrites.

(** ** The properties on the samples *)

Section OnSamples.
Import Sample.
#[local] Existing Instance plainCollaborators.

(** A class-table child is removed: the theorem applies with the parent
    delete succeeding. *)
Lemma remove_deletes_parent_then_child_witness :
  added removal (remove 0 removal).2
    [EDelete "person" (Some [("id", VNum 7)]); EDelete "student" (Some [("id", VNum 7)])].
Proof.
  exact (remove_deletes_parent_then_child removal 0
           (subjectOf student None (Some 1%nat) (VDate 1000) false false true [] [] VUndefined)
           1%nat eq_refl eq_refl).
Defined.

(** C2, as stated, fails: for the class-table child of the sample the first
    delete goes to the parent table, not to the child table. *)
Lemma remove_child_first_counterexample :
  parentEntityMetadata student = Some person
  ∧ ¬ ∃ childConditions parentConditions,
        trace (remove 0 removal).2
        = [EDelete "student" childConditions; EDelete "person" parentConditions].
Proof. split; [done|]. intros (c & p & E). vm_compute in E. discriminate E. Qed.

(** An update subject without diffs: nothing is issued. *)
Lemma update_without_diffs_issues_nothing_witness :
  update 0 (updating untouched) = (Ok tt, updating untouched).
Proof.
  apply (update_without_diffs_issues_nothing (updating untouched) 0 untouched);
    [reflexivity | constructor | reflexivity].
Defined.

(** C8, as stated, fails: the metadata of the sample has a version column
    and an update-timestamp column, the subject has no diff, and no update
    statement is issued. *)
Lemma update_forced_write_counterexample :
  hasVersionColumn (metadata untouched) = true
  ∧ hasUpdateDateColumn (metadata untouched) = true
  ∧ ¬ ∃ tableName valuesMap conditions,
        EUpdate tableName valuesMap conditions ∈ trace (update 0 (updating untouched)).2.
Proof.
  split; [done|]. split; [done|]. intros (t & v & c & E).
  vm_compute in E. by apply elem_of_nil in E.
Qed.

(** C3 fails on the code.  The subject was captured at time 1000 and is
    updated when the clock reads 2000: the update statement carries the clock
    reading for the update-timestamp column, while the refresh of the entity
    after persistence writes the captured date. *)
Theorem update_timestamp_is_the_clock_reading :
  date retitled = VDate 1000
  ∧ last (trace (update 0 (updating retitled)).2)
    = Some (EUpdate "post"
              [("title", VStr "new"); ("updatedAt", VDate 2000); ("version", VNum 2)]
              [("id", VNum 4)])
  ∧ entities (updateSpecialColumnsInPersistedEntities (updating retitled)).2
      !! 1%nat ≫= (λ o : Obj, o !! "updatedAt")
    = Some (VDate 1000).
Proof. split; [done|]. split; vm_compute; reflexivity. Qed.


(** A tree entity without parent: the closure-table insert carries 0. *)
Lemma closure_insert_without_parent_uses_zero_witness :
  ∃ events,
    added (tree noParent (generated "id"))
          (insertClosureTableValues 0 (tree noParent (generated "id"))).2
          (EInsertIntoClosureTable "category_closure" (VNum 2) (VNum 0) true :: events).
Proof.
  apply (closure_insert_without_parent_uses_zero (tree noParent (generated "id")) 0
           (child (generated "id")) categoryClosure (parentOf (generated "id"))
           {| joinColumn_name := "parentId"; joinColumn_referencedColumn := generated "id" |}
           (VNum 2) VUndefined);
    try reflexivity.
  repeat constructor. eexists. split; reflexivity.
Defined.

(** C10, as stated, fails.  The entity has a parent that has no id, that no
    subject of the batch stands for and that was not inserted in this batch.
    With a generated id column the step throws and no closure-table insert is
    issued; with an id column that is not generated the insert is issued with
    an undefined parent id. *)
Lemma closure_unresolved_parent_counterexample :
  let unresolved referenced (w : World WebsqlQueryRunner.State) :=
    property (entities w) (VRef 2%nat) "parent" = Ok (VRef 1%nat)
    ∧ property (entities w) (VRef 1%nat) "id" = Ok VUndefined
    ∧ findByEntity (subjects w) (VRef 1%nat) (insertSubjects w) = None
    ∧ findR (λ j, allSubject ← required (subjects w !! j);
                  holdsAsChild (entities w) (child referenced) allSubject)
            (allSubjects w)
      = Ok None in
  let w := tree unsavedParent (generated "id") in
  let w' := tree unsavedParentOfSaved (column "id") in
  (unresolved (generated "id") w
   ∧ insertClosureTableValues 0 w = (Err TypeError, w))
  ∧ (unresolved (column "id") w'
     ∧ trace (insertClosureTableValues 0 w').2
       = [EInsertIntoClosureTable "category_closure" (VNum 2) VUndefined true])
  ∧ ¬ (∃ tableName newEntityId hasLevel,
         EInsertIntoClosureTable tableName newEntityId (VNum 0) hasLevel
         ∈ trace (insertClosureTableValues 0 w).2
              ++ trace (insertClosureTableValues 0 w').2).
Proof.
  split; [|split].
  - repeat split; vm_compute; reflexivity.
  - repeat split; vm_compute; reflexivity.
  - intros (t & id & l & E). vm_compute in E.
    apply elem_of_cons in E as [E|E]; [discriminate E | by apply elem_of_nil in E].
Qed.


(** The new article 1 is linked to the new tag 2 and to the persisted tag 3:
    one row per tag, the generated id of the article first, with the
    generated id of the new tag and the id that the persisted tag carries. *)
Lemma junction_rows_per_linked_entity_witness :
  added taggingWorld (insertJunctions 0 tagging taggingWorld).2
    [EInsert "article_tags" [("articleId", VNum 10); ("tagId", VNum 20)] None;
     EInsert "article_tags" [("articleId", VNum 10); ("tagId", VNum 30)] None].
Proof.
  refine (proj1 (junction_rows_per_linked_entity taggingWorld 0 tagger tagging tagsTable
                   articleTags VUndefined [2%nat; 3%nat]
                   eq_refl eq_refl eq_refl eq_refl eq_refl eq_refl eq_refl)
                (VNum 10) [VNum 20; VNum 30] eq_refl _).
  repeat constructor.
Defined.

(** The post 1 is linked to the categories 2 and 3, all of them persisted. *)
Example junction_rows_of_persisted_entities :
  trace (insertJunctions 0 linking (junction linked)).2
  = [EInsert "post_categories" [("postId", VNum 10); ("categoryId", VNum 20)] None;
     EInsert "post_categories" [("postId", VNum 10); ("categoryId", VNum 30)] None].
Proof. vm_compute. reflexivity. Qed.

(** From the inverse side the id of the linked entity comes first. *)
Example junction_row_from_the_inverse_side :
  trace (insertJunctions 0 linkingBack junctionBack).2
  = [EInsert "post_categories" [("postId", VNum 10); ("categoryId", VNum 20)] None].
Proof. vm_compute. reflexivity. Qed.

(** A linked entity without id: the junction insert fails, and so does the
    whole call, after the row of the first link was sent. *)
Example junction_of_unpersisted_entity_fails :
  let error := Thrown "Cannot insert object of Object type. Looks like its not persisted yet, or cascades are not set on the relation." in
  (insertJunctions 0 linking (junction halfLinked)).1 = Err error
  ∧ (execute [linker] (before halfLinked true [])).1 = Err error
  ∧ Reading.inserts (trace (execute [linker] (before halfLinked true [])).2)
    = [EInsert "post_categories" [("postId", VNum 10); ("categoryId", VNum 20)] None].
Proof. repeat split; vm_compute; reflexivity. Qed.

(** The batch of a question and its topic: the topic has no non-nullable
    column and is in the first group. *)
Lemma insert_phase_two_buckets_witness :
  let w := set_started false
             (installed batch (before batchHeap false
                                 [WebsqlQueryRunner.Done (VNum 5); WebsqlQueryRunner.Done (VNum 9)])) in
  (1%nat ∈ Reading.firstGroup (subjects w) (insertSubjects w)
   ↔ hasNonNullableColumns topic = false)
  ∧ (0%nat ∈ Reading.secondGroup (subjects w) (insertSubjects w)
     ↔ hasNonNullableColumns question = true).
Proof.
  intros w.
  assert (Forall (λ i, is_Some (subjects w !! i)) (insertSubjects w)) as Hsubjects.
  { repeat constructor; eexists; reflexivity. }
  split.
  - refine (proj1 (proj1 (insert_phase_two_buckets w Hsubjects) 1%nat _ _ eq_refl)).
    vm_compute. repeat constructor.
  - refine (proj2 (proj1 (insert_phase_two_buckets w Hsubjects) 0%nat _ _ eq_refl)).
    vm_compute. repeat constructor.
Defined.

(** The whole batch: the topic is inserted first and the row of the question
    carries the id generated for the topic. *)
Example second_group_sees_generated_ids :
  let w := before batchHeap false
             [WebsqlQueryRunner.Done (VNum 5); WebsqlQueryRunner.Done (VNum 9)] in
  (execute batch w).1 = Ok tt
  ∧ Reading.inserts (trace (execute batch w).2)
    = [EInsert "topic" [("name", VStr "rocq")] (Some (generated "id"));
       EInsert "question" [("title", VStr "why"); ("topic", VNum 5)]
               (Some (generated "id"))].
Proof. split; vm_compute; reflexivity. Qed.

(** The insert of the question is rejected, which the counting query runner
    records: the call rejects with that error and the entities are those
    the caller supplied. *)
Lemma failed_phases_skip_materialization_witness :
  let w := fromNow (before batchHeap false
                      [WebsqlQueryRunner.Done (VNum 5);
                       WebsqlQueryRunner.Failed (VStr "constraint")]) in
  (execute (QueryRunner0 := counted) batch w).1 = Err (Rejected (VStr "constraint"))
  ∧ entities (execute (QueryRunner0 := counted) batch w).2 = batchHeap.
Proof.
  intros w.
  pose (w0 := (executeOpen (QueryRunner0 := counted)
                 (set_started false (installed batch w))).2).
  destruct (failed_phases_skip_materialization (QueryRunner0 := counted) snd batch w w0)
    as ((e & Hphases & Hresult) & _ & Hentities).
  - repeat constructor.
  - reflexivity.
  - vm_compute. reflexivity.
  - vm_compute. discriminate.
  - split; [|apply Hentities; reflexivity].
    rewrite Hresult. vm_compute in Hphases. by injection Hphases as <-.
Defined.

End OnSamples.

Section OnFailingSubscriber.
Import Sample.
#[local] Existing Instance failingSubscriber.

(** The call opened the transaction, a subscriber of the "after" events
    fails after the commit: the rollback is attempted and fails in turn, and
    the error of the subscriber is the one the call rejects with. *)
Lemma rollback_iff_owner_witness :
  let w := before batchHeap false
             [WebsqlQueryRunner.Done (VNum 5); WebsqlQueryRunner.Done (VNum 9)] in
  (execute batch w).1 = Err (Rejected (VStr "subscriber")).
Proof.
  intros w.
  destruct (rollback_iff_owner batch w) as (events & _ & _ & _ & Hsurfaces).
  apply (Hsurfaces (Rejected (VStr "subscriber"))
           (executeTry (set_started false (installed batch w))).2).
  - repeat constructor.
  - reflexivity.
  - vm_compute. reflexivity.
Defined.

(** On that run the commit is followed by the attempt to roll back. *)
Example rollback_after_failed_subscriber :
  let w := before batchHeap false
             [WebsqlQueryRunner.Done (VNum 5); WebsqlQueryRunner.Done (VNum 9)] in
  Reading.transactionCalls (trace (execute batch w).2)
  = [EBeginTransaction; ECommitTransaction; ERollbackTransaction].
Proof. vm_compute. reflexivity. Qed.

End OnFailingSubscriber.


(** ** The further properties on the samples *)

Section FurtherSamples.
Import Sample.
#[local] Existing Instance plainCollaborators.

(** A batch of one subject with nothing to do. *)
Lemma execute_idle_batch_is_silent_witness :
  execute [idle] (before postRow false []) = (Ok tt, installed [idle] (before postRow false [])).
Proof.
  apply (execute_idle_batch_is_silent [idle] (before postRow false []));
    [repeat constructor | reflexivity].
Defined.

(** Begin and commit on a fresh connection. *)
Lemma transaction_round_trip_witness :
  let q := connection false ∅ [] in
  WebsqlQueryRunner.commitTransaction (WebsqlQueryRunner.beginTransaction q).2 = (Ok tt, q).
Proof.
  intros q. exact (proj1 (proj2 (proj2 (transaction_round_trip q eq_refl eq_refl)))).
Defined.

(** An insert on the released connection. *)
Lemma released_runner_refuses_witness :
  WebsqlQueryRunner.insert "post" [("title", VStr "new")] None released
  = (Err QueryRunnerAlreadyReleasedError, released).
Proof.
  exact (proj1 (proj2 (proj2 (proj2
           (released_runner_refuses released "post" [("title", VStr "new")] None []
              VUndefined VUndefined false eq_refl))))).
Defined.

(** The batch of a question and its topic, on a connection without
    transaction: the begin comes before the statements and the commit after
    them. *)
Lemma successful_run_calls_witness :
  let w := before batchHeap false
             [WebsqlQueryRunner.Done (VNum 5); WebsqlQueryRunner.Done (VNum 9)] in
  ∃ ins upd rem ins' upd' rem' operations,
    Forall operation operations
    ∧ added w (execute batch w).2
        (EProvide :: EIsTransactionActive false :: EBeginTransaction
         :: EBroadcastBefore ins upd rem :: operations
         ++ [ECommitTransaction; EBroadcastAfter ins' upd' rem']).
Proof.
  intros w. exact (successful_run_calls batch w eq_refl eq_refl).
Defined.

(** The same batch on the released connection. *)
Lemma execute_on_released_connection_witness :
  let w := worldOf batchHeap [] released 2000 [] [] [] [] in
  (execute batch w).1 = Err QueryRunnerAlreadyReleasedError.
Proof.
  intros w.
  apply (execute_on_released_connection batch w); [repeat constructor | reflexivity..].
Defined.

(** A root is inserted into a closure table that holds another root. *)
Lemma closure_insert_of_root_witness :
  let q := connection true {[ "category_closure" := [rootRow] ]} [] in
  (WebsqlQueryRunner.insertIntoClosureTable "category_closure" (VNum 2) (VNum 0) true q).1
  = Ok (VNum 1).
Proof.
  intros q.
  apply (closure_insert_of_root q "category_closure" 2 0 true [rootRow]);
    [by split; [|constructor] | reflexivity | by repeat constructor | done].
Defined.

(** The post 1 is unlinked from two categories: both deletes are sent, the
    first one being rejected. *)
Lemma junction_deletes_per_relation_id_witness :
  added unlinkingWorld (removeJunctions 0 unlinking unlinkingWorld).2
    [EDelete "post_categories" (Some [("postId", VNum 10); ("categoryId", VNum 20)]);
     EDelete "post_categories" (Some [("postId", VNum 10); ("categoryId", VNum 30)])].
Proof.
  exact (junction_deletes_per_relation_id unlinkingWorld 0 unlinker unlinking postCategories
           (column "postId") (column "categoryId") (VNum 10)
           eq_refl eq_refl eq_refl eq_refl eq_refl).
Defined.

Example junction_delete_rejected :
  (removeJunctions 0 unlinking unlinkingWorld).1 = Err (Rejected (VStr "locked")).
Proof. vm_compute. reflexivity. Qed.

(** The post 1 is refreshed after its update; the entity 2 is no subject
    of the batch. *)
Lemma refresh_is_local_witness :
  let w := worldOf answered [retitled] (connection true ∅ []) 2000 [0%nat] [] [0%nat] [] in
  entities (updateSpecialColumnsInPersistedEntities w).2 !! 2%nat = entities w !! 2%nat.
Proof.
  intros w. apply (refresh_is_local w 2%nat).
  intros i s Hi Hs. simpl in Hi. apply list_elem_of_singleton in Hi. subst i.
  injection Hs as <-. discriminate.
Defined.

(** The person 1 is removed: its id is cleared. *)
Lemma refresh_clears_removed_ids_witness :
  property (entities (updateSpecialColumnsInPersistedEntities dismissal).2) (VRef 1%nat) "id"
  = Ok VUndefined.
Proof.
  apply (refresh_clears_removed_ids dismissal 0
           (subjectOf person (Some 1%nat) (Some 1%nat) (VDate 1000) false false true [] []
                      VUndefined)
           1%nat (column "id") eq_refl);
    [by left | reflexivity | reflexivity | by left].
Defined.

(** A student is inserted: into the table of Person first, then into its
    own. *)
Lemma insert_parent_table_first_witness :
  ∃ events, added enrolment (insert 0 [] enrolment).2 events
            ∧ Reading.inserts events
              = [EInsert "person" [] None; EInsert "student" [("grade", VNum 3)] None].
Proof.
  destruct (insert_parent_table_first enrolment 0
              (subjectOf student (Some 1%nat) None (VDate 1000) true false false [] []
                         VUndefined)
              [] eq_refl)
    as (events & Hadded & Hinserts).
  exists events. split; [exact Hadded|].
  exact (Hinserts person eq_refl).
Defined.

(** The insert into the table of Person is rejected: the student is not
    inserted into its own table. *)
Example student_without_person :
  let w := worldOf newStudent
             [subjectOf student (Some 1%nat) None (VDate 1000) true false false [] []
                        VUndefined]
             (connection true ∅ [WebsqlQueryRunner.Failed (VStr "constraint")]) 2000
             [0%nat] [0%nat] [] [] in
  (insert 0 [] w).1 = Err (Rejected (VStr "constraint"))
  ∧ Reading.inserts (trace (insert 0 [] w).2) = [EInsert "person" [] None].
Proof. split; vm_compute; reflexivity. Qed.

(** Ids that are numeric strings read as the numbers they hold. *)
Example closure_insert_with_string_ids :
  (WebsqlQueryRunner.insertIntoClosureTable "category_closure" (VStr "2") (VStr " 1") true
     (connection true {[ "category_closure" := [rootRow] ]} [])).1
  = Ok (VNum 2).
Proof. vm_compute. reflexivity. Qed.

Example student_rows :
  Reading.inserts (trace (insert 0 [] enrolment).2)
  = [EInsert "person" [] None; EInsert "student" [("grade", VNum 3)] None].
Proof. vm_compute. reflexivity. Qed.

(** The question 1 is bound to the topic 2. *)
Lemma relation_update_statement_witness :
  added rebindingWorld (updateRelations 0 rebindingWorld).2
    [EUpdate "question" [("topic", VNum 5)] [("id", VNum 3)]].
Proof.
  refine (proj1 (relation_update_statement rebindingWorld 0 rebinding
                   (Some [("id", VNum 3)]) eq_refl _ eq_refl)).
  repeat constructor. intros _. by eexists.
Defined.

(** Neither the question nor the topic has a closure table. *)
Lemma closure_phase_skips_other_tables_witness :
  let w := installed batch (before batchHeap false []) in
  executeInsertClosureTableOperations w = (Ok tt, w).
Proof.
  intros w. apply (closure_phase_skips_other_tables w).
  repeat constructor; by eexists.
Defined.

(** The new category 2 got the id 2 from its insert: the refresh writes it
    on the entity. *)
Lemma refresh_writes_generated_id_witness :
  let w := tree persistedParent (generated "id") in
  property (entities (updateSpecialColumnsInPersistedEntities w).2) (VRef 2%nat) "id"
  = Ok (VNum 2).
Proof.
  intros w.
  apply (refresh_writes_generated_id w 0 (child (generated "id")) 2%nat (column "id") [] []);
    [reflexivity | reflexivity | reflexivity | reflexivity | | by left | reflexivity | ].
  - intros j s' Hj. simpl in Hj. by apply elem_of_nil in Hj.
  - simpl. intros Hin. apply elem_of_cons in Hin as [Hin | Hin]; [discriminate|].
    by apply elem_of_nil in Hin.
Defined.

(** The post 1 has the version 1 and no changed column: the refresh sets
    its version to 2. *)
Lemma refresh_increments_version_witness :
  property (entities (updateSpecialColumnsInPersistedEntities (updating untouched)).2)
           (VRef 1%nat) "version"
  = Ok (VNum 2).
Proof.
  apply (refresh_increments_version (updating untouched) 0 untouched 1%nat
           (column "version") 1 [] []);
    [reflexivity | reflexivity | reflexivity | reflexivity | | reflexivity | | reflexivity
    | lia].
  - intros j s' Hj. simpl in Hj. by apply elem_of_nil in Hj.
  - intros c [= <-]. discriminate.
Defined.

(** Strings and arrays are converted before the increment. *)
Example increment_converts :
  increment (VStr "5") = VNum 6
  ∧ increment (VStr " -12 ") = VNum (-11)
  ∧ increment (VStr "") = VNum 1
  ∧ increment (VStr "5a") = VNaN
  ∧ increment (VArr [VStr "7"]) = VNum 8
  ∧ increment (VArr [VNum 1; VNum 2]) = VNaN
  ∧ increment (VDate 1000) = VNum 1001
  ∧ increment VUndefined = VNaN.
Proof. repeat split. Qed.

End FurtherSamples.

Section CheckedSamples.
Import Sample.
#[local] Existing Instance checking.

(** The second subject is to be inserted and removed at once. *)
Lemma execute_rejects_invalid_subject_witness :
  let w := before postRow false [] in
  execute [idle; contradictory; idle] w
  = (Err (Thrown "Removed entity is also scheduled for insert."), w).
Proof.
  intros w.
  apply (execute_rejects_invalid_subject [idle] contradictory [idle]);
    [repeat constructor | reflexivity].
Defined.

End CheckedSamples.

Section OfflineSamples.
Import Sample.
#[local] Existing Instance offline.

(** The batch of a question and its topic, without query runner. *)
Lemma execute_without_query_runner_witness :
  let w := before batchHeap false [] in
  (execute batch w).1 = Err (Thrown "No connection is available.")
  ∧ added w (execute batch w).2 [EProvide].
Proof.
  intros w.
  destruct (execute_without_query_runner batch w (Thrown "No connection is available."))
    as (Hresult & Hadded & _); [repeat constructor | reflexivity | reflexivity |].
  by split.
Defined.

End OfflineSamples.
